(** * aiida-jutools: KKR constants-version checker, computer options
      configs and CIF import, embedded from the Python sources.

    - [Kkr]     : [aiida_jutools/util_kkr.py], class
                  [KkrConstantsVersionChecker].
    - [Orm]     : the part of the AiiDA object store the tools talk to
                  (nodes, groups, queries), as an explicit store.
    - [Options] : [aiida_jutools/computer/options.py], class
                  [_OptionsConfig].
    - [Cif]     : [aiida_jutools/util_data.py], class [CifImporter].
    - [KkrTools]: [aiida_jutools/util_kkr.py], the checker's construction,
                  [clear], the provenance check and
                  [check_if_kkr_calc_converged].
    - [Manager] : [aiida_jutools/computer/options.py], the selection of
                  configs of [ComputerOptionsManager].

    Python floats are IEEE binary64 numbers, as are Rocq's primitive
    floats; Python exceptions are an explicit outcome. *)

From Stdlib Require Import PrimFloat Ascii String.
From stdpp Require Import base list strings sets gmap.

Set Default Proof Using "Type".
Set Warnings "-inexact-float,-register-all".

(** ** Outcomes of a Python call *)

Inductive exn :=
  | NotExistent | ValueError | NotImplementedError | KeyError
  | IndexError | TypeError | AttributeError | FileNotFoundError.

(** [Ok a]: the call returns [a]; [Raise e]: it raises [e];
    [Diverges]: it never returns. *)
Inductive result (A : Type) :=
  | Ok (a : A)
  | Raise (e : exn)
  | Diverges.
Arguments Ok {A} a.
Arguments Raise {A} e.
Arguments Diverges {A}.

Instance result_ret : MRet result := fun _ a => Ok a.
Instance result_bind : MBind result := fun _ _ k r =>
  match r with
  | Ok a => k a
  | Raise e => Raise e
  | Diverges => Diverges
  end.

Fixpoint mapR {A B} (f : A → result B) (l : list A) : result (list B) :=
  match l with
  | [] => Ok []
  | a :: l' => b ← f a; bs ← mapR f l'; Ok (b :: bs)
  end.

Instance exn_eq_dec : EqDecision exn.
Proof. solve_decision. Defined.

(** ** Methods on a state *)

(** A method body on a state [S]: from a state to an outcome and the
    state it leaves. *)
Definition M (S A : Type) : Type := S → result A * S.

Definition ret {S A} (a : A) : M S A := λ w, (Ok a, w).
Definition raise {S A} (e : exn) : M S A := λ w, (Raise e, w).
Definition diverge {S A} : M S A := λ w, (Diverges, w).
Definition bindM {S A B} (m : M S A) (k : A → M S B) : M S B :=
  λ w, match m w with
       | (Ok a, w') => k a w'
       | (Raise e, w') => (Raise e, w')
       | (Diverges, w') => (Diverges, w')
       end.
Definition lift {S A} (r : result A) : M S A := λ w, (r, w).

Notation "'do' x <- m ; k" := (bindM m (λ x, k))
  (at level 10, x name, m at level 100, k at level 200).
Notation "'do' ' p <- m ; k" := (bindM m (λ p, k))
  (at level 10, p pattern, m at level 100, k at level 200).
Notation "m ;; k" := (bindM m (λ _, k))
  (at level 100, k at level 200, right associativity).

Definition when {S} (b : bool) (m : M S unit) : M S unit :=
  if b then m else ret ().

Fixpoint forM {S A} (l : list A) (f : A → M S unit) : M S unit :=
  match l with
  | [] => ret ()
  | a :: l' => f a ;; forM l' f
  end.

Definition nonempty {A} (l : list A) : bool := negb (Nat.eqb (length l) 0).

(** The method ends: it returns or raises. *)
Definition returns_or_raises {S A} (x : result A * S) : Prop :=
  x.1 ≠ Diverges.

(** ** Python string operations used by the sources *)

Module PyStr.

(** [kw in line] *)
Fixpoint contains (kw line : string) : bool :=
  String.prefix kw line ||
  match line with
  | EmptyString => false
  | String _ rest => contains kw rest
  end.

(** [line.startswith(p)] *)
Definition startswith (p line : string) : bool := String.prefix p line.

(** [line.endswith(p)] *)
Definition endswith (p line : string) : bool :=
  String.prefix (String.rev p) (String.rev line).

(** The characters [str.split()] splits at: tab, line feed, vertical
    tab, form feed, carriage return, the four separators 28..31 and
    the blank. *)
Definition is_whitespace (c : ascii) : bool :=
  let n := nat_of_ascii c in
  ((9 <=? n) && (n <=? 13)) || ((28 <=? n) && (n <=? 32)).

(** [line.split()]: the maximal runs of non-blank characters. *)
Fixpoint split_from (word : string) (line : string) : list string :=
  match line with
  | EmptyString => if decide (word = "") then [] else [String.rev word]
  | String c rest =>
      if is_whitespace c
      then (if decide (word = "") then [] else [String.rev word])
           ++ split_from "" rest
      else split_from (String c word) rest
  end.
Definition split (line : string) : list string := split_from "" line.

(** Lower case of an ASCII letter, for SQL's [ILIKE]. *)
Definition lower (c : ascii) : ascii :=
  let n := nat_of_ascii c in
  if (65 <=? n) && (n <=? 90) then ascii_of_nat (n + 32) else c.

End PyStr.

(** * [util_kkr.py]: the KKR constants-version checker *)

Module Kkr.

(** [class KkrConstantsVersion(enum.Enum)] *)
Inductive KkrConstantsVersion := NEW | OLD | INTERIM | NEITHER | UNDECISIVE.

Instance KkrConstantsVersion_eq_dec : EqDecision KkrConstantsVersion.
Proof. solve_decision. Defined.

(** The enum's values: [NEW = 0], [OLD = 1], [INTERIM = 2], ... The class
    docstring reads "The order here reflects the importance". *)
Definition enum_value (v : KkrConstantsVersion) : nat :=
  match v with
  | NEW => 0 | OLD => 1 | INTERIM => 2 | NEITHER => 3 | UNDECISIVE => 4
  end.

Definition enum_name (v : KkrConstantsVersion) : string :=
  match v with
  | NEW => "NEW" | OLD => "OLD" | INTERIM => "INTERIM"
  | NEITHER => "NEITHER" | UNDECISIVE => "UNDECISIVE"
  end.

(** [self._ANG_BOHR_KKR], a dict literal: its items in insertion order,
    which is the order [.items()], [.keys()] and [.values()] iterate in. *)
Definition ANG_BOHR_KKR : list (KkrConstantsVersion * float) :=
  [ (NEW,     1.8897261246257702%float);
    (INTERIM, 1.8897261249935897%float);
    (OLD,     1.8897261254578281%float) ].

(** [self._RY_TO_EV_KKR] *)
Definition RY_TO_EV_KKR : list (KkrConstantsVersion * float) :=
  [ (NEW,     13.605693122994%float);
    (INTERIM, 13.605693122994%float);
    (OLD,     13.605693009%float) ].

(** [d[key]] on a dict given by its items. *)
Definition getitem {V} (d : list (KkrConstantsVersion * V))
    (key : KkrConstantsVersion) : result V :=
  match list_find (λ kv, kv.1 = key) d with
  | Some (_, kv) => Ok kv.2
  | None => Raise KeyError
  end.

(** ** The nodes a workchain check reads *)

Definition matrix := list (list float).

(** [StructureData]: [.cell] and the [.position] of each of [.sites]. *)
Record StructureData := {
  cell : matrix;
  sites : list (list float)
}.

(** [VoronoiCalculation]: the lines of its retrieved file [inputcard]
    (the content split at line feeds), [None] when
    [get_object_content] raises [FileNotFoundError]. *)
Record VoronoiCalculation := {
  inputcard : option (list string)
}.

(** [kkr_startpot_wc]: its outgoing [VoronoiCalculation] nodes. *)
Record kkr_startpot_wc := {
  vorocalcs : list VoronoiCalculation
}.

(** [WorkChainNode]. [inputs_structure] is [wc.inputs.structure] ([None]:
    no such input); [host_structures] is the result of the query that
    [query_structure_from] runs for a [kkr_imp_wc]; [startpots] are the
    outgoing [kkr_startpot_wc] nodes. *)
Record WorkChainNode := {
  uuid : string;
  ctime : Z;
  process_label : string;
  inputs_structure : option StructureData;
  host_structures : list StructureData;
  startpots : list kkr_startpot_wc
}.

(** [query_structure_from(wc)] *)
Definition query_structure_from (wc : WorkChainNode)
    : result (option StructureData) :=
  if decide (process_label wc = "kkr_scf_wc") then
    match inputs_structure wc with
    | Some s => Ok (Some s)
    | None => Raise AttributeError
    end
  else if decide (process_label wc = "kkr_imp_wc") then
    Ok (head (host_structures wc))
  else Raise NotImplementedError.

(** ** numpy and masci_tools helpers *)

(** [numpy.array(rows).shape] for a list of rows of numbers: [(0,)] for
    the empty list, [(n, c)] for [n] rows of [c] entries each; rows of
    different lengths make no numeric array. *)
Inductive shape := Shape1 (n : nat) | Shape2 (n c : nat).

Instance shape_eq_dec : EqDecision shape.
Proof. solve_decision. Defined.

Definition np_shape (rows : matrix) : option shape :=
  match rows with
  | [] => Some (Shape1 0)
  | r :: rest =>
      if forallb (λ r', Nat.eqb (length r') (length r)) rest
      then Some (Shape2 (length rows) (length r))
      else None
  end.

(** [numpy.array(rows)]; ragged rows are refused with [ValueError]. *)
Definition np_array (rows : matrix) : result matrix :=
  match np_shape rows with
  | Some _ => Ok rows
  | None => Raise ValueError
  end.

(** [x != 0.0] on floats: false for both zeros, true for NaN. *)
Definition nonzero (x : float) : bool := negb (PrimFloat.eqb x 0%float).

(** [masci_tools.util.math_util.set_zero_below_threshold]: entries whose
    absolute value is below the threshold become zero. *)
Definition set_zero_below_threshold (a : matrix) (threshold : float) : matrix :=
  map (map (λ x, if PrimFloat.ltb (PrimFloat.abs x) threshold
                 then 0%float else x)) a.

(** [masci_tools.util.math_util.drop_values(a, 'zero', 'nan')]: the
    entries that are neither zero nor NaN, in order. *)
Definition drop_values (a : list float) : list float :=
  filter (λ x, nonzero x && negb (PrimFloat.is_nan x) = true) a.

(** Python's built-in [min] on a non-empty sequence: the running minimum
    is replaced by a later item only when that item is [<] it. *)
Definition py_min (first : float) (rest : list float) : float :=
  fold_left (λ m x, if PrimFloat.ltb x m then x else m) rest first.

(** ** The checker's DataFrame: one row per checked workchain *)

Record Row := {
  row_ctime : Z;
  row_group : option string;          (* [None]: left at NaN *)
  row_ANG_BOHR_KKR : float;
  row_constants_version : KkrConstantsVersion;
  row_diff_new : float;
  row_diff_old : float;
  row_diff_interim : float
}.

(** Rows in order, each with its index label (the workchain's UUID). *)
Definition DataFrame := list (string * Row).

Definition df_index (df : DataFrame) : list string := df.*1.

(** The extra [kkr_constants_version] set on the workchain. *)
Record Extra := {
  extra_constants_version : string;
  extra_ANG_BOHR_KKR : float;
  extra_RY_TO_EV_KKR : option float
}.

(** What [read_inputcard] hands to the reverse calculation. *)
Record Inputcard := {
  ALATBASIS : float;
  BRAVAIS : matrix;
  POSITIONS : matrix
}.

Section Checker.

(** [numpy.mean] of a one-dimensional float64 array. *)
Variable np_mean : list float → float.
(** [float(s)] for a string; [None] when it raises [ValueError]. *)
Variable py_float : string → option float.

Definition to_float (s : string) : result float :=
  match py_float s with
  | Some x => Ok x
  | None => Raise ValueError
  end.

(** The nested function [read_field(keyword)] of
    [check_single_workchain]: the lines after a line holding the
    keyword, as long as they start with a blank, each parsed into a
    row of floats. *)
Definition read_field_lines (keyword : string) (card : list string)
    : list string :=
  (fold_left
     (λ '(reading, lines) line,
        let '(reading, lines) :=
          if reading : bool then
            if PyStr.startswith " " line then (reading, lines ++ [line])
            else (false, lines)
          else (reading, lines) in
        if PyStr.contains keyword line then (true, lines)
        else (reading, lines))
     card (false, [])).2.

Definition read_field (keyword : string) (card : list string)
    : result matrix :=
  rows ← mapR (λ line, mapR to_float (PyStr.split line))
              (read_field_lines keyword card);
  np_array rows.

(** Step 2 of [check_single_workchain]: [Ok None] is a skip with a
    printed warning. *)
Definition read_inputcard (wc : WorkChainNode) : result (option Inputcard) :=
  match startpots wc with
  | [] => Ok None
  | _ =>
    match list_find (λ sp, vorocalcs sp ≠ []) (startpots wc) with
    | None => Ok None
    | Some (_, sp) =>
      match vorocalcs sp with
      | [] => Ok None
      | vorocalc :: _ =>
        match inputcard vorocalc with
        | None => Ok None                  (* FileNotFoundError, caught *)
        | Some card =>
          match filter (λ line, PyStr.contains "ALATBASIS" line = true) card with
          | [line] =>
            match PyStr.split line !! 1 with
            | None => Raise IndexError
            | Some tok =>
              alat ← to_float tok;
              bravais ← read_field "BRAVAIS" card;
              positions ← read_field "<RBASIS>" card;
              Ok (Some {| ALATBASIS := alat; BRAVAIS := bravais;
                          POSITIONS := positions |})
            end
          | _ => Ok None
          end
        end
      end
    end
  end.

(** Step 3: [reverse_calc_single_ANG_BOHR_KKR(x, y)]. *)
Definition reverse_calc_single_ANG_BOHR_KKR (alat x y : float) : float :=
  if nonzero y && nonzero x
  then PrimFloat.div (PrimFloat.mul alat x) y
  else 0%float.

(** The number of entries of an array of that shape. *)
Definition shape_size (s : option shape) : nat :=
  match s with
  | Some (Shape1 n) => n
  | Some (Shape2 n c) => n * c
  | None => 0
  end.

(** [reverse_calc_ANG_BOHR_KKR(inp_arr, struc_arr)]: [None] stands for
    the bare [return] on a shape mismatch. [numpy.nditer] walks both
    arrays in step, in row-major order; it refuses arrays without
    entries with [ValueError]. *)
Definition reverse_calc_ANG_BOHR_KKR (alat : float) (inp_arr struc_arr : matrix)
    : result (option (list float)) :=
  if decide (np_shape inp_arr = np_shape struc_arr) then
    if Nat.eqb (shape_size (np_shape inp_arr)) 0 then Raise ValueError
    else
      Ok (Some (map (λ xy, reverse_calc_single_ANG_BOHR_KKR alat xy.1 xy.2)
                    (zip (concat inp_arr) (concat struc_arr))))
  else Ok None.

(** [a2b_list.extend(r)]: extending by [None] raises [TypeError]. *)
Definition extend (l : list float) (r : option (list float))
    : result (list float) :=
  match r with
  | Some l' => Ok (l ++ l')
  | None => Raise TypeError
  end.

Definition reverse_calc (card : Inputcard)
    (structure_cell structure_positions : matrix) : result float :=
  samples ← reverse_calc_ANG_BOHR_KKR (ALATBASIS card) (BRAVAIS card)
              structure_cell;
  a2b_list ← extend [] samples;
  samples ← reverse_calc_ANG_BOHR_KKR (ALATBASIS card) (POSITIONS card)
              structure_positions;
  a2b_list ← extend a2b_list samples;
  Ok (np_mean (drop_values a2b_list)).

(** Step 4: the [difference] ordered dict, keyed and ordered as
    [self.ANG_BOHR_KKR]. *)
Definition difference (ang : float) : list (KkrConstantsVersion * float) :=
  map (λ cv, (cv.1, PrimFloat.abs (PrimFloat.sub ang cv.2))) ANG_BOHR_KKR.

(** [[i for i, val in enumerate(d.values()) if val == min(d.values())]] *)
Definition minima_indices (d : list (KkrConstantsVersion * float)) : list nat :=
  match d.*2 with
  | [] => []
  | v :: vs =>
      let m := py_min v vs in
      (filter (λ iv, PrimFloat.eqb iv.2 m = true) (imap pair (v :: vs))).*1
  end.

(** [constants_version = list(difference.keys())[indices[0]]] *)
Definition classify (ang : float) : result KkrConstantsVersion :=
  let d := difference ang in
  match minima_indices d with
  | [] => Raise IndexError
  | i :: _ =>
      match d.*1 !! i with
      | Some c => Ok c
      | None => Raise IndexError
      end
  end.

(** [check_single_workchain(wc, set_extra, zero_threshold, group_label)]
    on the checker's DataFrame [df]: the new DataFrame and the extra
    set on the workchain, if any. *)
Definition check_single_workchain (df : DataFrame) (wc : WorkChainNode)
    (set_extra : bool) (zero_threshold : float) (group_label : option string)
    : result (DataFrame * option Extra) :=
  if decide (uuid wc ∈ df_index df) then Ok (df, None)
  else
    structure ← query_structure_from wc;
    structure ← (match structure with
                 | Some s => Ok s
                 | None => Raise AttributeError
                 end);
    structure_cell ← np_array (cell structure);
    let structure_cell := set_zero_below_threshold structure_cell zero_threshold in
    structure_positions ← np_array (sites structure);
    let structure_positions :=
      set_zero_below_threshold structure_positions zero_threshold in
    card ← read_inputcard wc;
    match card with
    | None => Ok (df, None)
    | Some card =>
        ang ← reverse_calc card structure_cell structure_positions;
        constants_version ← classify ang;
        let d := difference ang in
        diff_new ← getitem d NEW;
        diff_old ← getitem d OLD;
        diff_interim ← getitem d INTERIM;
        let row := {|
          row_ctime := ctime wc;
          row_group := match group_label with
                       | Some g => if decide (g = "") then None else Some g
                       | None => None
                       end;
          row_ANG_BOHR_KKR := ang;
          row_constants_version := constants_version;
          row_diff_new := diff_new;
          row_diff_old := diff_old;
          row_diff_interim := diff_interim |} in
        let df' := df ++ [(uuid wc, row)] in
        if set_extra then
          if decide (constants_version ∈ [NEW; INTERIM; OLD]) then
            a ← getitem ANG_BOHR_KKR constants_version;
            r ← getitem RY_TO_EV_KKR constants_version;
            Ok (df', Some {| extra_constants_version := enum_name constants_version;
                             extra_ANG_BOHR_KKR := a;
                             extra_RY_TO_EV_KKR := Some r |})
          else
            Ok (df', Some {| extra_constants_version := enum_name constants_version;
                             extra_ANG_BOHR_KKR := ang;
                             extra_RY_TO_EV_KKR := None |})
        else Ok (df', None)
    end.

End Checker.

(** [check_workchain_group(group, process_labels, ...)]: the group's
    nodes that are workchains with one of the process labels are checked
    in turn, each on the DataFrame the previous check left. *)
Section Group.

Variable np_mean : list float → float.
Variable py_float : string → option float.

Fixpoint check_workchains (df : DataFrame) (wcs : list WorkChainNode)
    (set_extra : bool) (zero_threshold : float) (group_label : string)
    : result DataFrame :=
  match wcs with
  | [] => Ok df
  | wc :: rest =>
      '(df', _) ← check_single_workchain np_mean py_float df wc set_extra
                    zero_threshold (Some group_label);
      check_workchains df' rest set_extra zero_threshold group_label
  end.

Definition check_workchain_group (df : DataFrame)
    (group_label : string) (group_nodes : list WorkChainNode)
    (process_labels : list string) (set_extra : bool)
    (zero_threshold : float) : result DataFrame :=
  match process_labels with
  | [] => Ok df
  | _ =>
      check_workchains df
        (filter (λ node, process_label node ∈ process_labels) group_nodes)
        set_extra zero_threshold group_label
  end.

End Group.

(** ** The reverse calculation in the words of its contract *)

(** One sample per matched pair: zero when either entry is zero, else
    [ALATBASIS * x / y]. *)
Definition spec_sample (alat x y : float) : float :=
  if PrimFloat.eqb x 0%float || PrimFloat.eqb y 0%float then 0%float
  else PrimFloat.div (PrimFloat.mul alat x) y.

(** The samples of an inputcard matrix against a structure matrix: entry
    [(i, j)] of the one with entry [(i, j)] of the other. *)
Definition spec_matched_samples (alat : float) (inp struc : matrix) : list float :=
  concat (zip_with (zip_with (spec_sample alat)) inp struc).

Definition spec_kept (s : float) : bool :=
  negb (PrimFloat.eqb s 0%float) && negb (PrimFloat.is_nan s).

Definition spec_reverse_calc (mean : list float → float) (alat : float)
    (bravais cell rbasis positions : matrix) : float :=
  mean (filter (λ s, spec_kept s = true)
          (spec_matched_samples alat bravais cell ++
           spec_matched_samples alat rbasis positions)).

(** ** A concrete workchain *)

Module Sample.

(** A sequential mean: the sum from the left, divided by the count. *)
Fixpoint float_of_nat (n : nat) : float :=
  match n with
  | O => 0%float
  | S n => PrimFloat.add (float_of_nat n) 1%float
  end.

Definition seq_mean (a : list float) : float :=
  PrimFloat.div (fold_left PrimFloat.add a 0%float) (float_of_nat (length a)).

(** [float] on the number tokens of the inputcards below. *)
Definition tokens (s : string) : option float :=
  if decide (s = "1.0") then Some 1%float
  else if decide (s = "0.5") then Some 0.5%float
  else if decide (s = "0.0") then Some 0%float
  else if decide (s = "1.8897261252257089") then Some 1.8897261252257089%float
  else if decide (s = "1.8897261246257702") then Some 1.8897261246257702%float
  else None.

Definition card_of (alat : string) : list string :=
  [ "ALATBASIS= " +:+ alat +:+ "   lattice constant in a.u.";
    "BRAVAIS";
    " 1.0 0.0 0.0";
    " 0.0 1.0 0.0";
    " 0.0 0.0 1.0";
    "NAEZ= 2";
    "<RBASIS>";
    " 0.0 0.0 0.0";
    " 0.0 0.0 0.5";
    "CARTESIAN= True" ].

(** A simple cubic cell of edge 1 with sites at the origin and at
    (0, 0, 0.5). *)
Definition cubic : StructureData :=
  {| cell := [ [1; 0; 0]; [0; 1; 0]; [0; 0; 1] ]%float;
     sites := [ [0; 0; 0]; [0; 0; 0.5] ]%float |}.

Definition wc_of (id alat : string) : WorkChainNode :=
  {| uuid := id;
     ctime := 0;
     process_label := "kkr_scf_wc";
     inputs_structure := Some cubic;
     host_structures := [];
     startpots := [ {| vorocalcs := [ {| inputcard := Some (card_of alat) |} ] |} ] |}.

(** The exact midpoint of the INTERIM and the OLD literal, itself a
    binary64 number. *)
Definition midpoint : float := 1.8897261252257089%float.

Definition wc_midpoint : WorkChainNode := wc_of "wc-midpoint" "1.8897261252257089".
Definition wc_new : WorkChainNode := wc_of "wc-new" "1.8897261246257702".

End Sample.

End Kkr.

(** * Python values and the AiiDA object store *)

Module Py.

(** The values found in option records: [None], booleans, integers,
    strings, lists and dicts. A dict is the list of its items in
    insertion order, each key once. *)
Inductive value :=
  | VNone
  | VBool (b : bool)
  | VInt (z : Z)
  | VStr (s : string)
  | VList (l : list value)
  | VDict (d : list (string * value)).

Definition dict := list (string * value).

(** [d.get(k, None)] as an option; [d[k]] raises [KeyError] on [None]. *)
Fixpoint get (d : dict) (k : string) : option value :=
  match d with
  | [] => None
  | (k', v) :: d' => if decide (k' = k) then Some v else get d' k
  end.

Definition getitem (d : dict) (k : string) : result value :=
  match get d k with
  | Some v => Ok v
  | None => Raise KeyError
  end.

(** [d[k] = v]: an existing key keeps its position, a new key goes to
    the end. *)
Fixpoint set (d : dict) (k : string) (v : value) : dict :=
  match d with
  | [] => [(k, v)]
  | (k', v') :: d' =>
      if decide (k' = k) then (k, v) :: d' else (k', v') :: set d' k v
  end.

(** [d.pop(k)] for a key that is there *)
Definition pop (d : dict) (k : string) : dict :=
  filter (λ kv, kv.1 ≠ k) d.

(** Truth value of an object in a condition. *)
Definition truthy (v : value) : bool :=
  match v with
  | VNone => false
  | VBool b => b
  | VInt z => negb (z =? 0)%Z
  | VStr s => negb (String.eqb s "")
  | VList l => negb (Nat.eqb (length l) 0)
  | VDict d => negb (Nat.eqb (length d) 0)
  end.

(** Truth value of [d.get(k, None)]. *)
Definition get_truthy (d : dict) (k : string) : bool :=
  match get d k with
  | Some v => truthy v
  | None => false
  end.

(** Booleans are integers: [True == 1]. *)
Definition as_int (v : value) : option Z :=
  match v with
  | VBool b => Some (if b then 1 else 0)%Z
  | VInt z => Some z
  | _ => None
  end.

(** [a == b] *)
Fixpoint eq (a b : value) {struct a} : bool :=
  match a, b with
  | VNone, VNone => true
  | VStr s, VStr t => String.eqb s t
  | VList l, VList m =>
      (fix eq_list (l m : list value) {struct l} : bool :=
         match l, m with
         | [], [] => true
         | x :: l', y :: m' => eq x y && eq_list l' m'
         | _, _ => false
         end) l m
  | VDict d, VDict e =>
      Nat.eqb (length d) (length e) &&
      (fix eq_items (d : list (string * value)) : bool :=
         match d with
         | [] => true
         | (k, v) :: d' =>
             match get e k with
             | Some w => eq v w && eq_items d'
             | None => false
             end
         end) d
  | (VBool _ | VInt _), (VBool _ | VInt _) =>
      match as_int a, as_int b with
      | Some x, Some y => (x =? y)%Z
      | _, _ => false
      end
  | _, _ => false
  end.

Definition dict_eq (d e : dict) : bool := eq (VDict d) (VDict e).

(** [a < b]; ordering a number against a string, or anything against
    [None] or a dict, raises [TypeError]. Lists compare at their first
    differing items. *)
Fixpoint lt (a b : value) {struct a} : result bool :=
  match a, b with
  | VStr s, VStr t => Ok (String.ltb s t)
  | VList l, VList m =>
      (fix lt_list (l m : list value) {struct l} : result bool :=
         match l, m with
         | [], [] => Ok false
         | [], _ :: _ => Ok true
         | _ :: _, [] => Ok false
         | x :: l', y :: m' => if eq x y then lt_list l' m' else lt x y
         end) l m
  | (VBool _ | VInt _), (VBool _ | VInt _) =>
      match as_int a, as_int b with
      | Some x, Some y => Ok (x <? y)%Z
      | _, _ => Raise TypeError
      end
  | _, _ => Raise TypeError
  end.

(** [a > b] is [b < a] here. *)
Definition gt (a b : value) : result bool := lt b a.

(** The built-ins [max] and [min] on a non-empty list: the first item,
    replaced by a later one that is greater (smaller). *)
Fixpoint max_from (m : value) (l : list value) : result value :=
  match l with
  | [] => Ok m
  | x :: l' => b ← gt x m; max_from (if b : bool then x else m) l'
  end.

Fixpoint min_from (m : value) (l : list value) : result value :=
  match l with
  | [] => Ok m
  | x :: l' => b ← lt x m; min_from (if b : bool then x else m) l'
  end.

Definition is_dict (v : value) : bool :=
  match v with VDict _ => true | _ => false end.
Definition is_list (v : value) : bool :=
  match v with VList _ => true | _ => false end.

(** Truth value of an optional string argument ([None] or a string). *)
Definition str_truthy (s : option string) : bool :=
  match s with
  | Some t => negb (String.eqb t "")
  | None => false
  end.

End Py.

Module Orm.
Import Py.

(** The Python type of a node object: [Dict] itself, a subclass of
    [Dict], [CifData], [StructureData], or another node class. *)
Inductive node_type :=
  | TDict | TDictSubclass | TCifData | TStructureData | TOther.

Instance node_type_eq_dec : EqDecision node_type.
Proof. solve_decision. Defined.

(** [isinstance(node, orm.Dict)] *)
Definition isinstance_Dict (t : node_type) : bool :=
  match t with TDict | TDictSubclass => true | _ => false end.

Record Node := {
  type : node_type;
  label : string;
  attributes : dict;
  is_stored : bool
}.

Record Group := {
  group_label : string;
  description : string;
  extras : list (string * list string);
  group_is_stored : bool;
  nodes : list nat            (* the member nodes, by object id *)
}.

(** All node and group objects, stored or not; an object's id is its
    position. The database is the stored ones. *)
Record Store := {
  all_nodes : list Node;
  all_groups : list Group
}.

Definition node (st : Store) (n : nat) : option Node := all_nodes st !! n.
Definition group (st : Store) (g : nat) : option Group := all_groups st !! g.

Definition node_is_stored (st : Store) (n : nat) : bool :=
  match node st n with Some x => is_stored x | None => false end.
Definition node_attributes (st : Store) (n : nat) : dict :=
  match node st n with Some x => attributes x | None => [] end.
Definition node_label (st : Store) (n : nat) : string :=
  match node st n with Some x => label x | None => "" end.
Definition node_type_of (st : Store) (n : nat) : node_type :=
  match node st n with Some x => type x | None => TOther end.

Definition grp_is_stored (st : Store) (g : nat) : bool :=
  match group st g with Some x => group_is_stored x | None => false end.
Definition grp_label (st : Store) (g : nat) : string :=
  match group st g with Some x => group_label x | None => "" end.
Definition grp_description (st : Store) (g : nat) : string :=
  match group st g with Some x => description x | None => "" end.
Definition grp_nodes (st : Store) (g : nat) : list nat :=
  match group st g with Some x => nodes x | None => [] end.

(** [orm.Dict(label=l, dict=d)]: a new, unstored node object. *)
Definition new_Dict (st : Store) (l : string) (d : dict) : Store * nat :=
  ({| all_nodes := all_nodes st ++
        [ {| type := TDict; label := l; attributes := d; is_stored := false |} ];
      all_groups := all_groups st |},
   length (all_nodes st)).

Definition alter_node (f : Node → Node) (n : nat) (st : Store) : Store :=
  {| all_nodes := alter f n (all_nodes st); all_groups := all_groups st |}.
Definition alter_group (f : Group → Group) (g : nat) (st : Store) : Store :=
  {| all_nodes := all_nodes st; all_groups := alter f g (all_groups st) |}.

(** [node.store()] *)
Definition store_node (n : nat) (st : Store) : Store :=
  alter_node (λ x, {| type := type x; label := label x;
                      attributes := attributes x; is_stored := true |}) n st.

(** [node.label = l] *)
Definition set_label (n : nat) (l : string) (st : Store) : Store :=
  alter_node (λ x, {| type := type x; label := l;
                      attributes := attributes x; is_stored := is_stored x |}) n st.

(** [orm.Group(label=l, description=d)]: a new, unstored group object. *)
Definition new_Group (st : Store) (l d : string) : Store * nat :=
  ({| all_nodes := all_nodes st;
      all_groups := all_groups st ++
        [ {| group_label := l; description := d; extras := [];
             group_is_stored := false; nodes := [] |} ] |},
   length (all_groups st)).

(** [extras[k] = v] on the extras of a group *)
Fixpoint set_extra (e : list (string * list string)) (k : string)
    (v : list string) : list (string * list string) :=
  match e with
  | [] => [(k, v)]
  | (k', v') :: e' =>
      if decide (k' = k) then (k, v) :: e' else (k', v') :: set_extra e' k v
  end.

(** [group.set_extra_many(e)]: the extras of [e] are set, the group's
    other extras stay. *)
Definition set_extra_many (g : nat) (e : list (string * list string))
    (st : Store) : Store :=
  alter_group (λ x, {| group_label := group_label x; description := description x;
                       extras := foldl (λ acc kv, set_extra acc kv.1 kv.2)
                                       (extras x) e;
                       group_is_stored := group_is_stored x;
                       nodes := nodes x |}) g st.

(** [group.description = d] *)
Definition set_description (g : nat) (d : string) (st : Store) : Store :=
  alter_group (λ x, {| group_label := group_label x; description := d;
                       extras := extras x; group_is_stored := group_is_stored x;
                       nodes := nodes x |}) g st.

(** [group.store()] *)
Definition store_group (g : nat) (st : Store) : Store :=
  alter_group (λ x, {| group_label := group_label x; description := description x;
                       extras := extras x; group_is_stored := true;
                       nodes := nodes x |}) g st.

(** [group.add_nodes(ns)]: the nodes not yet in the group join it. *)
Definition add_nodes (g : nat) (ns : list nat) (st : Store) : Store :=
  alter_group
    (λ x, {| group_label := group_label x; description := description x;
             extras := extras x; group_is_stored := group_is_stored x;
             nodes := nodes x ++ filter (λ n, n ∉ nodes x) (remove_dups ns) |})
    g st.

(** [orm.Group.get(label=l)]: the stored group of that label, or
    [NotExistent]. *)
Definition Group_get (st : Store) (l : string) : result nat :=
  match list_find (λ x, group_is_stored x = true ∧ group_label x = l)
                  (all_groups st) with
  | Some (g, _) => Ok g
  | None => Raise NotExistent
  end.

(** *** Query filters on a node's attributes *)

(** SQL [LIKE] with the wildcards [%] (any run of characters) and [_]
    (any one character), letters compared without case: [ILIKE]. The
    patterns of [get_options] hold no escape character unless the
    account does. *)
Fixpoint ilike (pattern s : string) : bool :=
  match pattern with
  | EmptyString => match s with EmptyString => true | _ => false end
  | String p pattern' =>
      if Ascii.eqb p "%" then
        (fix skip (s : string) : bool :=
           ilike pattern' s ||
           match s with
           | EmptyString => false
           | String _ s' => skip s'
           end) s
      else
        match s with
        | EmptyString => false
        | String c s' =>
            (Ascii.eqb p "_" || Ascii.eqb (PyStr.lower p) (PyStr.lower c))
            && ilike pattern' s'
        end
  end.

Inductive condition :=
  | Equals (v : value)          (* [{path: v}] *)
  | ILike (pattern : string).   (* [{path: {"ilike": pattern}}] *)

(** A filter on [attributes.k1.k2...]: the key path and the condition. *)
Definition filter_item : Type := list string * condition.

Fixpoint attribute_at (d : dict) (path : list string) : option value :=
  match path with
  | [] => Some (VDict d)
  | [k] => get d k
  | k :: path' =>
      match get d k with
      | Some (VDict d') => attribute_at d' path'
      | _ => None
      end
  end.

(** Equality of a stored JSON value with a filter value: the same kind
    of scalar and the same content. *)
Definition json_equal (stored v : value) : bool :=
  match stored, v with
  | VNone, VNone => true
  | VBool a, VBool b => Bool.eqb a b
  | VInt a, VInt b => (a =? b)%Z
  | VStr a, VStr b => String.eqb a b
  | _, _ => false
  end.

Definition satisfies (d : dict) (f : filter_item) : bool :=
  match attribute_at d f.1, f.2 with
  | Some stored, Equals v => json_equal stored v
  | Some (VStr s), ILike pattern => ilike pattern s
  | _, _ => false
  end.

(** The query
    [qb.append(Group, filters={"label": {"in": group_names}}, tag="group");
     qb.append(Dict, with_group="group", filters={"and": filters});
     qb.all(flat=True)]:
    one row for each stored group of one of the labels and each stored
    [Dict] member of it that passes all filters. *)
Definition is_stored_Dict (st : Store) (n : nat) : bool :=
  isinstance_Dict (node_type_of st n) && node_is_stored st n.

Definition query_Dicts (st : Store) (group_names : list string)
    (filters : list filter_item) : list nat :=
  flat_map
    (λ x : Group,
       if group_is_stored x && bool_decide (group_label x ∈ group_names)
       then filter (λ n, is_stored_Dict st n &&
                         forallb (satisfies (node_attributes st n)) filters = true)
                   (nodes x)
       else [])
    (all_groups st).

(** The same query with [.distinct()]: each node once. *)
Definition query_Dicts_distinct (st : Store) (group_names : list string)
    (filters : list filter_item) : list nat :=
  remove_dups (query_Dicts st group_names filters).

End Orm.

(** * [computer/options.py]: computer options configs *)

Module Options.
Import Py Orm.

(** [class _OptionsQueryConfig] *)
Record OptionsQueryConfig := {
  ignored : list string;
  mandatory : list string;
  optional : list string
}.

(** [class _OptionsDefaultCreationValues]. [conditional] maps a field
    name to its cases, a dict from the field's value to the fields that
    follow from it; [unconditional] maps field names to values. *)
Definition cases := list (bool * dict).

Record OptionsDefaultCreationValues := {
  conditional : list (string * cases);
  unconditional : dict
}.

(** What is used of an AiiDA [Computer]: its label, the result of
    [get_default_mpiprocs_per_machine()] ([VNone] when not set) and the
    valid keys of its scheduler's job resource class. *)
Record Computer := {
  computer_label : string;
  default_mpiprocs_per_machine : value;
  job_resource_keys : list string
}.

(** [class _OptionsConfig]. Groups and options are held by object id;
    [jobresource_keys] is [self._jobresource_cls.get_valid_keys()]. *)
Record OptionsConfig := {
  name : string;
  _groups : list nat;
  _group_extras : list (string * list string);
  _options : list nat;
  _query_config : OptionsQueryConfig;
  jobresource_keys : list string;
  _default_option_creation_values : OptionsDefaultCreationValues;
  _computers : list Computer;
  _is_initialized : bool
}.

(** The warnings a config prints whatever [silent] is. *)
Inductive warning :=
  | NotInitialized
  | InvalidKeywords (ks : list string)
  | ResourcesNotADict
  | IncompatibleComputer (c : string)
  | ListQueryAttribute (attr : string)
  | NestedQueryAttribute (attr subattr : string)
  | ResourcesClash
  | MissingResources (created : list dict) (loaded : list nat).

(** The config object, the object store and the console. *)
Record World := {
  config : OptionsConfig;
  store : Store;
  printed : list warning
}.

Definition get_config : M World OptionsConfig := λ w, (Ok (config w), w).
Definition get_store : M World Store := λ w, (Ok (store w), w).
Definition put_config (c : OptionsConfig) : M World unit :=
  λ w, (Ok (), {| config := c; store := store w; printed := printed w |}).
Definition put_store (s : Store) : M World unit :=
  λ w, (Ok (), {| config := config w; store := s; printed := printed w |}).
Definition modify_store (f : Store → Store) : M World unit :=
  λ w, (Ok (), {| config := config w; store := f (store w); printed := printed w |}).
Definition warn (x : warning) : M World unit :=
  λ w, (Ok (), {| config := config w; store := store w;
                  printed := printed w ++ [x] |}).
Definition set_groups (gs : list nat) (c : OptionsConfig) : OptionsConfig :=
  {| name := name c; _groups := gs; _group_extras := _group_extras c;
     _options := _options c; _query_config := _query_config c;
     jobresource_keys := jobresource_keys c;
     _default_option_creation_values := _default_option_creation_values c;
     _computers := _computers c; _is_initialized := _is_initialized c |}.
Definition set_options (os : list nat) (c : OptionsConfig) : OptionsConfig :=
  {| name := name c; _groups := _groups c; _group_extras := _group_extras c;
     _options := os; _query_config := _query_config c;
     jobresource_keys := jobresource_keys c;
     _default_option_creation_values := _default_option_creation_values c;
     _computers := _computers c; _is_initialized := _is_initialized c |}.
Definition set_computers (cs : list Computer) (c : OptionsConfig) : OptionsConfig :=
  {| name := name c; _groups := _groups c; _group_extras := _group_extras c;
     _options := _options c; _query_config := _query_config c;
     jobresource_keys := jobresource_keys c;
     _default_option_creation_values := _default_option_creation_values c;
     _computers := cs; _is_initialized := _is_initialized c |}.
Definition set_defaults (d : OptionsDefaultCreationValues) (c : OptionsConfig)
    : OptionsConfig :=
  {| name := name c; _groups := _groups c; _group_extras := _group_extras c;
     _options := _options c; _query_config := _query_config c;
     jobresource_keys := jobresource_keys c;
     _default_option_creation_values := d;
     _computers := _computers c; _is_initialized := _is_initialized c |}.
Definition set_initialized (b : bool) (c : OptionsConfig) : OptionsConfig :=
  {| name := name c; _groups := _groups c; _group_extras := _group_extras c;
     _options := _options c; _query_config := _query_config c;
     jobresource_keys := jobresource_keys c;
     _default_option_creation_values := _default_option_creation_values c;
     _computers := _computers c; _is_initialized := b |}.

Definition modify_config (f : OptionsConfig → OptionsConfig) : M World unit :=
  λ w, (Ok (), {| config := f (config w); store := store w; printed := printed w |}).

(** [_check_if_initalized()] *)
Definition _check_if_initalized : M World bool :=
  do c <- get_config;
  when (negb (_is_initialized c)) (warn NotInitialized) ;;
  ret (_is_initialized c).

(** The property [groups] *)
Definition groups : M World (list nat) :=
  _check_if_initalized ;;
  do c <- get_config; ret (_groups c).

Definition group_names (st : Store) (c : OptionsConfig) : list string :=
  map (grp_label st) (_groups c).

(** [_update_options()] *)
Definition _update_options : M World unit :=
  do c <- get_config;
  do st <- get_store;
  when (_is_initialized c)
    (put_config (set_options (query_Dicts_distinct st (group_names st c) []) c)).

(** The property [options] *)
Definition options : M World (list nat) :=
  do b <- _check_if_initalized;
  when b _update_options ;;
  do c <- get_config; ret (_options c).

(** ** [initialize] *)

(** The stored [Dict] members of a group: [[node for node in
    list(group.nodes) if isinstance(node, Dict) and node.is_stored]]. *)
Definition group_options (st : Store) (g : nat) : list nat :=
  filter (λ n, is_stored_Dict st n = true) (grp_nodes st g).

(** The search of [initialize] for a default option record: the groups
    in turn, in each its options in turn, up to the first one whose
    attributes equal the record's. *)
Fixpoint search_groups (st : Store) (attrs : dict) (gs : list nat) : option nat :=
  match gs with
  | [] => None
  | g :: gs' =>
      match list_find (λ n, dict_eq attrs (node_attributes st n) = true)
                      (group_options st g) with
      | Some (_, group_option) => Some group_option
      | None => search_groups st attrs gs'
      end
  end.

(** One round of the loop "replace temporary options with loaded option
    where it exists". *)
Definition load_option (i : nat) : M World unit :=
  do c <- get_config;
  do st <- get_store;
  match _options c !! i with
  | None => raise IndexError
  | Some option =>
      match search_groups st (node_attributes st option) (_groups c) with
      | None => ret ()
      | Some group_option =>
          when (String.eqb (node_label st group_option) "")
            (modify_store (set_label group_option (node_label st option))) ;;
          modify_config (λ c, set_options (<[i := group_option]> (_options c)) c)
      end
  end.

(** One round of the loop "store all remaining unstored options and add
    to all groups". *)
Definition create_option (option : nat) : M World unit :=
  do st <- get_store;
  if node_is_stored st option then ret ()
  else
    modify_store (store_node option) ;;
    do c <- get_config;
    forM (_groups c) (λ g, modify_store (add_nodes g [option])).

(** Step 1 of [initialize]: the final list of groups. *)
Definition resolve_groups (st : Store) (default_groups_count : nat)
    (gs : list nat) : list nat :=
  let gs := map (λ g, match Group_get st (grp_label st g) with
                      | Ok stored_group => stored_group
                      | _ => g
                      end) gs in
  let gs :=
    if negb (existsb (grp_is_stored st) (take default_groups_count gs))
       && existsb (grp_is_stored st) (drop default_groups_count gs)
    then drop default_groups_count gs else gs in
  if existsb (grp_is_stored st) gs
  then filter (λ g, grp_is_stored st g = true) gs
  else gs.

(** "add alternative groups, unstored" *)
Definition add_alternative_groups (primary_group : nat)
    (alternative_group_names : list string) : M World unit :=
  forM alternative_group_names
    (λ group_name,
       do st <- get_store;
       do c <- get_config;
       let '(st, g) := new_Group st group_name (grp_description st primary_group) in
       put_store (set_extra_many g (_group_extras c) st) ;;
       put_config (set_groups (_groups c ++ [g]) c)).

(** "load already stored groups" up to "if now no groups loaded, ditch
    all groups except the primary one, and 'create' (store)" *)
Definition initialize_groups (default_groups_count : nat) : M World unit :=
  do st <- get_store;
  modify_config (λ c, set_groups
                        (resolve_groups st default_groups_count (_groups c)) c) ;;
  do c <- get_config;
  if existsb (grp_is_stored st) (_groups c) then ret ()
  else
    match _groups c with
    | [] => raise IndexError
    | g :: _ =>
        put_config (set_groups [g] c) ;;
        modify_store (store_group g)
    end.

Definition load_default_options : M World unit :=
  do c <- get_config;
  forM (seq 0 (length (_options c))) load_option.

Definition store_default_options : M World unit :=
  do c <- get_config;
  forM (_options c) create_option.

Definition initialize (alternative_group_names : list string) : M World unit :=
  do c <- get_config;
  if _is_initialized c then ret ()
  else
    match _groups c with
    | [] => raise IndexError
    | primary_group :: _ =>
        let default_groups_count := length (_groups c) in
        add_alternative_groups primary_group alternative_group_names ;;
        initialize_groups default_groups_count ;;
        load_default_options ;;
        store_default_options ;;
        modify_config (set_initialized true)
    end.

(** ** [get_options] *)

(** The arguments of [get_options]; [kwargs] are the further keyword
    arguments, in the order given. *)
Record Arguments := {
  store_if_not_exist : bool;
  as_Dict : bool;
  silent : bool;
  computer_name : option string;
  gpu : option bool;
  withmpi : bool;
  queue_name : option string;
  account : option string;
  kwargs : dict
}.

(** [get_options()] with every argument at its default. *)
Definition default_arguments : Arguments :=
  {| store_if_not_exist := true; as_Dict := true; silent := false;
     computer_name := None; gpu := None; withmpi := true;
     queue_name := None; account := None; kwargs := [] |}.

(** An item of the returned list: an option node ([as_Dict]) or its
    attributes. *)
Inductive returned :=
  | OptionNode (n : nat)
  | OptionAttributes (d : dict).

(** [re.findall("[a-zA-Z]+", s)] *)
Definition is_letter (c : ascii) : bool :=
  let n := nat_of_ascii c in
  ((65 <=? n) && (n <=? 90)) || ((97 <=? n) && (n <=? 122)).

Fixpoint findall_letters_from (word : string) (s : string) : list string :=
  match s with
  | EmptyString => if decide (word = "") then [] else [String.rev word]
  | String c rest =>
      if is_letter c then findall_letters_from (String c word) rest
      else (if decide (word = "") then [] else [String.rev word])
           ++ findall_letters_from "" rest
  end.
Definition findall_letters (s : string) : list string :=
  findall_letters_from "" s.

(** [(" ".join(re.findall("[a-zA-Z]+", name))).split(" ")] *)
Definition confwords (name : string) : list string :=
  match findall_letters name with
  | [] => [""]
  | ws => ws
  end.

Section GetOptions.

(** [CalcJob.spec_options.keys()] of the AiiDA engine. *)
Variable spec_options_keys : list string.
(** [aiida_jutools.computer.get_computers(computer_name_pattern=p)] *)
Variable get_computers : string → list Computer.
(** [aiida_jutools.computer.get_queues(computer, gpu, ...)]: the queue
    names, or the exception it raises. *)
Variable get_queues : Computer → option bool → exn + list string.

(** The property [computers] *)
Definition computers (c : OptionsConfig) : list Computer :=
  match _computers c with
  | [] => get_computers (name c)
  | cs => cs
  end.

(** [get_help(mode='keywords')]: the option keys and the resources
    keys (as [get_options] uses them, their order does not matter).
    When neither the config's job resource class nor a computer
    gives a resources key, the fallback adds Python sets with [+],
    which raises [TypeError]. *)
Definition get_help_keywords (c : OptionsConfig)
    : result (list string * list string) :=
  let resources_keys := jobresource_keys c in
  let resources_keys :=
    if nonempty resources_keys then resources_keys
    else match list_find (λ x, job_resource_keys x ≠ []) (computers c) with
         | Some (_, x) => job_resource_keys x
         | None => []
         end in
  if nonempty resources_keys then Ok (spec_options_keys, resources_keys)
  else Raise TypeError.

Definition explicit_argument_keywords : list string :=
  ["withmpi"; "queue_name"; "account"].

(** *** Mandatory fields *)

Section Mandatory.
Variable a : Arguments.

(** "first try to get computer from config associated computers":
    [kept] are the computers passed that stay in the config. *)
Fixpoint queues_from_config (cs kept : list Computer)
    : M World (list string * list Computer) :=
  match cs with
  | [] => ret ([], kept)
  | computer :: cs' =>
      match get_queues computer (gpu a) with
      | inr queue_names =>
          if nonempty queue_names
          then ret (queue_names, kept ++ computer :: cs')
          else queues_from_config cs' (kept ++ [computer])
      | inl NotImplementedError =>
          warn (IncompatibleComputer (computer_label computer)) ;;
          queues_from_config cs' kept
      | inl e => raise e
      end
  end.

(** "next, try decomposing config name into words and get computer
    from words" *)
Fixpoint computers_from_words (words : list string) : list Computer :=
  match words with
  | [] => []
  | w :: words' =>
      let computers := get_computers w in
      if nonempty computers then computers else computers_from_words words'
  end.

Fixpoint queues_from_query (computers : list Computer) : M World (list string) :=
  match computers with
  | [] => ret []
  | computer :: rest =>
      match get_queues computer (gpu a) with
      | inr queue_names =>
          if nonempty queue_names then
            modify_config (λ c, set_computers (_computers c ++ [computer]) c) ;;
            ret queue_names
          else queues_from_query rest
      | inl e => raise e
      end
  end.

(** The branch [mandatory_key == "queue_name"] *)
Definition mandatory_queue_name (queue_name : option string)
    : M World (option string) :=
  do c <- get_config;
  do '(queue_names, kept) <- queues_from_config (_computers c) [];
  modify_config (set_computers kept) ;;
  do queue_names <-
    (if nonempty queue_names then ret queue_names
     else
       let computer_name_pattern :=
         if str_truthy (computer_name a)
         then default "" (computer_name a) else name c in
       let computers := get_computers computer_name_pattern in
       let computers :=
         if nonempty computers then computers
         else computers_from_words (confwords (name c)) in
       if nonempty computers then queues_from_query computers
       else raise NotExistent);
  if negb (nonempty queue_names) then raise ValueError
  else if str_truthy queue_name then
    if bool_decide (default "" queue_name ∈ queue_names)
    then ret queue_name else raise ValueError
  else ret (head queue_names).

(** The branch [mandatory_key == "account"] *)
Definition mandatory_account : M World unit :=
  if str_truthy (account a) then ret () else raise NotImplementedError.

(** [for idx_mandatory_key, mandatory_key in enumerate(mandatory)].
    A completed loop leaves the index at the last position, so the
    warning that follows the loop in the source is never printed. *)
Fixpoint mandatory_loop (keys : list string) (queue_name : option string)
    : M World (option string) :=
  match keys with
  | [] => ret queue_name
  | mandatory_key :: keys' =>
      do queue_name <-
        (if String.eqb mandatory_key "queue_name"
         then mandatory_queue_name queue_name else ret queue_name);
      (if String.eqb mandatory_key "account"
       then mandatory_account else ret ()) ;;
      mandatory_loop keys' queue_name
  end.

End Mandatory.

(** *** The query for an existing options node *)

(** The filters for the user-specified other option attributes. *)
Fixpoint kwargs_filters (kw : dict) : M World (list filter_item) :=
  match kw with
  | [] => ret []
  | (attr, val) :: kw' =>
      do fs <-
        match val with
        | VList _ => warn (ListQueryAttribute attr) ;; ret []
        | VDict items =>
            (fix sub (items : list (string * value)) : M World (list filter_item) :=
               match items with
               | [] => ret []
               | (subattr, subvalue) :: items' =>
                   do f <-
                     (if is_dict subvalue || is_list subvalue
                      then warn (NestedQueryAttribute attr subattr) ;; ret []
                      else ret [([attr; subattr], Equals subvalue)]);
                   do fs <- sub items';
                   ret (f ++ fs)
               end) items
        | _ => ret [([attr], Equals val)]
        end;
      do fs' <- kwargs_filters kw';
      ret (fs ++ fs')
  end.

Definition account_pattern (account : string) : string :=
  "%--account=" +:+ account +:+ "%".

Definition query_filters (a : Arguments) (queue_name : option string)
    (valid_kwargs : dict) : M World (list filter_item) :=
  let f_queue :=
    if str_truthy queue_name
    then [(["queue_name"], Equals (VStr (default "" queue_name)))] else [] in
  let f_account :=
    if str_truthy (account a)
    then [(["custom_scheduler_commands"],
           ILike (account_pattern (default "" (account a))))] else [] in
  let f_withmpi :=
    if withmpi a then [(["withmpi"], Equals (VBool true))] else [] in
  do fs <- kwargs_filters valid_kwargs;
  ret (f_queue ++ f_account ++ f_withmpi ++ fs).

(** *** The number of MPI processes of a created options node *)

(** "first try: if queue_name is given, existing options with that
    queue name": the values found, in order. *)
Fixpoint queue_mpiprocs (queue_opts : list dict)
    (node_totmpi node_mpiper : list value)
    : result (list value * list value) :=
  match queue_opts with
  | [] => Ok (node_totmpi, node_mpiper)
  | attrs :: rest =>
      if get_truthy attrs "withmpi" && get_truthy attrs "resources" then
        match get attrs "resources" with
        | Some (VDict resources) =>
            let totmpi := default VNone (get resources "tot_num_mpiprocs") in
            let mpiper := default VNone (get resources "num_mpiprocs_per_machine") in
            queue_mpiprocs rest
              (if truthy totmpi then node_totmpi ++ [totmpi] else node_totmpi)
              (if truthy mpiper then node_mpiper ++ [mpiper] else node_mpiper)
        | _ => Raise AttributeError
        end
      else queue_mpiprocs rest node_totmpi node_mpiper
  end.

(** "go through existing option nodes and take the minimum": a
    missing key ends the round for that node ([except KeyError]). *)
Fixpoint global_mpiprocs (opts : list dict)
    (node_totmpi node_mpiper : list value)
    : result (list value * list value) :=
  match opts with
  | [] => Ok (node_totmpi, node_mpiper)
  | attrs :: rest =>
      match get attrs "withmpi" with
      | None => global_mpiprocs rest node_totmpi node_mpiper
      | Some w =>
          if truthy w then
            match get attrs "resources" with
            | None => global_mpiprocs rest node_totmpi node_mpiper
            | Some (VDict resources) =>
                match get resources "tot_num_mpiprocs" with
                | None => global_mpiprocs rest node_totmpi node_mpiper
                | Some t =>
                    match get resources "num_mpiprocs_per_machine" with
                    | None => global_mpiprocs rest (node_totmpi ++ [t]) node_mpiper
                    | Some m =>
                        global_mpiprocs rest (node_totmpi ++ [t]) (node_mpiper ++ [m])
                    end
                end
            | Some _ => Raise TypeError
            end
          else global_mpiprocs rest node_totmpi node_mpiper
      end
  end.

Definition py_max (l : list value) : result value :=
  match l with
  | [] => Ok VNone
  | x :: l' => max_from x l'
  end.

Definition py_min_or_1 (l : list value) : result value :=
  match l with
  | [] => Ok (VInt 1)
  | x :: l' => min_from x l'
  end.

(** [x and x > 1] as a condition *)
Definition truthy_and_gt1 (x : value) : result bool :=
  if truthy x then gt x (VInt 1) else Ok false.

(** The block that determines [tot_num_mpiprocs] or
    [num_mpiprocs_per_machine] for the default [resources] dict
    [val] (the source's [value]), and writes it into that dict. *)
Definition determine_mpiprocs (queue_name : option string) (val : dict)
    : M World dict :=
  (* first try: existing options of that queue *)
  do '(tot_num_mpiprocs, mpiprocs_per_mac) <-
    (if str_truthy queue_name then
       do opts <- options;
       do st <- get_store;
       let queue_opts :=
         filter (λ attrs, eq (default VNone (get attrs "queue_name"))
                             (VStr (default "" queue_name)) = true)
                (map (node_attributes st) opts) in
       if nonempty queue_opts then
         do '(node_totmpi, node_mpiper) <- lift (queue_mpiprocs queue_opts [] []);
         do t <- lift (py_max node_totmpi);
         do m <- lift (py_max node_mpiper);
         ret (t, m)
       else ret (VNone, VNone)
     else ret (VNone, VNone));
  (* if that failed: minimum over the existing option nodes, else 1 *)
  do '(tot_num_mpiprocs, mpiprocs_per_mac) <-
    (if negb (truthy tot_num_mpiprocs) && negb (truthy mpiprocs_per_mac) then
       do opts <- options;
       do st <- get_store;
       do '(node_totmpi, node_mpiper) <-
         lift (global_mpiprocs (map (node_attributes st) opts) [] []);
       do t <- lift (py_min_or_1 node_totmpi);
       do m <- lift (py_min_or_1 node_mpiper);
       ret (t, m)
     else ret (tot_num_mpiprocs, mpiprocs_per_mac));
  (* if that failed, try via computer: the loop never advances its
     index, so it ends at once or not at all *)
  do mpiprocs_per_mac <-
    (if negb (truthy tot_num_mpiprocs) && negb (truthy mpiprocs_per_mac) then
       do c <- get_config;
       match computers c with
       | [] => ret mpiprocs_per_mac
       | computer :: _ =>
           if truthy (default_mpiprocs_per_machine computer)
           then ret (default_mpiprocs_per_machine computer)
           else diverge
       end
     else ret mpiprocs_per_mac);
  do b <- lift (truthy_and_gt1 tot_num_mpiprocs);
  if b : bool then ret (set val "tot_num_mpiprocs" tot_num_mpiprocs)
  else
    do b <- lift (truthy_and_gt1 mpiprocs_per_mac);
    if b : bool then ret (set val "num_mpiprocs_per_machine" mpiprocs_per_mac)
    else ret (set val "tot_num_mpiprocs" tot_num_mpiprocs).

(** *** Creating an options node *)

Definition lookup_case (cs : cases) (b : bool) : option dict :=
  match list_find (λ x, x.1 = b) cs with
  | Some (_, x) => Some x.2
  | None => None
  end.

(** The nested dicts of the defaults are shared with the options
    dict under construction, so an assignment into one of them also
    changes the config's defaults:
    [conditional["withmpi"][b][attr] = v] and [unconditional[attr] = v]. *)
Definition write_conditional (b : bool) (attr : string) (v : value)
    (d : OptionsDefaultCreationValues) : OptionsDefaultCreationValues :=
  {| conditional :=
       map (λ entry : string * cases,
              if String.eqb entry.1 "withmpi" then
                (entry.1,
                 map (λ x : bool * dict,
                        if Bool.eqb x.1 b then (x.1, set x.2 attr v) else x)
                     entry.2)
              else entry)
           (conditional d);
     unconditional := unconditional d |}.

Definition write_unconditional (attr : string) (v : value)
    (d : OptionsDefaultCreationValues) : OptionsDefaultCreationValues :=
  {| conditional := conditional d;
     unconditional := set (unconditional d) attr v |}.

Definition public (attr : string) : bool := negb (PyStr.startswith "_" attr).

(** Which default dict the value of [opt_dict[attr]] is shared with,
    once the default loops have run: the conditional case assigns
    after the unconditional values. *)
Inductive shared_with := SharedConditional | SharedUnconditional | NotShared.

Definition sharing (d : OptionsDefaultCreationValues) (b : bool)
    (attr : string) : shared_with :=
  if public attr then
    match list_find (λ entry : string * cases, entry.1 = "withmpi")
                    (conditional d) with
    | Some (_, entry) =>
        match lookup_case entry.2 b with
        | Some case =>
            if bool_decide (is_Some (get case attr)) then SharedConditional
            else if bool_decide (is_Some (get (unconditional d) attr))
                 then SharedUnconditional else NotShared
        | None => NotShared
        end
    | None =>
        if bool_decide (is_Some (get (unconditional d) attr))
        then SharedUnconditional else NotShared
    end
  else NotShared.

Definition write_shared (b : bool) (attr : string) (v : value) : M World unit :=
  do c <- get_config;
  let d := _default_option_creation_values c in
  match sharing d b attr with
  | SharedConditional => put_config (set_defaults (write_conditional b attr v d) c)
  | SharedUnconditional => put_config (set_defaults (write_unconditional attr v d) c)
  | NotShared => ret ()
  end.

Definition resources_mpi_keys : list string :=
  ["tot_num_mpiprocs"; "num_mpiprocs_per_machine"].

Section Create.
Variable a : Arguments.
Variable queue_name_ : option string.   (* [queue_name] after the mandatory loop *)

(** "unconditional arguments" *)
Definition add_unconditional (opt_dict : dict) (u : dict) : dict :=
  fold_left (λ d (item : string * value),
               if public item.1 then set d item.1 item.2 else d)
            u opt_dict.

(** [for cond_attr, value in cases[withmpi].items()] *)
Fixpoint case_loop (case : dict) (opt_dict : dict) : M World dict :=
  match case with
  | [] => ret opt_dict
  | (cond_attr, val) :: case' =>
      if public cond_attr then
        do val <-
          (if String.eqb cond_attr "resources" && withmpi a then
             match val with
             | VDict resources =>
                 if existsb (get_truthy resources) resources_mpi_keys
                 then ret val
                 else
                   do resources <- determine_mpiprocs queue_name_ resources;
                   modify_config
                     (λ c, set_defaults
                             (write_conditional (withmpi a) cond_attr
                                (VDict resources)
                                (_default_option_creation_values c)) c) ;;
                   ret (VDict resources)
             | _ => raise AttributeError
             end
           else ret val);
        case_loop case' (set opt_dict cond_attr val)
      else case_loop case' opt_dict
  end.

(** "conditional arguments" *)
Fixpoint conditional_loop (cond : list (string * cases)) (opt_dict : dict)
    : M World dict :=
  match cond with
  | [] => ret opt_dict
  | (attr, cs) :: cond' =>
      do opt_dict <-
        (if public attr && String.eqb attr "withmpi" then
           match lookup_case cs (withmpi a) with
           | Some case => case_loop case opt_dict
           | None => raise KeyError
           end
         else ret opt_dict);
      conditional_loop cond' opt_dict
  end.

(** "now add user-specified other option attributes" *)
Fixpoint add_kwargs (kw : dict) (opt_dict : dict) : M World dict :=
  match kw with
  | [] => ret opt_dict
  | (attr, val) :: kw' =>
      do opt_dict <-
        (if negb (is_dict val) || negb (get_truthy opt_dict attr)
         then ret (set opt_dict attr val)
         else
           match val with
           | VDict [] => ret opt_dict
           | VDict items =>
               match get opt_dict attr with
               | Some (VDict existing) =>
                   let merged :=
                     VDict (fold_left (λ d (item : string * value),
                                         set d item.1 item.2) items existing) in
                   write_shared (withmpi a) attr merged ;;
                   ret (set opt_dict attr merged)
               | _ => raise TypeError
               end
           | _ => ret opt_dict
           end);
      add_kwargs kw' opt_dict
  end.

Definition opt_label (c : OptionsConfig) : string :=
  "options_" +:+ name c
  +:+ (if str_truthy queue_name_ then "_" +:+ default "" queue_name_ else "")
  +:+ (if str_truthy (account a) then "_" +:+ default "" (account a) else "")
  +:+ (if withmpi a then "" else "_serial").

(** The branch [if not res]: the new options node. *)
Definition create_options (valid_kwargs : dict) : M World nat :=
  do c <- get_config;
  let opt_dict : dict := [] in
  let opt_dict := if withmpi a then set opt_dict "withmpi" (VBool true)
                  else opt_dict in
  let opt_dict :=
    if str_truthy queue_name_
    then set opt_dict "queue_name" (VStr (default "" queue_name_))
    else opt_dict in
  let opt_dict :=
    if str_truthy (account a)
    then set opt_dict "custom_scheduler_commands"
           (VStr ("#SBATCH" +:+ " --account=" +:+ default "" (account a)))
    else opt_dict in
  let opt_dict :=
    add_unconditional opt_dict
      (unconditional (_default_option_creation_values c)) in
  do opt_dict <-
    conditional_loop (conditional (_default_option_creation_values c)) opt_dict;
  do opt_dict <- add_kwargs valid_kwargs opt_dict;
  do st <- get_store;
  let '(st, opt_Dict) := new_Dict st "" opt_dict in
  put_store (set_label opt_Dict (opt_label c) st) ;;
  (if store_if_not_exist a then
     modify_store (store_node opt_Dict) ;;
     do gs <- groups;
     forM gs (λ g, modify_store (add_nodes g [opt_Dict]))
   else ret ()) ;;
  ret opt_Dict.

End Create.

(** *** The method *)

Definition clashable_subkeys : list string :=
  ["num_machines"; "num_mpiprocs_per_machine"; "tot_num_mpiprocs"].

(** [subkey in resources] *)
Definition py_in (subkey : string) (resources : value) : result bool :=
  match resources with
  | VDict d => Ok (bool_decide (is_Some (get d subkey)))
  | VStr s => Ok (PyStr.contains subkey s)
  | VList l => Ok (existsb (λ x, eq x (VStr subkey)) l)
  | _ => Raise TypeError
  end.

Fixpoint all_in (subkeys : list string) (resources : value) : result bool :=
  match subkeys with
  | [] => Ok true
  | k :: ks => b ← py_in k resources; if b : bool then all_in ks resources else Ok false
  end.

(** "resources is mandatory": the loop over [res]. *)
Fixpoint check_resources (res : list nat)
    (invalid_stored invalid_unstored : list nat) : M World (list nat * list nat) :=
  match res with
  | [] => ret (invalid_stored, invalid_unstored)
  | opt :: res' =>
      do st <- get_store;
      if negb (get_truthy (node_attributes st opt) "resources") then
        if node_is_stored st opt
        then check_resources res' (invalid_stored ++ [opt]) invalid_unstored
        else check_resources res' invalid_stored (invalid_unstored ++ [opt])
      else
        do b <- lift (all_in clashable_subkeys
                        (default VNone (get (node_attributes st opt) "resources")));
        when b (warn ResourcesClash) ;;
        check_resources res' invalid_stored invalid_unstored
  end.

(** "first, validate the remaining options keywords (kwargs) before
    starting the query": the valid keyword arguments. *)
Definition validate_kwargs (a : Arguments) : M World dict :=
  do c <- get_config;
  do '(all_options_keys, resources_keys) <- lift (get_help_keywords c);
  let all_options_keys :=
    filter (λ k, k ∉ explicit_argument_keywords) all_options_keys in
  let invalid_kwargs := filter (λ kv, kv.1 ∉ all_options_keys) (kwargs a) in
  let valid_kwargs :=
    if nonempty invalid_kwargs
    then filter (λ kv, kv.1 ∈ all_options_keys) (kwargs a)
    else kwargs a in
  when (nonempty invalid_kwargs) (warn (InvalidKeywords invalid_kwargs.*1)) ;;
  match get valid_kwargs "resources" with
  | Some v =>
      if is_dict v then ret valid_kwargs
      else warn ResourcesNotADict ;; ret (pop valid_kwargs "resources")
  | None => ret valid_kwargs
  end.

(** "now either load or create options": the query result, or the one
    node created when the query finds nothing. *)
Definition load_or_create (a : Arguments) (queue_name : option string)
    (valid_kwargs : dict) : M World (list nat) :=
  do c <- get_config;
  do st <- get_store;
  do filters <- query_filters a queue_name valid_kwargs;
  let res := query_Dicts st (group_names st c) filters in
  if nonempty res then ret res
  else do opt_Dict <- create_options a queue_name valid_kwargs;
       ret [opt_Dict].

(** "resources is mandatory": the checked list that is returned. *)
Definition return_valid (a : Arguments) (res : list nat) : M World (list returned) :=
  do '(invalid_stored_opt_nodes, invalid_unstored_opt_Dicts) <-
    check_resources res [] [];
  do st <- get_store;
  let res :=
    filter (λ opt, get_truthy (node_attributes st opt) "resources" = true) res in
  if nonempty invalid_stored_opt_nodes || nonempty invalid_unstored_opt_Dicts
  then
    warn (MissingResources
            (map (node_attributes st) invalid_unstored_opt_Dicts)
            invalid_stored_opt_nodes) ;;
    ret []
  else
    ret (if as_Dict a then map OptionNode res
         else map (λ n, OptionAttributes (node_attributes st n)) res).

Definition get_options (a : Arguments) : M World (list returned) :=
  do initialized <- _check_if_initalized;
  if negb initialized then ret []
  else
    do valid_kwargs <- validate_kwargs a;
    do c <- get_config;
    do queue_name <- mandatory_loop a (mandatory (_query_config c)) (queue_name a);
    do res <- load_or_create a queue_name valid_kwargs;
    return_valid a res.

End GetOptions.

(** ** Notions used to state the properties *)

(** The computers that [get_options] asks for queues when [queue_name]
    is mandatory: the config's own, those found by the name pattern and
    those found by the words of the config's name. *)
Definition candidates (get_computers : string → list Computer)
    (a : Arguments) (c : OptionsConfig) : list Computer :=
  _computers c
  ++ get_computers (if str_truthy (computer_name a)
                    then default "" (computer_name a) else name c)
  ++ flat_map get_computers (confwords (name c)).

(** None of the computers gives a queue name. *)
Definition no_queue_on (get_queues : Computer → option bool → exn + list string)
    (a : Arguments) (cs : list Computer) : Prop :=
  ∀ computer queue_names,
    computer ∈ cs → get_queues computer (gpu a) = inr queue_names →
    queue_names = [].

(** The group objects of the config exist. *)
Definition valid_groups (w : World) : Prop :=
  ∀ g, g ∈ _groups (config w) → is_Some (group (store w) g).

(** The nodes, the default options and the members of every group are
    the same in both worlds. *)
Definition same_nodes (w w' : World) : Prop :=
  all_nodes (store w') = all_nodes (store w) ∧
  _options (config w') = _options (config w) ∧
  ∀ g, grp_nodes (store w') g = grp_nodes (store w) g.

(** Two stores that differ in the labels of nodes at most. *)
Definition same_but_labels (st st' : Store) : Prop :=
  all_groups st' = all_groups st ∧
  ∀ n, node_type_of st' n = node_type_of st n ∧
       node_attributes st' n = node_attributes st n ∧
       node_is_stored st' n = node_is_stored st n ∧
       (is_Some (node st' n) ↔ is_Some (node st n)).

(** What the load loop of [initialize] leaves in place of the default
    option [o]. *)
Definition loaded (st : Store) (gs : list nat) (o : nat) : nat :=
  default o (search_groups st (node_attributes st o) gs).

(** What one round of the store loop of [initialize] does to the store. *)
Definition created_store (gs : list nat) (option : nat) (st : Store) : Store :=
  if node_is_stored st option then st
  else foldl (λ st g, add_nodes g [option] st) (store_node option st) gs.

Definition with_store (w : World) (st : Store) : World :=
  {| config := config w; store := st; printed := printed w |}.

(** ** The configs of [ComputerOptionsManager] and their surroundings *)

Module Sample.

(** The keys of [CalcJob.spec_options]. *)
Definition spec_options_keys : list string :=
  [ "account"; "additional_retrieve_list"; "append_text";
    "custom_scheduler_commands"; "environment_variables";
    "import_sys_environment"; "input_filename"; "max_memory_kb";
    "max_wallclock_seconds"; "mpirun_extra_params"; "output_filename";
    "parser_name"; "prepend_text"; "priority"; "qos"; "queue_name";
    "resources"; "scheduler_stderr"; "scheduler_stdout";
    "submit_script_filename"; "withmpi" ].

(** The valid keys of a node-number job resource (Slurm, direct). *)
Definition node_number_keys : list string :=
  [ "num_machines"; "num_mpiprocs_per_machine"; "num_cores_per_machine";
    "num_cores_per_mpiproc"; "tot_num_mpiprocs" ].

(** The default of [_OptionsDefaultCreationValues]. *)
Definition default_creation_values : OptionsDefaultCreationValues :=
  {| conditional :=
       [ ("withmpi",
          [ (false, [ ("resources", VDict [ ("num_machines", VInt 1);
                                            ("tot_num_mpiprocs", VInt 1) ]) ]);
            (true,  [ ("resources", VDict [ ("num_machines", VInt 1) ]);
                      ("_COMMENT", VStr "tot_num_mpiprocs/num_mpiprocs_per_machine = user-specified.") ]) ]) ];
     unconditional := [ ("max_wallclock_seconds", VInt 86400) ] |}.

Definition unstored_Dict (l : string) (d : dict) : Node :=
  {| type := TDict; label := l; attributes := d; is_stored := false |}.

(** The default of [_group_extras]. *)
Definition group_extras : list (string * list string) :=
  [ ("comments",
     [ "These options are also available as iffaiida import, see extras/references." ]);
    ("references",
     [ "https://iffgit.fz-juelich.de/aiida/aiida_nodes";
       "https://github.com/JuDFTteam/aiida-jutools" ]) ].

(** A group of a new config: unstored, with the extras that
    [__post_init__] sets. *)
Definition unstored_Group (l d : string) : Group :=
  {| group_label := l; description := d; extras := group_extras;
     group_is_stored := false; nodes := [] |}.

(** The config [claix18] as [ComputerOptionsManager] makes it: one group
    and one option record, both unstored objects (ids 0 and 0). *)
Definition claix18 : OptionsConfig :=
  {| name := "claix18";
     _groups := [0];
     _group_extras := group_extras;
     _options := [0];
     _query_config := {| ignored := ["queue_name"; "gpu"]; mandatory := [];
                         optional := ["account"; "withmpi"] |};
     jobresource_keys := node_number_keys;
     _default_option_creation_values := default_creation_values;
     _computers := [];
     _is_initialized := false |}.

Definition claix18_store : Store :=
  {| all_nodes :=
       [ unstored_Dict "options_claix18"
           [ ("max_wallclock_seconds", VInt 86400);
             ("withmpi", VBool true);
             ("resources", VDict [ ("num_machines", VInt 1);
                                   ("tot_num_mpiprocs", VInt 48) ]);
             ("custom_scheduler_commands", VStr "") ] ];
     all_groups :=
       [ unstored_Group "computer_options/claix18"
           "Default computer options (Dict nodes) for the RWTH claix 2018 computer." ] |}.

Definition claix18_world : World :=
  {| config := claix18; store := claix18_store; printed := [] |}.

(** The same config on a database that holds its group already (group
    object 1), with one stored, unlabelled option node (node 1) whose
    attributes are those of the default record, in another order. *)
Definition claix18_known_store : Store :=
  {| all_nodes :=
       all_nodes claix18_store ++
       [ {| type := TDict; label := "";
            attributes :=
              [ ("withmpi", VBool true);
                ("custom_scheduler_commands", VStr "");
                ("resources", VDict [ ("tot_num_mpiprocs", VInt 48);
                                      ("num_machines", VInt 1) ]);
                ("max_wallclock_seconds", VInt 86400) ];
            is_stored := true |} ];
     all_groups :=
       all_groups claix18_store ++
       [ {| group_label := "computer_options/claix18"; description := "";
            extras := []; group_is_stored := true; nodes := [1] |} ] |}.

Definition claix18_known_world : World :=
  {| config := claix18; store := claix18_known_store; printed := [] |}.

(** The config [localhost]: two serial option records. *)
Definition localhost : OptionsConfig :=
  {| name := "localhost";
     _groups := [0];
     _group_extras := group_extras;
     _options := [0; 1];
     _query_config := {| ignored := ["queue_name"; "account"; "gpu"];
                         mandatory := []; optional := ["withmpi"] |};
     jobresource_keys := [];
     _default_option_creation_values := default_creation_values;
     _computers := [];
     _is_initialized := false |}.

Definition localhost_store : Store :=
  {| all_nodes :=
       [ unstored_Dict "options_localhost_serial"
           [ ("max_wallclock_seconds", VInt 3600);
             ("withmpi", VBool false);
             ("resources", VDict [ ("num_machines", VInt 1);
                                   ("tot_num_mpiprocs", VInt 1) ]) ];
         unstored_Dict "options_localhost"
           [ ("max_wallclock_seconds", VInt 3600);
             ("withmpi", VBool false);
             ("resources", VDict [ ("num_machines", VInt 1);
                                   ("tot_num_mpiprocs", VInt 4) ]) ] ];
     all_groups :=
       [ unstored_Group "computer_options/localhost"
           "Default computer options (Dict nodes) for a generic local computer." ] |}.

Definition localhost_world : World :=
  {| config := localhost; store := localhost_store; printed := [] |}.

(** A local computer whose default number of MPI processes per machine
    is 8. *)
Definition localhost_computer : Computer :=
  {| computer_label := "localhost";
     default_mpiprocs_per_machine := VInt 8;
     job_resource_keys := node_number_keys |}.

(** A database with that one computer, and one without computers. *)
Definition get_computers_localhost (pattern : string) : list Computer :=
  if PyStr.contains pattern "localhost" then [localhost_computer] else [].

Definition no_computers (pattern : string) : list Computer := [].

Definition no_queues (computer : Computer) (gpu : option bool)
    : exn + list string := inr [].

(** The config [claix18] with the account made a mandatory field, as
    for a cluster with account-based queue assignment. *)
Definition account_config : OptionsConfig :=
  {| name := "claix18";
     _groups := [0];
     _group_extras := group_extras;
     _options := [0];
     _query_config := {| ignored := ["queue_name"; "gpu"]; mandatory := ["account"];
                         optional := ["withmpi"] |};
     jobresource_keys := node_number_keys;
     _default_option_creation_values := default_creation_values;
     _computers := [];
     _is_initialized := false |}.

Definition account_world : World :=
  {| config := account_config; store := claix18_store; printed := [] |}.

(** The config [iffslurm], for which [queue_name] is mandatory: two
    groups and eight option records, unstored objects all. *)
Definition iffslurm_option (queue : string) (mpi : bool) (procs : Z) : dict :=
  [ ("queue_name", VStr queue);
    ("max_wallclock_seconds", VInt 86400);
    ("withmpi", VBool mpi);
    ("resources", VDict [ ("num_machines", VInt 1);
                          ("tot_num_mpiprocs", VInt procs) ]) ].

Definition iffslurm : OptionsConfig :=
  {| name := "iffslurm";
     _groups := [0; 1];
     _group_extras := group_extras;
     _options := [0; 1; 2; 3; 4; 5; 6; 7];
     _query_config := {| ignored := ["account"]; mandatory := ["queue_name"];
                         optional := ["gpu"; "withmpi"] |};
     jobresource_keys := node_number_keys;
     _default_option_creation_values := default_creation_values;
     _computers := [];
     _is_initialized := false |}.

Definition iffslurm_store : Store :=
  {| all_nodes :=
       [ unstored_Dict "options_iffslurm_oscar"
           (iffslurm_option "oscar" true 12);
         unstored_Dict "options_iffslurm_oscar_serial"
           (iffslurm_option "oscar" false 1);
         unstored_Dict "options_iffslurm_th1"
           (iffslurm_option "th1" true 12);
         unstored_Dict "options_iffslurm_th1_serial"
           (iffslurm_option "th1" false 1);
         unstored_Dict "options_iffslurm_th1-2020-32"
           (iffslurm_option "th1-2020-32" true 32);
         unstored_Dict "options_iffslurm_th1-2020-32_serial"
           (iffslurm_option "th1-2020-32" false 1);
         unstored_Dict "options_iffslurm_th1-2020-64"
           (iffslurm_option "th1-2020-64" true 64);
         unstored_Dict "options_iffslurm_viti"
           (iffslurm_option "viti" true 20) ];
     all_groups :=
       [ unstored_Group "computer_options/iffslurm"
           "Default computer options (Dict nodes) for the FZJ PGI iffslurm computer.";
         unstored_Group "iffslurm_options"
           "Default computer options (Dict nodes) for the FZJ PGI iffslurm computer." ] |}.

Definition iffslurm_world : World :=
  {| config := iffslurm; store := iffslurm_store; printed := [] |}.

(** [get_options(account="jara0191",
                 custom_scheduler_commands="#SBATCH --mem=4G")] *)
Definition account_and_commands : Arguments :=
  {| store_if_not_exist := true; as_Dict := true; silent := false;
     computer_name := None; gpu := None; withmpi := true;
     queue_name := None; account := Some "jara0191";
     kwargs := [ ("custom_scheduler_commands", VStr "#SBATCH --mem=4G") ] |}.

End Sample.

End Options.

(** * [util_data.py]: the CIF importer *)

Module Cif.
Import Py Orm.

(** [CifImporter.DEFAULT_CONVERSION_SETTINGS] *)
Definition DEFAULT_CONVERSION_SETTINGS : dict :=
  [ ("converter", VStr "pymatgen");
    ("store", VBool true);
    ("primitive_cell", VBool true) ].

(** The importer's attributes, groups and nodes by object id. *)
Record CifImporter := {
  cif_group : option nat;
  struc_group : option nat;
  conversion_settings : option nat
}.

Record World := {
  importer : CifImporter;
  store : Store
}.

Definition nonempty_opt (l : option (list nat)) : bool :=
  match l with
  | Some (_ :: _) => true
  | _ => false
  end.

(** [_clear()] *)
Definition _clear : CifImporter :=
  {| cif_group := None; struc_group := None; conversion_settings := None |}.

Record Arguments := {
  cifgroup_label : string;
  structure_group_label : string;
  as_subgroup : bool;
  structure_group_description : option string;
  load_over_create : bool;
  conversion_settings_arg : option nat;   (* the argument [conversion_settings] *)
  dry_run : bool;
  silent : bool
}.

Definition get_importer : M World CifImporter := λ w, (Ok (importer w), w).
Definition get_store : M World Store := λ w, (Ok (store w), w).
Definition put_importer (i : CifImporter) : M World unit :=
  λ w, (Ok (), {| importer := i; store := store w |}).
Definition put_store (s : Store) : M World unit :=
  λ w, (Ok (), {| importer := importer w; store := s |}).
Definition modify_store (f : Store → Store) : M World unit :=
  λ w, (Ok (), {| importer := importer w; store := f (store w) |}).

(** [GroupPath(path).get_or_create_group()]: the stored group of that
    label, or a new group stored under it, and whether it is new. *)
Definition get_or_create_group (path : string) : M World (nat * bool) :=
  do st <- get_store;
  match Group_get st path with
  | Ok g => ret (g, false)
  | _ =>
      let '(st, g) := new_Group st path "" in
      put_store (store_group g st) ;;
      ret (g, true)
  end.

Section LoadOrConvert.

(** [cif.get_structure] for a [CifData] node, called with the
    attributes of the settings node as its keyword arguments: the
    structure node it makes in the store, or the exception it raises. *)
Variable get_structure : Store → nat → dict → exn + (Store * nat).

Variable a : Arguments.

(** [_get_cif_nodes()] *)
Definition _get_cif_nodes : M World (list nat) :=
  do st <- get_store;
  do g <- lift (Group_get st (cifgroup_label a));
  do i <- get_importer;
  put_importer {| cif_group := Some g; struc_group := struc_group i;
                  conversion_settings := conversion_settings i |} ;;
  ret (filter (λ n, node_type_of st n = TCifData) (grp_nodes st g)).

(** [_determine_structure_group_path(structure_group_label)] *)
Definition _determine_structure_group_path : string :=
  if as_subgroup a then
    let l := structure_group_label a in
    let l := if PyStr.endswith "/" l
             then String.substring 0 (String.length l - 1) l else l in
    cifgroup_label a +:+ "/" +:+ l
  else structure_group_label a.

(** [_load_or_create_structure_group(struc_grouppath)] *)
Definition _load_or_create_structure_group (path : string) : M World unit :=
  do st <- get_store;
  let struc_group_ :=
    match Group_get st path with
    | Ok g => Some g
    | _ => None
    end in
  do struc_group_ <-
    (if dry_run a then ret struc_group_
     else
       do '(g, created) <- get_or_create_group path;
       do st <- get_store;
       (if created && negb (grp_is_stored st g) then
          match structure_group_description a with
          | Some d => when (negb (String.eqb d "")) (modify_store (set_description g d))
          | None => ret ()
          end ;;
          modify_store (store_group g)
        else ret ()) ;;
       ret (Some g));
  do i <- get_importer;
  put_importer {| cif_group := cif_group i; struc_group := struc_group_;
                  conversion_settings := conversion_settings i |}.

(** [[node for node in struc_group.nodes if type(node) == orm.Dict]] *)
Definition hits (st : Store) (g : nat) : list nat :=
  filter (λ n, node_type_of st n = TDict) (grp_nodes st g).

(** [_try_load_conversion_settings(struc_group)] *)
Definition _try_load_conversion_settings (st : Store) (g : option nat)
    : result (option nat) :=
  match g with
  | None => Ok None
  | Some g =>
      match hits st g with
      | _ :: _ :: _ => Raise ValueError
      | hs => Ok (head hs)
      end
  end.

(** [_load_or_create_conversion_settings()] *)
Definition _load_or_create_conversion_settings : M World unit :=
  do st <- get_store;
  do i <- get_importer;
  do convset_node <- lift (_try_load_conversion_settings st (struc_group i));
  do convset_node <-
    match struc_group i, convset_node with
    | Some _, Some n => ret n
    | _, _ =>
        match conversion_settings_arg a with
        | Some n => ret n
        | None =>
            let '(st, n) := new_Dict st "" DEFAULT_CONVERSION_SETTINGS in
            put_store st ;; ret n
        end
    end;
  put_importer {| cif_group := cif_group i; struc_group := struc_group i;
                  conversion_settings := Some convset_node |}.

(** [node[key] = v] on a [Dict] node *)
Definition set_attribute (n : nat) (k : string) (v : value) (st : Store) : Store :=
  alter_node (λ x, {| type := type x; label := label x;
                      attributes := set (attributes x) k v;
                      is_stored := is_stored x |}) n st.

(** [_check_conversion_settings()] *)
Definition _check_conversion_settings : M World unit :=
  do st <- get_store;
  do i <- get_importer;
  match conversion_settings i with
  | None => raise AttributeError
  | Some n =>
      match get (node_attributes st n) "store" with
      | None | Some VNone => ret ()
      | Some setting_is =>
          if eq setting_is (VBool true) then ret ()
          else if node_is_stored st n then ret ()
          else when (negb (dry_run a))
                 (modify_store (set_attribute n "store" (VBool true)))
      end
  end.

Fixpoint convert_all (cif_nodes : list nat) (settings : dict) : M World (list nat) :=
  match cif_nodes with
  | [] => ret []
  | cif :: rest =>
      do st <- get_store;
      match get_structure st cif settings with
      | inl e => raise e
      | inr (st, structure) =>
          put_store st ;;
          do structures <- convert_all rest settings;
          ret (structure :: structures)
      end
  end.

(** [_load_or_convert(cif_nodes, struc_grouppath)]; [None] is the
    Python [None]. *)
Definition _load_or_convert (cif_nodes : list nat)
    : M World (option (list nat)) :=
  do st <- get_store;
  do i <- get_importer;
  let structure_nodes :=
    match struc_group i with
    | Some g => Some (filter (λ n, node_type_of st n = TStructureData)
                             (grp_nodes st g))
    | None => None
    end in
  if load_over_create a && nonempty_opt structure_nodes then ret structure_nodes
  else if dry_run a then ret structure_nodes
  else
    match conversion_settings i, struc_group i with
    | Some settings, Some g =>
        when (negb (node_is_stored st settings))
          (modify_store (store_node settings) ;;
           modify_store (add_nodes g [settings])) ;;
        do st <- get_store;
        do structures <- convert_all cif_nodes (node_attributes st settings);
        modify_store (add_nodes g structures) ;;
        ret (Some structures)
    | _, _ => raise AttributeError
    end.

(** The first steps of [load_or_convert], up to the choice of the
    conversion settings: the [CifData] nodes. *)
Definition select_conversion_settings : M World (list nat) :=
  put_importer _clear ;;
  do cif_nodes <- _get_cif_nodes;
  if nonempty cif_nodes then
    let struc_grouppath := _determine_structure_group_path in
    _load_or_create_structure_group struc_grouppath ;;
    _load_or_create_conversion_settings ;;
    ret cif_nodes
  else ret cif_nodes.

(** [load_or_convert(...)]: the returned [self.struc_group]. *)
Definition load_or_convert : M World (option nat) :=
  do cif_nodes <- select_conversion_settings;
  (if nonempty cif_nodes then
     _check_conversion_settings ;;
     do struc_nodes <- _load_or_convert cif_nodes;
     ret ()
   else ret ()) ;;
  do i <- get_importer;
  ret (struc_group i).

End LoadOrConvert.

(** ** Notions used to state the properties *)

(** The [Dict] nodes of the structure group as it exists before the
    call; none when it does not exist. *)
Definition existing_hits (st : Store) (a : Arguments) : list nat :=
  match Group_get st (_determine_structure_group_path a) with
  | Ok g => hits st g
  | _ => []
  end.

(** The [CifData] nodes of the CIF group. *)
Definition cif_nodes_of (st : Store) (a : Arguments) : list nat :=
  match Group_get st (cifgroup_label a) with
  | Ok g => filter (λ n, node_type_of st n = TCifData) (grp_nodes st g)
  | _ => []
  end.

(** ** Two small databases *)

Module Sample.

Definition stored (t : node_type) (l : string) (d : dict) : Node :=
  {| type := t; label := l; attributes := d; is_stored := true |}.

Definition stored_Group (l : string) (ns : list nat) : Group :=
  {| group_label := l; description := ""; extras := [];
     group_is_stored := true; nodes := ns |}.

(** A CIF group with one CIF file, and its structure group with one
    conversion settings node. *)
Definition one_setting : Store :=
  {| all_nodes :=
       [ stored TCifData "Si" [];
         stored TDict "" [ ("converter", VStr "ase"); ("store", VBool true) ] ];
     all_groups :=
       [ stored_Group "cifs" [0];
         stored_Group "cifs/structures" [1] ] |}.

(** A CIF group without CIF files, and its structure group with two
    conversion settings nodes. *)
Definition two_settings : Store :=
  {| all_nodes :=
       [ stored TDict "" [ ("converter", VStr "ase"); ("store", VBool true) ];
         stored TDict "" DEFAULT_CONVERSION_SETTINGS ];
     all_groups :=
       [ stored_Group "cifs" [];
         stored_Group "cifs/structures" [0; 1] ] |}.

(** [load_or_convert("cifs", "structures")] *)
Definition arguments : Arguments :=
  {| cifgroup_label := "cifs";
     structure_group_label := "structures";
     as_subgroup := true;
     structure_group_description := None;
     load_over_create := true;
     conversion_settings_arg := None;
     dry_run := true;
     silent := false |}.

(** A conversion that stores one new structure node per CIF node. *)
Definition convert (st : Store) (cif : nat) (settings : dict)
    : exn + (Store * nat) :=
  inr ({| all_nodes := all_nodes st ++ [ stored TStructureData "" [] ];
          all_groups := all_groups st |},
       length (all_nodes st)).

Definition world (st : Store) : World :=
  {| importer := _clear; store := st |}.

End Sample.

End Cif.

(** * [util_kkr.py]: the checker's other methods and the other tools *)

Module KkrTools.
Import Kkr.

(** ** [check_if_kkr_calc_converged] *)

(** [v[k]] for a string key [k]: only a dict takes one. *)
Definition subscript (v : Py.value) (k : string) : result Py.value :=
  match v with
  | Py.VDict d => Py.getitem d k
  | _ => Raise TypeError
  end.

(** What is read of the calculation node: the dict of its output node
    [output_parameters]; [None] when it has no such output. *)
Record CalcJobNode := {
  output_parameters : option Py.dict
}.

(** How the function can end other than by returning: an exception of
    the code below it, or its own [assert] (Python run without [-O]). *)
Inductive failure :=
  | Exception (e : exn)
  | AssertionError.

(** [check_if_kkr_calc_converged(kkr_calc)]: the assertion on
    [get_dict()["convergence_group"]["calculation_converged"] == True];
    a [KeyError] is raised again after the message. *)
Definition check_if_kkr_calc_converged (kkr_calc : CalcJobNode) : failure + unit :=
  match output_parameters kkr_calc with
  | None => inl (Exception AttributeError)
  | Some d =>
      match Py.get d "convergence_group" with
      | None => inl (Exception KeyError)
      | Some (Py.VDict group) =>
          match Py.get group "calculation_converged" with
          | None => inl (Exception KeyError)
          | Some converged =>
              if Py.eq converged (Py.VBool true) then inr ()
              else inl AssertionError
          end
      | Some _ => inl (Exception TypeError)
      end
  end.

(** ** [KkrConstantsVersionChecker]: construction, runtime type, [clear] *)

(** The checker object: [self._runtime_const_type] and [self._df]. *)
Record Checker := {
  _runtime_const_type : list (string * option KkrConstantsVersion);
  _df : DataFrame
}.

(** Step 2 of [__init__]: the version whose literal the runtime value of
    [masci_tools.util.constants.ANG_BOHR_KKR] equals. *)
Definition runtime_type_of (runtime_ANG_BOHR_KKR : float)
    : result KkrConstantsVersion :=
  new ← getitem ANG_BOHR_KKR NEW;
  if PrimFloat.eqb runtime_ANG_BOHR_KKR new then Ok NEW
  else
    interim ← getitem ANG_BOHR_KKR INTERIM;
    if PrimFloat.eqb runtime_ANG_BOHR_KKR interim then Ok INTERIM
    else
      old ← getitem ANG_BOHR_KKR OLD;
      if PrimFloat.eqb runtime_ANG_BOHR_KKR old then Ok OLD
      else Ok NEITHER.

(** [env_var_val not in [None, 'True', 'Interim']] *)
Definition other_value (env_var_val : option string) : bool :=
  match env_var_val with
  | None => false
  | Some s => negb (String.eqb s "True") && negb (String.eqb s "Interim")
  end.

(** The dict [cases] of [__init__] and the [if] that follows it. *)
Definition cross_check (const_type : KkrConstantsVersion)
    (env_var_val : option string) : result unit :=
  let case_A := negb (bool_decide (const_type = NEW))
                && bool_decide (env_var_val = None) in
  let case_B := negb (bool_decide (const_type = INTERIM))
                && bool_decide (env_var_val = Some "Interim") in
  let case_C := negb (bool_decide (const_type = OLD))
                && bool_decide (env_var_val = Some "True") in
  let case_D := negb (bool_decide (const_type = NEW))
                && other_value env_var_val in
  if case_A || case_D then Raise ValueError
  else if case_B then Raise ValueError
  else if case_C then Raise ValueError
  else Ok ().

(** [KkrConstantsVersionChecker()], given the runtime value of the
    constant and the value of the environment variable
    [MASCI_TOOLS_USE_OLD_CONSTANTS] ([None]: not set). *)
Definition __init__ (runtime_ANG_BOHR_KKR : float)
    (env_var_val : option string) : result Checker :=
  const_type ← runtime_type_of runtime_ANG_BOHR_KKR;
  _ ← cross_check const_type env_var_val;
  Ok {| _runtime_const_type := [ ("ANG_BOHR_KKR", Some const_type);
                                 ("RY_TO_EV_KKR", None) ];
        _df := [] |}.

(** [get_runtime_type(constant_name)]. For a name that is no key, the
    message of the warning is built from
    [self._runtime_const_type[constant_name]], which raises. *)
Definition get_runtime_type (c : Checker) (constant_name : string)
    : result (option KkrConstantsVersion) :=
  match list_find (λ kv, kv.1 = constant_name) (_runtime_const_type c) with
  | Some (_, kv) => Ok kv.2
  | None => Raise KeyError
  end.

(** [clear()]: [self._df.drop(labels=self._df.index)], the rows whose
    label is none of the labels. *)
Definition clear (c : Checker) : Checker :=
  {| _runtime_const_type := _runtime_const_type c;
     _df := filter (λ row, row.1 ∉ df_index (_df c)) (_df c) |}.

(** ** The provenance check *)

(** A [kkr_scf_wc] node, a [RemoteData] node with the [kkr_scf_wc] nodes
    it comes from, and the workchain to check with its incoming
    [RemoteData] nodes of link label [remote_data_host]. *)
Record ScfNode := {
  scf_extras : Py.dict
}.

Record RemoteData := {
  scf_parents : list ScfNode
}.

Record ProvenanceNode := {
  wc_process_label : string;
  wc_extras : Py.dict;
  remote_data_host : list RemoteData
}.

(** What the check prints. *)
Inductive message :=
  | NotSupported
  | MissingExtra
  | NoScfAncestor
  | Mismatch (scf_version imp_version : Py.value)
  | UnsupportedLabels.

Definition print (m : message) : M (list message) unit :=
  λ out, (Ok (), out ++ [m]).

(** [node.extras['kkr_constants_version']['constants_version']] *)
Definition version_extra (extras : Py.dict) : result Py.value :=
  extra ← Py.getitem extras "kkr_constants_version";
  subscript extra "constants_version".

(** [check_single_workchain_provenance(wc)]; both [try] blocks catch
    [KeyError] only. *)
Definition check_single_workchain_provenance (wc : ProvenanceNode)
    : M (list message) unit :=
  if negb (String.eqb (wc_process_label wc) "kkr_imp_wc") then print NotSupported
  else
    match version_extra (wc_extras wc) with
    | Raise KeyError => print MissingExtra
    | Raise e => raise e
    | Diverges => diverge
    | Ok imp_version =>
        match remote_data_host wc with
        | [] => raise IndexError
        | remote :: _ =>
            match scf_parents remote with
            | [] => print NoScfAncestor
            | scf :: _ =>
                match version_extra (scf_extras scf) with
                | Raise KeyError => print MissingExtra
                | Raise e => raise e
                | Diverges => diverge
                | Ok scf_version =>
                    when (negb (Py.eq imp_version scf_version))
                      (print (Mismatch scf_version imp_version))
                end
            end
        end
    end.

(** [check_workchain_group_provenance(group, process_labels)] on the
    group's workchain nodes. *)
Definition check_workchain_group_provenance (group_nodes : list ProvenanceNode)
    (process_labels : list string) : M (list message) unit :=
  if negb (nonempty process_labels)
     || negb (bool_decide (process_labels = ["kkr_imp_wc"]))
  then print UnsupportedLabels
  else
    forM (filter (λ node, wc_process_label node ∈ process_labels) group_nodes)
         check_single_workchain_provenance.

(** ** Workchains and calculations to run the functions on *)

Module Sample.

(** An inputcard without the block [BRAVAIS]. *)
Definition card_without_bravais : list string :=
  [ "ALATBASIS= 1.8897261246257702   lattice constant in a.u.";
    "NAEZ= 2";
    "<RBASIS>";
    " 0.0 0.0 0.0";
    " 0.0 0.0 0.5";
    "CARTESIAN= True" ].

Definition wc_with (id label : string) (structure : option StructureData)
    (card : option (list string)) : WorkChainNode :=
  {| uuid := id;
     ctime := 0;
     process_label := label;
     inputs_structure := structure;
     host_structures := [];
     startpots := match card with
                  | Some lines =>
                      [ {| vorocalcs := [ {| inputcard := Some lines |} ] |} ]
                  | None => []
                  end |}.

Definition wc_without_bravais : WorkChainNode :=
  wc_with "wc-no-bravais" "kkr_scf_wc" (Some Kkr.Sample.cubic)
    (Some card_without_bravais).

(** A workchain without [kkr_startpot_wc] descendants. *)
Definition wc_without_startpot : WorkChainNode :=
  wc_with "wc-no-startpot" "kkr_scf_wc" (Some Kkr.Sample.cubic) None.

(** A workchain of another class. *)
Definition wc_eos : WorkChainNode :=
  wc_with "wc-eos" "kkr_eos_wc" (Some Kkr.Sample.cubic) None.

(** A cell and sites of zeros only, with an inputcard to match: no
    sample is left to average. *)
Definition zeros : StructureData :=
  {| cell := [ [0; 0; 0]; [0; 0; 0]; [0; 0; 0] ]%float;
     sites := [ [0; 0; 0] ]%float |}.

Definition card_zeros : list string :=
  [ "ALATBASIS= 1.8897261246257702   lattice constant in a.u.";
    "BRAVAIS";
    " 0.0 0.0 0.0";
    " 0.0 0.0 0.0";
    " 0.0 0.0 0.0";
    "NAEZ= 1";
    "<RBASIS>";
    " 0.0 0.0 0.0";
    "CARTESIAN= True" ].

Definition wc_zeros : WorkChainNode :=
  wc_with "wc-zeros" "kkr_scf_wc" (Some zeros) (Some card_zeros).

Definition converged (flag : Py.value) : CalcJobNode :=
  {| output_parameters :=
       Some [ ("convergence_group",
               Py.VDict [ ("calculation_converged", flag);
                          ("nsteps", Py.VInt 12) ]) ] |}.

Definition version_extras (version : string) : Py.dict :=
  [ ("kkr_constants_version",
     Py.VDict [ ("constants_version", Py.VStr version) ]) ].

(** A [kkr_imp_wc] classified as OLD whose host calculation was
    classified as NEW. *)
Definition imp_old_on_new : ProvenanceNode :=
  {| wc_process_label := "kkr_imp_wc";
     wc_extras := version_extras "OLD";
     remote_data_host :=
       [ {| scf_parents := [ {| scf_extras := version_extras "NEW" |} ] |} ] |}.

End Sample.

End KkrTools.

(** * [computer/options.py]: notions used to state what [get_options] does *)

Module OptionsMore.
Import Py Orm Options.

(** The arguments [a] with [as_Dict=b]. *)
Definition with_as_Dict (b : bool) (a : Arguments) : Arguments :=
  {| store_if_not_exist := store_if_not_exist a; as_Dict := b;
     silent := silent a; computer_name := computer_name a; gpu := gpu a;
     withmpi := withmpi a; queue_name := queue_name a; account := account a;
     kwargs := kwargs a |}.

(** An option node as [as_Dict=False] presents it. *)
Definition as_attributes (st : Store) (x : returned) : returned :=
  match x with
  | OptionNode n => OptionAttributes (node_attributes st n)
  | OptionAttributes d => OptionAttributes d
  end.

(** Two ends of a call: [dicts] ends as [nodes] does and in the same
    world; where [nodes] returns a list, [dicts] returns its items as
    attributes. *)
Definition presented_as_attributes
    (nodes dicts : result (list returned) * World) : Prop :=
  dicts.2 = nodes.2 ∧
  dicts.1 = match nodes.1 with
            | Ok l => Ok (map (as_attributes (store nodes.2)) l)
            | Raise e => Raise e
            | Diverges => Diverges
            end.

(** A method body that leaves the object store as it is, however it
    ends. *)
Definition keeps_store {A} (m : M World A) : Prop :=
  ∀ w, store (m w).2 = store w.

(** The store [st'] is [st] with one more node object, a [Dict], which
    may have joined groups: nothing else differs. *)
Definition adds_node (st st' : Store) : Prop :=
  ∃ x, type x = TDict ∧
       all_nodes st' = all_nodes st ++ [x] ∧
       length (all_groups st') = length (all_groups st) ∧
       ∀ g, grp_label st' g = grp_label st g ∧
            grp_description st' g = grp_description st g ∧
            grp_is_stored st' g = grp_is_stored st g ∧
            (grp_nodes st' g = grp_nodes st g ∨
             (is_stored x = true ∧
              grp_nodes st' g = grp_nodes st g ++ [length (all_nodes st)])).

Module Sample.

(** [get_options(store_if_not_exist=False, account="jara0191")] *)
Definition without_storing : Arguments :=
  {| store_if_not_exist := false; as_Dict := true; silent := false;
     computer_name := None; gpu := None; withmpi := true;
     queue_name := None; account := Some "jara0191"; kwargs := [] |}.

End Sample.

End OptionsMore.

(** * [util_data.py]: notions used to state what [load_or_convert] leaves as it is *)

Module CifMore.
Import Py Orm Cif.

(** The new, unstored node of the default conversion settings. *)
Definition default_settings_node : Node :=
  {| type := TDict; label := ""; attributes := DEFAULT_CONVERSION_SETTINGS;
     is_stored := false |}.

(** From [st] to [st'] nothing is stored and nothing changes: the groups
    and the node objects are the same, but for one new, unstored node of
    the default conversion settings that the call may have made. *)
Definition stores_nothing (st st' : Store) : Prop :=
  all_groups st' = all_groups st ∧
  (all_nodes st' = all_nodes st ∨
   all_nodes st' = all_nodes st ++ [default_settings_node]).

(** The [StructureData] nodes of a group. *)
Definition structure_nodes_of (st : Store) (g : nat) : list nat :=
  filter (λ n, node_type_of st n = TStructureData) (grp_nodes st g).

Module Sample.

(** A CIF group with one CIF file, and its structure group with the
    conversion settings and the structure converted from the file. *)
Definition converted : Store :=
  {| all_nodes :=
       [ Cif.Sample.stored TCifData "Si" [];
         Cif.Sample.stored TDict "" [ ("converter", VStr "ase"); ("store", VBool true) ];
         Cif.Sample.stored TStructureData "Si" [] ];
     all_groups :=
       [ Cif.Sample.stored_Group "cifs" [0];
         Cif.Sample.stored_Group "cifs/structures" [1; 2] ] |}.

(** [load_or_convert("cifs", "structures", dry_run=False)] *)
Definition arguments_run : Arguments :=
  {| cifgroup_label := "cifs";
     structure_group_label := "structures";
     as_subgroup := true;
     structure_group_description := None;
     load_over_create := true;
     conversion_settings_arg := None;
     dry_run := false;
     silent := false |}.

End Sample.

End CifMore.

(** * [computer/options.py]: the manager's selection of configs *)

Module Manager.
Import Options.

(** [class ComputerOptionsManager]: the list [self._configs]. *)
Record ComputerOptionsManager := {
  _configs : list OptionsConfig
}.

(** The property [configs] *)
Definition configs (m : ComputerOptionsManager) : list OptionsConfig :=
  _configs m.

(** The property [config_names] *)
Definition config_names (m : ComputerOptionsManager) : list string :=
  map name (configs m).

(** [list(set(a) - set(b))]: a list made from a set has no specified
    order, [elements] gives one. *)
Definition list_of_difference (a b : list string) : list string :=
  elements ((list_to_set a : gset string) ∖ list_to_set b).

(** [print(f"Ignoring invalid config names: {invalid_config_names}.")]
    on a console that holds the printed lists of names. *)
Definition print_ignoring (invalid_config_names : list string)
    : M (list (list string)) unit :=
  λ console, (Ok (), console ++ [invalid_config_names]).

(** [_get_valid_config_names_from(config_names, silent)]: the valid, the
    unselected and the invalid config names. *)
Definition _get_valid_config_names_from (m : ComputerOptionsManager)
    (config_names_arg : list string) (silent : bool)
    : M (list (list string)) (list string * list string * list string) :=
  let supplied_config_names :=
    if nonempty config_names_arg then config_names_arg else config_names m in
  let valid_config_names :=
    map name (filter (λ config, name config ∈ supplied_config_names) (configs m)) in
  let invalid_config_names :=
    list_of_difference supplied_config_names valid_config_names in
  let unselected_config_names :=
    list_of_difference (config_names m) valid_config_names in
  when (negb silent && nonempty invalid_config_names)
    (print_ignoring invalid_config_names) ;;
  ret (valid_config_names, unselected_config_names, invalid_config_names).

End Manager.

(** * Properties of the checker *)

Module KkrFacts.
Import Kkr.

Lemma getitem_difference ang c :
  c ∈ [NEW; INTERIM; OLD] → ∃ x, getitem (difference ang) c = Ok x.
Proof.
  intros Hc. repeat (apply elem_of_cons in Hc as [-> | Hc]); [..|by inversion Hc];
    eexists; reflexivity.
Qed.

(** Whatever the three differences are, the classification, when there is
    one, is a key of the table. *)
Lemma classify_in_table ang c :
  classify ang = Ok c → c ∈ [NEW; INTERIM; OLD].
Proof.
  unfold classify. destruct (minima_indices (difference ang)) as [|i ?]; [done|].
  destruct (_ !! i) as [c'|] eqn:Hi; [|done]. intros [= <-].
  apply list_elem_of_lookup_2 in Hi. exact Hi.
Qed.

(** The classification in full: with the differences [dN], [dI], [dO] to
    the NEW, INTERIM and OLD literal and their minimum [m], it is the
    first of NEW, INTERIM, OLD whose difference equals [m]. *)
Lemma classify_table_order ang :
  let dN := PrimFloat.abs (PrimFloat.sub ang 1.8897261246257702%float) in
  let dI := PrimFloat.abs (PrimFloat.sub ang 1.8897261249935897%float) in
  let dO := PrimFloat.abs (PrimFloat.sub ang 1.8897261254578281%float) in
  let m := py_min dN [dI; dO] in
  classify ang =
    if PrimFloat.eqb dN m then Ok NEW
    else if PrimFloat.eqb dI m then Ok INTERIM
    else if PrimFloat.eqb dO m then Ok OLD
    else Raise IndexError.
Proof.
  intros dN dI dO m. unfold classify, minima_indices, difference, ANG_BOHR_KKR.
  cbn [map fmap list_fmap fst snd imap]. unfold compose.
  fold dN dI dO. fold m.
  rewrite !filter_cons, filter_nil. cbn [snd].
  destruct (PrimFloat.eqb dN m), (PrimFloat.eqb dI m), (PrimFloat.eqb dO m);
    repeat (case_decide; try congruence); reflexivity.
Qed.

(** The shape of what [check_single_workchain] returns: either the
    DataFrame as it was, or the DataFrame with one row appended under the
    workchain's UUID, carrying the reverse-calculated value [ang] and its
    classification. *)
Lemma check_single_workchain_inv np_mean py_float df wc set_extra zt gl df' ex :
  check_single_workchain np_mean py_float df wc set_extra zt gl = Ok (df', ex) →
  (df' = df ∧ ex = None) ∨
  ((uuid wc ∉ df_index df) ∧
   ∃ structure card ang c row,
     query_structure_from wc = Ok (Some structure) ∧
     np_shape (cell structure) ≠ None ∧
     np_shape (sites structure) ≠ None ∧
     read_inputcard py_float wc = Ok (Some card) ∧
     reverse_calc np_mean card
       (set_zero_below_threshold (cell structure) zt)
       (set_zero_below_threshold (sites structure) zt) = Ok ang ∧
     classify ang = Ok c ∧
     row_ANG_BOHR_KKR row = ang ∧
     row_constants_version row = c ∧
     df' = df ++ [(uuid wc, row)] ∧
     (∀ e, ex = Some e → extra_constants_version e = enum_name c)).
Proof.
  unfold check_single_workchain.
  destruct (decide (uuid wc ∈ df_index df)) as [Hin|Hnin].
  { intros [= <- <-]. by left. }
  destruct (query_structure_from wc) as [[structure|]| |] eqn:Hq; simpl; try done.
  unfold np_array.
  destruct (np_shape (cell structure)) eqn:Hc; simpl; [|done].
  destruct (np_shape (sites structure)) eqn:Hs; simpl; [|done].
  destruct (read_inputcard py_float wc) as [[card|]| |] eqn:Hr; simpl; try done.
  2:{ intros [= <- <-]. by left. }
  destruct (reverse_calc _ _ _ _) as [ang| |] eqn:Hrev; simpl; try done.
  destruct (classify ang) as [c| |] eqn:Hcl; simpl; try done.
  pose proof (classify_in_table _ _ Hcl) as Hc3.
  intros H. right. split; [done|].
  exists structure, card, ang, c.
  destruct set_extra.
  - rewrite decide_True in H by done.
    assert (∃ a, getitem ANG_BOHR_KKR c = Ok a) as [a Ha].
    { repeat (apply elem_of_cons in Hc3 as [-> | Hc3]); [..|by inversion Hc3];
        eexists; reflexivity. }
    assert (∃ r, getitem RY_TO_EV_KKR c = Ok r) as [r Hr'].
    { repeat (apply elem_of_cons in Hc3 as [-> | Hc3]); [..|by inversion Hc3];
        eexists; reflexivity. }
    rewrite Ha, Hr' in H. simpl in H. injection H as <- <-.
    eexists. repeat split; try done; try congruence.
    intros e [= <-]. done.
  - injection H as <- <-.
    eexists. repeat split; try done; try congruence.
Qed.

(** *** Matched pairs *)

Lemma np_shape_rows (a : matrix) n c :
  np_shape a = Some (Shape2 n c) → length a = n ∧ Forall (λ r, length r = c) a.
Proof.
  destruct a as [|r rest]; simpl; [done|].
  destruct (forallb _ rest) eqn:Hall; [|done]. intros [= <- <-].
  split; [done|]. constructor; [done|].
  apply Forall_forall. intros r' Hr'.
  rewrite forallb_forall in Hall.
  apply Nat.eqb_eq, Hall, list_elem_of_In, Hr'.
Qed.

Lemma np_shape_empty (a : matrix) n : np_shape a = Some (Shape1 n) → a = [].
Proof.
  destruct a as [|r rest]; simpl; [done|]. by destruct (forallb _ rest).
Qed.

Lemma np_shape_set_zero (a : matrix) t :
  np_shape (set_zero_below_threshold a t) = np_shape a.
Proof.
  unfold set_zero_below_threshold. destruct a as [|r rest]; simpl; [done|].
  rewrite !length_map.
  replace (forallb _ (map _ rest))
    with (forallb (λ r', length r' =? length r) rest); [done|].
  induction rest as [|r' rest IH]; simpl; [done|].
  by rewrite length_map, IH.
Qed.

Lemma same_shape_rows (a b : matrix) :
  np_shape b ≠ None → np_shape a = np_shape b →
  Forall2 (λ r r', length r = length r') a b.
Proof.
  intros Hb Hab. destruct (np_shape b) as [[n|n c]|] eqn:Hsb; [| |done].
  - apply np_shape_empty in Hsb as ->. apply np_shape_empty in Hab as ->.
    constructor.
  - apply np_shape_rows in Hsb as [Hlb Hb']. apply np_shape_rows in Hab as [Hla Ha'].
    apply Forall2_same_length_lookup_2; [congruence|].
    intros i r r' Hr Hr'.
    rewrite Forall_lookup in Ha', Hb'.
    rewrite (Ha' _ _ Hr), (Hb' _ _ Hr'). done.
Qed.

Lemma zip_concat {A B} (a : list (list A)) (b : list (list B)) :
  Forall2 (λ r r', length r = length r') a b →
  zip (concat a) (concat b) = concat (zip_with zip a b).
Proof.
  induction 1 as [|r r' a b Hlen _ IH]; simpl; [done|].
  rewrite <- IH. clear IH.
  revert r' Hlen. induction r as [|x r IHr]; intros [|y r'] Hlen; simpl in *;
    try done.
  f_equal. apply IHr. lia.
Qed.

Lemma sample_spec alat x y :
  reverse_calc_single_ANG_BOHR_KKR alat x y = spec_sample alat x y.
Proof.
  unfold reverse_calc_single_ANG_BOHR_KKR, spec_sample, nonzero.
  by destruct (PrimFloat.eqb x 0), (PrimFloat.eqb y 0).
Qed.

Lemma reverse_calc_ANG_BOHR_KKR_matched alat inp struc l :
  np_shape struc ≠ None →
  reverse_calc_ANG_BOHR_KKR alat inp struc = Ok (Some l) →
  l = spec_matched_samples alat inp struc.
Proof.
  unfold reverse_calc_ANG_BOHR_KKR, spec_matched_samples. intros Hs.
  destruct (decide _) as [Heq|]; [|done].
  destruct (Nat.eqb _ _); [done|]. intros [= <-].
  rewrite (zip_concat _ _ (same_shape_rows _ _ Hs Heq)).
  generalize inp struc. clear.
  induction inp as [|r inp IH]; intros [|r' struc]; simpl; try done.
  rewrite map_app, IH. f_equal.
  revert r'. induction r as [|x r IHr]; intros [|y r']; simpl; try done.
  by rewrite sample_spec, IHr.
Qed.

Lemma drop_values_spec (l : list float) :
  drop_values l = filter (λ s, spec_kept s = true) l.
Proof. reflexivity. Qed.

(** C3: when [check_single_workchain] records a row, its
    reverse-calculated [ANG_BOHR_KKR] is the mean of the samples
    [ALATBASIS * x / y] over the pairs of entry (i, j) of BRAVAIS with
    entry (i, j) of the structure cell and of entry (i, j) of RBASIS with
    entry (i, j) of the structure positions, the zero and NaN samples
    dropped, a pair with a zero entry giving the sample zero. *)
Theorem check_single_workchain_reverse_calc
    np_mean py_float df wc set_extra zt gl df' ex :
  check_single_workchain np_mean py_float df wc set_extra zt gl = Ok (df', ex) →
  df' ≠ df →
  ∃ structure card row,
    query_structure_from wc = Ok (Some structure) ∧
    read_inputcard py_float wc = Ok (Some card) ∧
    df' = df ++ [(uuid wc, row)] ∧
    row_ANG_BOHR_KKR row =
      spec_reverse_calc np_mean (ALATBASIS card)
        (BRAVAIS card) (set_zero_below_threshold (cell structure) zt)
        (POSITIONS card) (set_zero_below_threshold (sites structure) zt) ∧
    (∀ x y, x = 0%float ∨ y = 0%float → spec_sample (ALATBASIS card) x y = 0%float).
Proof.
  intros H Hne.
  apply check_single_workchain_inv in H as [[-> _]|(_ & st & card & ang & c & row & H)];
    [done|].
  destruct H as (Hq & Hc & Hs & Hr & Hrev & _ & Hang & _ & -> & _).
  exists st, card, row. repeat split; try done.
  - rewrite Hang. unfold reverse_calc in Hrev.
    destruct (reverse_calc_ANG_BOHR_KKR _ (BRAVAIS card) _) as [[l1|]| |] eqn:H1;
      simpl in Hrev; try done.
    destruct (reverse_calc_ANG_BOHR_KKR _ (POSITIONS card) _) as [[l2|]| |] eqn:H2;
      simpl in Hrev; try done.
    apply reverse_calc_ANG_BOHR_KKR_matched in H1; [|by rewrite np_shape_set_zero].
    apply reverse_calc_ANG_BOHR_KKR_matched in H2; [|by rewrite np_shape_set_zero].
    injection Hrev as <-. rewrite drop_values_spec. subst l1 l2. done.
  - intros x y [-> | ->]; unfold spec_sample; simpl; [done|].
    by rewrite orb_true_r.
Qed.

Lemma check_single_workchain_reverse_calc_witness :
  ∃ row,
    check_single_workchain Sample.seq_mean Sample.tokens [] Sample.wc_new
      false 1e-15%float None = Ok ([("wc-new", row)], None) ∧
    row_ANG_BOHR_KKR row =
      spec_reverse_calc Sample.seq_mean 1.8897261246257702%float
        [ [1; 0; 0]; [0; 1; 0]; [0; 0; 1] ]%float
        [ [1; 0; 0]; [0; 1; 0]; [0; 0; 1] ]%float
        [ [0; 0; 0]; [0; 0; 0.5] ]%float
        [ [0; 0; 0]; [0; 0; 0.5] ]%float.
Proof.
  destruct (check_single_workchain_reverse_calc Sample.seq_mean Sample.tokens
              [] Sample.wc_new false 1e-15%float None
              _ None eq_refl)
    as (st & card & row & Hq & Hr & Hdf & Hang & _).
  { vm_compute. discriminate. }
  vm_compute in Hq. vm_compute in Hr.
  injection Hq as <-. injection Hr as <-.
  vm_compute in Hdf. injection Hdf as Hrow.
  exists row. split.
  - vm_compute. by rewrite Hrow.
  - exact Hang.
Defined.

(** *** The classification *)

(** C1, at the workchain [Sample.wc_midpoint]: the reverse-calculated
    value is the midpoint of the INTERIM and the OLD literal, so both are
    at the same, minimal distance and NEW is farther away; the recorded
    version is INTERIM, the earlier of the two in the table
    [ANG_BOHR_KKR], where the stated importance NEW > OLD > INTERIM asks
    for OLD. *)
Theorem check_single_workchain_tie_interim_old :
  ∃ row,
    check_single_workchain Sample.seq_mean Sample.tokens [] Sample.wc_midpoint
      false 1e-15%float None = Ok ([("wc-midpoint", row)], None) ∧
    row_ANG_BOHR_KKR row = Sample.midpoint ∧
    PrimFloat.eqb (row_diff_interim row) (row_diff_old row) = true ∧
    PrimFloat.ltb (row_diff_old row) (row_diff_new row) = true ∧
    classify Sample.midpoint = Ok INTERIM ∧
    row_constants_version row = INTERIM ∧
    enum_value OLD < enum_value INTERIM.
Proof.
  eexists. split; [vm_compute; reflexivity|].
  split; [vm_compute; reflexivity|].
  split; [vm_compute; reflexivity|].
  split; [vm_compute; reflexivity|].
  split; [vm_compute; reflexivity|].
  split; [vm_compute; reflexivity|].
  simpl. lia.
Qed.

(** C8: a row recorded by [check_single_workchain] carries NEW, INTERIM
    or OLD as its constants version, never NEITHER or UNDECISIVE; so does
    the extra, when one is set. *)
Theorem check_single_workchain_version_in_table
    np_mean py_float df wc set_extra zt gl df' ex :
  check_single_workchain np_mean py_float df wc set_extra zt gl = Ok (df', ex) →
  (df' = df ∧ ex = None) ∨
  ∃ row,
    df' = df ++ [(uuid wc, row)] ∧
    row_constants_version row ∈ [NEW; INTERIM; OLD] ∧
    row_constants_version row ≠ NEITHER ∧
    row_constants_version row ≠ UNDECISIVE ∧
    (∀ e, ex = Some e → extra_constants_version e ∈ ["NEW"; "INTERIM"; "OLD"]).
Proof.
  intros H.
  apply check_single_workchain_inv in H as [?|(_ & st & card & ang & c & row & H)];
    [by left|right].
  destruct H as (_ & _ & _ & _ & _ & Hcl & _ & Hv & -> & Hex).
  apply classify_in_table in Hcl.
  exists row. rewrite Hv. split; [done|]. split; [done|].
  split; [|split].
  - intros ->. repeat (apply elem_of_cons in Hcl as [?|Hcl]; [done|]).
    by inversion Hcl.
  - intros ->. repeat (apply elem_of_cons in Hcl as [?|Hcl]; [done|]).
    by inversion Hcl.
  - intros e He. rewrite (Hex e He).
    repeat (apply elem_of_cons in Hcl as [-> | Hcl]); [..|by inversion Hcl];
      simpl; set_solver.
Qed.

Lemma check_single_workchain_version_in_table_witness :
  ∃ row,
    check_single_workchain Sample.seq_mean Sample.tokens [] Sample.wc_new
      true 1e-15%float (Some "group") = Ok ([("wc-new", row)],
        Some {| extra_constants_version := "NEW";
                extra_ANG_BOHR_KKR := 1.8897261246257702%float;
                extra_RY_TO_EV_KKR := Some 13.605693122994%float |}) ∧
    row_constants_version row ∈ [NEW; INTERIM; OLD].
Proof.
  destruct (check_single_workchain_version_in_table Sample.seq_mean Sample.tokens
              [] Sample.wc_new true 1e-15%float (Some "group") _ _ eq_refl)
    as [[Hdf _]|(row & Hdf & Hin & _)].
  { vm_compute in Hdf. discriminate. }
  vm_compute in Hdf. injection Hdf as Hrow.
  exists row. split; [|exact Hin].
  vm_compute. by rewrite Hrow.
Defined.

(** *** One row per workchain *)

(** A check leaves the DataFrame as it is, or appends one row under a
    UUID that is not in the index yet. *)
Lemma check_single_workchain_appends
    np_mean py_float df wc set_extra zt gl df' ex :
  check_single_workchain np_mean py_float df wc set_extra zt gl = Ok (df', ex) →
  (df' = df ∧ ex = None) ∨
  ((uuid wc ∉ df_index df) ∧ ∃ row, df' = df ++ [(uuid wc, row)]).
Proof.
  intros H.
  apply check_single_workchain_inv in H
    as [?|(Hnin & st & card & ang & c & row & H)]; [by left|right].
  destruct H as (_ & _ & _ & _ & _ & _ & _ & _ & -> & _). eauto.
Qed.

(** C9: on a DataFrame with at most one row per UUID,
    [check_single_workchain] leaves at most one row per UUID; it only
    ever appends to the rows that are there, and when the workchain's
    UUID is in the index it returns the DataFrame as it is. *)
Theorem check_single_workchain_one_row_per_uuid
    np_mean py_float df wc set_extra zt gl df' ex :
  NoDup (df_index df) →
  check_single_workchain np_mean py_float df wc set_extra zt gl = Ok (df', ex) →
  NoDup (df_index df') ∧
  (∃ rows, df' = df ++ rows ∧ length rows ≤ 1) ∧
  (uuid wc ∈ df_index df → df' = df ∧ ex = None).
Proof.
  intros Hnd H.
  apply check_single_workchain_appends in H as [[-> ->]|(Hnin & row & ->)].
  - split; [done|]. split; [|done]. exists []. rewrite app_nil_r. simpl.
    split; [done|lia].
  - split; [|split].
    + unfold df_index in *. rewrite fmap_app. simpl.
      apply NoDup_app. split; [done|]. split.
      * intros u Hu ->%list_elem_of_singleton. done.
      * apply NoDup_singleton.
    + exists [(uuid wc, row)]. simpl. split; [done|lia].
    + done.
Qed.

Lemma check_single_workchain_one_row_per_uuid_witness :
  ∃ df,
    check_single_workchain Sample.seq_mean Sample.tokens [] Sample.wc_new
      false 1e-15%float None = Ok (df, None) ∧
    df_index df = ["wc-new"] ∧
    check_single_workchain Sample.seq_mean Sample.tokens df Sample.wc_new
      false 1e-15%float None = Ok (df, None).
Proof.
  eexists. split; [vm_compute; reflexivity|]. split; [reflexivity|].
  match goal with
  | |- check_single_workchain ?m ?f ?df ?wc ?se ?zt ?gl = _ =>
      destruct (check_single_workchain m f df wc se zt gl) as [[df' ex]| |] eqn:E;
        [|vm_compute in E; discriminate..];
      destruct (check_single_workchain_one_row_per_uuid m f df wc se zt gl df' ex)
        as (_ & _ & Hsame); [vm_compute; apply NoDup_singleton|exact E|];
      destruct Hsame as [-> ->]; [vm_compute; set_solver|reflexivity]
  end.
Defined.

(** Checks in a row, as [check_workchain_group] runs them from the empty
    DataFrame of a new checker, never leave two rows for one UUID. *)
Lemma check_workchains_NoDup np_mean py_float wcs df set_extra zt gl df' :
  NoDup (df_index df) →
  check_workchains np_mean py_float df wcs set_extra zt gl = Ok df' →
  NoDup (df_index df').
Proof.
  revert df. induction wcs as [|wc wcs IH]; intros df Hnd; simpl.
  { by intros [= <-]. }
  destruct (check_single_workchain _ _ df wc _ _ _) as [[df1 ex]| |] eqn:E;
    simpl; [|done..].
  apply IH.
  apply check_single_workchain_appends in E as [[-> _]|(Hnin & row & ->)]; [done|].
  unfold df_index in *. rewrite fmap_app. simpl.
  apply NoDup_app. split; [done|]. split; [|apply NoDup_singleton].
  intros u Hu ->%list_elem_of_singleton. done.
Qed.

End KkrFacts.

(** * Properties of the options configs *)

Module OptionsFacts.
Import Py Orm Options.

(** ** Outcomes of method bodies *)

Lemma bindM_Ok {S A B} (m : M S A) (k : A → M S B) w a w' :
  m w = (Ok a, w') → bindM m k w = k a w'.
Proof. unfold bindM. by intros ->. Qed.

Lemma bindM_Raise {S A B} (m : M S A) (k : A → M S B) w e w' :
  m w = (Raise e, w') → bindM m k w = (Raise e, w').
Proof. unfold bindM. by intros ->. Qed.

Lemma bindM_returns_or_raises {S A B} (m : M S A) (k : A → M S B) w :
  returns_or_raises (m w) →
  (∀ a w', m w = (Ok a, w') → returns_or_raises (k a w')) →
  returns_or_raises (bindM m k w).
Proof.
  unfold returns_or_raises, bindM. destruct (m w) as [[a'|e|] w']; simpl; auto.
Qed.

(** ** The uninitialized config *)

(** C10: on a config on which [initialize] has not been called,
    [get_options] returns the empty list, whatever its arguments; it
    prints the warning of [_check_if_initalized] and changes neither the
    config nor the store. *)
Theorem get_options_uninitialized
    spec_options_keys get_computers get_queues (a : Arguments) (w : World) :
  _is_initialized (config w) = false →
  get_options spec_options_keys get_computers get_queues a w =
    (Ok [], {| config := config w; store := store w;
               printed := printed w ++ [NotInitialized] |}).
Proof.
  intros H. unfold get_options, _check_if_initalized, bindM, get_config, when, warn.
  simpl. rewrite H. simpl. reflexivity.
Qed.

Lemma get_options_uninitialized_witness :
  get_options Sample.spec_options_keys Sample.no_computers Sample.no_queues
    Sample.account_and_commands Sample.claix18_world =
  (Ok [], {| config := Sample.claix18; store := Sample.claix18_store;
             printed := [NotInitialized] |}).
Proof.
  exact (get_options_uninitialized Sample.spec_options_keys Sample.no_computers
           Sample.no_queues Sample.account_and_commands Sample.claix18_world
           eq_refl).
Defined.

(** ** Mandatory fields *)

Section Mandatory.

Variable spec_options_keys : list string.
Variable get_computers : string → list Computer.
Variable get_queues : Computer → option bool → exn + list string.
Variable a : Arguments.

Local Abbreviation mandatory_loop :=
  (Options.mandatory_loop get_computers get_queues a).
Local Abbreviation mandatory_queue_name :=
  (Options.mandatory_queue_name get_computers get_queues a).
Local Abbreviation queues_from_config := (Options.queues_from_config get_queues a).
Local Abbreviation queues_from_query := (Options.queues_from_query get_queues a).

Lemma queues_from_config_returns_or_raises cs kept w :
  returns_or_raises (queues_from_config cs kept w).
Proof.
  revert kept w. induction cs as [|computer cs IH]; intros kept w; simpl.
  { done. }
  destruct (get_queues computer (gpu a)) as [e|queue_names].
  - destruct e; try done. apply bindM_returns_or_raises; [done|].
    intros. apply IH.
  - destruct (nonempty queue_names); [done|apply IH].
Qed.

Lemma queues_from_query_returns_or_raises computers w :
  returns_or_raises (queues_from_query computers w).
Proof.
  revert w. induction computers as [|computer rest IH]; intros w; simpl.
  { done. }
  destruct (get_queues computer (gpu a)) as [e|queue_names]; [done|].
  destruct (nonempty queue_names); [done|apply IH].
Qed.

Lemma mandatory_queue_name_returns_or_raises queue_name w :
  returns_or_raises (mandatory_queue_name queue_name w).
Proof.
  unfold Options.mandatory_queue_name.
  apply bindM_returns_or_raises; [done|]. intros c w1 _.
  apply bindM_returns_or_raises; [apply queues_from_config_returns_or_raises|].
  intros [queue_names kept] w2 _.
  apply bindM_returns_or_raises; [done|]. intros _ w3 _.
  apply bindM_returns_or_raises.
  - destruct (nonempty queue_names); [done|].
    match goal with |- context [if ?b then queues_from_query ?cs else _] =>
      destruct b; [apply queues_from_query_returns_or_raises|done] end.
  - intros qs w4 _. destruct (negb (nonempty qs)); [done|].
    destruct (str_truthy queue_name); [|done].
    by destruct (bool_decide _).
Qed.

Local Abbreviation candidates := (Options.candidates get_computers a).
Local Abbreviation no_queue_on := (Options.no_queue_on get_queues a).

Lemma queues_from_config_none cs kept w :
  no_queue_on cs →
  (∃ kept' w', queues_from_config cs kept w = (Ok ([], kept'), w')
               ∧ config w' = config w) ∨
  (∃ e w', queues_from_config cs kept w = (Raise e, w')).
Proof.
  revert kept w. induction cs as [|computer cs IH]; intros kept w Hno; simpl.
  { left. by exists kept, w. }
  assert (no_queue_on cs) as Hno'.
  { intros c qs Hc. apply Hno. by right. }
  destruct (get_queues computer (gpu a)) as [e|queue_names] eqn:E.
  - destruct e; try (right; by eexists _, _).
    unfold bindM, warn. simpl.
    match goal with
    | |- context [Options.queues_from_config _ _ cs kept ?w1] =>
        destruct (IH kept w1 Hno') as [(k' & w' & -> & Hc)|(e & w' & ->)]
    end.
    + left. by exists k', w'.
    + right. by exists e, w'.
  - rewrite (Hno computer queue_names) by (done || by left). simpl.
    apply IH, Hno'.
Qed.

Lemma queues_from_query_none computers w :
  no_queue_on computers →
  (∃ w', queues_from_query computers w = (Ok [], w')) ∨
  (∃ e w', queues_from_query computers w = (Raise e, w')).
Proof.
  revert w. induction computers as [|computer rest IH]; intros w Hno; simpl.
  { left. by exists w. }
  destruct (get_queues computer (gpu a)) as [e|queue_names] eqn:E.
  - right. by exists e, w.
  - rewrite (Hno computer queue_names) by (done || by left). simpl.
    apply IH. intros c qs Hc. apply Hno. by right.
Qed.

Lemma computers_from_words_subseteq words :
  computers_from_words get_computers words ⊆ flat_map get_computers words.
Proof.
  induction words as [|w words IH]; simpl; [done|].
  destruct (nonempty (get_computers w)).
  - intros c Hc. apply elem_of_app. by left.
  - intros c Hc. apply elem_of_app. right. by apply IH.
Qed.

Lemma mandatory_queue_name_raises queue_name w :
  no_queue_on (candidates (config w)) →
  ∃ e w', mandatory_queue_name queue_name w = (Raise e, w').
Proof.
  intros Hno. unfold Options.mandatory_queue_name.
  unfold bindM at 1, get_config at 1.
  destruct (queues_from_config_none (_computers (config w)) [] w)
    as [(kept & w1 & E & Hc)|(e & w1 & E)].
  { intros c qs Hin. apply Hno. unfold Options.candidates. apply elem_of_app. by left. }
  2:{ rewrite (bindM_Raise _ _ _ _ _ E). by eexists _, _. }
  rewrite (bindM_Ok _ _ _ _ _ E).
  unfold bindM at 1, modify_config at 1.
  set (w2 := {| config := _; store := _; printed := _ |}).
  change (nonempty (@nil string)) with false. cbv iota.
  match goal with
  | |- context [if nonempty ?cs then queues_from_query ?cs' else _] =>
      destruct (nonempty cs) eqn:Hcs
  end.
  - match goal with
    | |- context [bindM (queues_from_query ?cs) _ w2] =>
        destruct (queues_from_query_none cs w2) as [(w3 & E3)|(e & w3 & E3)]
    end.
    + intros c qs Hin. apply Hno. unfold Options.candidates.
      apply elem_of_app. right.
      destruct (nonempty (get_computers _)) in Hin.
      * apply elem_of_app. by left.
      * apply elem_of_app. right. by apply computers_from_words_subseteq.
    + rewrite (bindM_Ok _ _ _ _ _ E3). simpl. by eexists _, _.
    + rewrite (bindM_Raise _ _ _ _ _ E3). by eexists _, _.
  - unfold bindM, raise. by eexists _, _.
Qed.

Lemma mandatory_account_raises w :
  str_truthy (account a) = false →
  mandatory_account a w = (Raise NotImplementedError, w).
Proof. unfold mandatory_account. by intros ->. Qed.

Lemma mandatory_account_keeps w r w' :
  mandatory_account a w = (r, w') → w' = w ∧ r ≠ Diverges.
Proof.
  unfold mandatory_account. destruct (str_truthy (account a)); intros [= <- <-]; done.
Qed.

Lemma mandatory_loop_account keys queue_name w :
  "account" ∈ keys → str_truthy (account a) = false →
  ∃ e w', mandatory_loop keys queue_name w = (Raise e, w').
Proof.
  intros Hin Hacc. revert queue_name w.
  induction keys as [|key keys IH]; intros queue_name w; [by inversion Hin|].
  simpl. destruct (String.eqb key "queue_name") eqn:Hq.
  - apply String.eqb_eq in Hq as ->.
    assert ("account" ∈ keys) as Hin' by (by apply elem_of_cons in Hin as [?|?]).
    pose proof (mandatory_queue_name_returns_or_raises queue_name w) as Hror.
    destruct (mandatory_queue_name queue_name w) as [[qn|e|] w1] eqn:E.
    + rewrite (bindM_Ok _ _ _ _ _ E). simpl. unfold bindM at 1, ret at 1.
      apply IH, Hin'.
    + rewrite (bindM_Raise _ _ _ _ _ E). by eexists _, _.
    + by destruct Hror.
  - unfold bindM at 1, ret at 1.
    destruct (String.eqb key "account") eqn:Ha.
    + rewrite (bindM_Raise _ _ _ _ _ (mandatory_account_raises w Hacc)).
      by eexists _, _.
    + unfold bindM at 1, ret at 1. apply IH.
      apply elem_of_cons in Hin as [<-|?]; [|done].
      by rewrite String.eqb_refl in Ha.
Qed.

Lemma mandatory_loop_queue_name keys queue_name w :
  "queue_name" ∈ keys → no_queue_on (candidates (config w)) →
  ∃ e w', mandatory_loop keys queue_name w = (Raise e, w').
Proof.
  intros Hin Hno. revert queue_name.
  induction keys as [|key keys IH]; intros queue_name; [by inversion Hin|].
  simpl. destruct (String.eqb key "queue_name") eqn:Hq.
  - destruct (mandatory_queue_name_raises queue_name w Hno) as (e & w1 & E).
    rewrite (bindM_Raise _ _ _ _ _ E). by eexists _, _.
  - unfold bindM at 1, ret at 1.
    assert ("queue_name" ∈ keys) as Hin'.
    { apply elem_of_cons in Hin as [<-|?]; [|done].
      by rewrite String.eqb_refl in Hq. }
    destruct (String.eqb key "account").
    + destruct (mandatory_account a w) as [[[]|e|] w1] eqn:E.
      * pose proof (mandatory_account_keeps _ _ _ E) as [-> _].
        rewrite (bindM_Ok _ _ _ _ _ E). apply IH, Hin'.
      * rewrite (bindM_Raise _ _ _ _ _ E). by eexists _, _.
      * by apply mandatory_account_keeps in E as [_ ?].
    + unfold bindM at 1, ret at 1. apply IH, Hin'.
Qed.

Lemma _check_if_initalized_true w :
  _is_initialized (config w) = true → _check_if_initalized w = (Ok true, w).
Proof.
  intros H. unfold _check_if_initalized, bindM, get_config, when. simpl.
  by rewrite H.
Qed.

Lemma validate_kwargs_outcome w :
  (∃ valid_kwargs w',
      validate_kwargs spec_options_keys get_computers a w = (Ok valid_kwargs, w')
      ∧ config w' = config w) ∨
  (∃ e w', validate_kwargs spec_options_keys get_computers a w = (Raise e, w')).
Proof.
  unfold validate_kwargs, bindM, get_config, lift, get_help_keywords, when, warn, ret.
  simpl.
  repeat (case_match; simpl in *; simplify_eq);
    try (left; eexists _, _; split; [reflexivity|reflexivity]);
    try (right; eexists _, _; reflexivity).
Qed.

Lemma get_options_raises_from_mandatory w :
  _is_initialized (config w) = true →
  (∀ w1, config w1 = config w →
     ∃ e w',
       mandatory_loop (mandatory (_query_config (config w1))) (queue_name a) w1
       = (Raise e, w')) →
  ∃ e w', get_options spec_options_keys get_computers get_queues a w = (Raise e, w').
Proof.
  intros Hinit Hloop. unfold get_options.
  rewrite (bindM_Ok _ _ _ _ _ (_check_if_initalized_true w Hinit)). simpl.
  destruct (validate_kwargs_outcome w) as [(v & w1 & E & Hc)|(e & w1 & E)].
  2:{ rewrite (bindM_Raise _ _ _ _ _ E). by eexists _, _. }
  rewrite (bindM_Ok _ _ _ _ _ E).
  unfold bindM at 1, get_config at 1.
  destruct (Hloop w1 Hc) as (e & w2 & E2).
  rewrite (bindM_Raise _ _ _ _ _ E2). by eexists _, _.
Qed.

End Mandatory.

(** C6 as it is stated, before [initialize]. On the config
    [Sample.iffslurm] the field [queue_name] is mandatory, none is
    supplied and the database holds no computer; on
    [Sample.account_config] the field [account] is mandatory and none is
    supplied. In both cases [get_options] returns the empty list; it
    raises nothing. *)
Lemma get_options_missing_mandatory_uninitialized :
  ("queue_name" ∈ mandatory (_query_config (config Sample.iffslurm_world)) ∧
   queue_name default_arguments = None ∧
   candidates Sample.no_computers default_arguments
     (config Sample.iffslurm_world) = [] ∧
   (get_options Sample.spec_options_keys Sample.no_computers Sample.no_queues
      default_arguments Sample.iffslurm_world).1 = Ok []) ∧
  ("account" ∈ mandatory (_query_config (config Sample.account_world)) ∧
   account default_arguments = None ∧
   (get_options Sample.spec_options_keys Sample.no_computers Sample.no_queues
      default_arguments Sample.account_world).1 = Ok []).
Proof.
  split.
  - split; [set_solver|]. repeat split; reflexivity.
  - split; [set_solver|]. split; reflexivity.
Qed.

(** C6, amended: on an initialized config, [get_options] raises an
    exception when [account] is a mandatory field and no account is
    supplied, and when [queue_name] is a mandatory field, none is
    supplied and no computer that matches the config (its own computers,
    those found by the computer name or the config's name, or by a word
    of the config's name) has a queue. *)
Theorem get_options_missing_mandatory_raises
    spec_options_keys get_computers get_queues (a : Arguments) (w : World) :
  _is_initialized (config w) = true →
  ("account" ∈ mandatory (_query_config (config w)) ∧
   str_truthy (account a) = false) ∨
  ("queue_name" ∈ mandatory (_query_config (config w)) ∧
   str_truthy (queue_name a) = false ∧
   no_queue_on get_queues a (candidates get_computers a (config w))) →
  ∃ e w', get_options spec_options_keys get_computers get_queues a w = (Raise e, w').
Proof.
  intros Hinit Hcase. apply get_options_raises_from_mandatory; [done|].
  intros w1 Hc. rewrite Hc.
  destruct Hcase as [[Hin Hacc]|(Hin & _ & Hno)].
  - by apply mandatory_loop_account.
  - apply mandatory_loop_queue_name; [done|]. by rewrite Hc.
Qed.

Lemma get_options_missing_mandatory_raises_witness :
  (∃ e w', get_options Sample.spec_options_keys Sample.no_computers Sample.no_queues
             default_arguments (initialize [] Sample.account_world).2
           = (Raise e, w')) ∧
  (∃ e w', get_options Sample.spec_options_keys Sample.no_computers Sample.no_queues
             default_arguments (initialize [] Sample.iffslurm_world).2
           = (Raise e, w')).
Proof.
  split.
  - apply get_options_missing_mandatory_raises; [reflexivity|].
    left. split; [vm_compute; set_solver|reflexivity].
  - apply get_options_missing_mandatory_raises; [reflexivity|].
    right. split; [vm_compute; set_solver|]. split; [reflexivity|].
    intros computer queue_names _ [= <-]. reflexivity.
Defined.

(** ** [initialize] *)

Lemma forM_add_nodes gs option w :
  forM gs (λ g, modify_store (add_nodes g [option])) w =
  (Ok (), with_store w (foldl (λ st g, add_nodes g [option] st) (store w) gs)).
Proof.
  revert w. induction gs as [|g gs IH]; intros w; simpl.
  { by destruct w. }
  unfold bindM, modify_store at 1. simpl. rewrite IH. done.
Qed.

Lemma create_option_store option w :
  create_option option w =
  (Ok (), with_store w (created_store (_groups (config w)) option (store w))).
Proof.
  unfold create_option, created_store.
  unfold bindM at 1, get_store at 1.
  destruct (node_is_stored (store w) option).
  { by destruct w. }
  unfold bindM at 1, modify_store at 1.
  unfold bindM at 1, get_config at 1.
  rewrite forM_add_nodes. done.
Qed.

Lemma forM_create_option opts w :
  forM opts create_option w =
  (Ok (), with_store w (foldl (λ st o, created_store (_groups (config w)) o st)
                              (store w) opts)).
Proof.
  revert w. induction opts as [|o opts IH]; intros w; simpl.
  { by destruct w. }
  unfold bindM. rewrite create_option_store, IH. done.
Qed.

(** ** The store under [store], [add_nodes] and [set_label] *)
Lemma node_add_nodes g ns st n : node (add_nodes g ns st) n = node st n.
Proof. done. Qed.
Lemma grp_nodes_store_node o st g : grp_nodes (store_node o st) g = grp_nodes st g.
Proof. done. Qed.

Lemma node_is_stored_store_node o st n :
  node_is_stored (store_node o st) n =
  if decide (n = o) then bool_decide (is_Some (node st o)) else node_is_stored st n.
Proof.
  unfold node_is_stored, node, store_node, alter_node. simpl.
  rewrite list_lookup_alter. destruct (decide (o = n)) as [->|Hne].
  - rewrite decide_True by done. by destruct (all_nodes st !! n).
  - rewrite decide_False by done. done.
Qed.

Lemma node_attributes_store_node o st n :
  node_attributes (store_node o st) n = node_attributes st n.
Proof.
  unfold node_attributes, node, store_node, alter_node. simpl.
  rewrite list_lookup_alter. destruct (decide (o = n)) as [->|Hne]; [|done].
  by destruct (all_nodes st !! n).
Qed.

Lemma grp_nodes_add_nodes_mono g ns st g' n :
  n ∈ grp_nodes st g' → n ∈ grp_nodes (add_nodes g ns st) g'.
Proof.
  unfold grp_nodes, group, add_nodes, alter_group. simpl.
  rewrite list_lookup_alter. destruct (decide (g = g')) as [->|Hne]; [|done].
  destruct (all_groups st !! g'); simpl; [|done].
  intros Hn. apply elem_of_app. by left.
Qed.

Lemma grp_nodes_add_nodes_elem g o st :
  is_Some (group st g) → o ∈ grp_nodes (add_nodes g [o] st) g.
Proof.
  unfold grp_nodes, group, add_nodes, alter_group. simpl.
  rewrite list_lookup_alter_eq. intros [x ->]. simpl.
  destruct (decide (o ∈ nodes x)) as [Hin|Hnin].
  - apply elem_of_app. by left.
  - apply elem_of_app. right. apply list_elem_of_filter. split; [done|].
    apply elem_of_remove_dups. by left.
Qed.

Lemma group_add_nodes_is_Some g ns st g' :
  is_Some (group (add_nodes g ns st) g') ↔ is_Some (group st g').
Proof.
  unfold group, add_nodes, alter_group. simpl. rewrite list_lookup_alter.
  destruct (decide (g = g')) as [->|]; [|done]. by rewrite fmap_is_Some.
Qed.

Section Created.
Variable gs : list nat.
Variable o : nat.

Lemma foldl_add_nodes_node (l : list nat) st n :
  node (foldl (λ st g, add_nodes g [o] st) st l) n = node st n.
Proof. revert st. induction l as [|g l IH]; intros st; simpl; [done|]. by rewrite IH. Qed.

Lemma foldl_add_nodes_is_Some (l : list nat) st g :
  is_Some (group (foldl (λ st g, add_nodes g [o] st) st l) g) ↔ is_Some (group st g).
Proof.
  revert st. induction l as [|g' l IH]; intros st; simpl; [done|].
  by rewrite IH, group_add_nodes_is_Some.
Qed.

Lemma foldl_add_nodes_mono (l : list nat) st g n :
  n ∈ grp_nodes st g → n ∈ grp_nodes (foldl (λ st g, add_nodes g [o] st) st l) g.
Proof.
  revert st. induction l as [|g' l IH]; intros st; simpl; [done|].
  intros H. apply IH. by apply grp_nodes_add_nodes_mono.
Qed.

Lemma foldl_add_nodes_elem (l : list nat) st g :
  g ∈ l → is_Some (group st g) →
  o ∈ grp_nodes (foldl (λ st g, add_nodes g [o] st) st l) g.
Proof.
  revert st. induction l as [|g' l IH]; intros st Hin Hg; simpl; [by inversion Hin|].
  apply elem_of_cons in Hin as [->|Hin].
  - apply foldl_add_nodes_mono. by apply grp_nodes_add_nodes_elem.
  - apply IH; [done|]. by apply group_add_nodes_is_Some.
Qed.

End Created.

Lemma created_store_attributes gs o st n :
  node_attributes (created_store gs o st) n = node_attributes st n.
Proof.
  unfold created_store. destruct (node_is_stored st o); [done|].
  unfold node_attributes at 1. rewrite foldl_add_nodes_node.
  apply node_attributes_store_node.
Qed.

Lemma created_store_stored_mono gs o st n :
  node_is_stored st n = true → node_is_stored (created_store gs o st) n = true.
Proof.
  unfold created_store. destruct (node_is_stored st o) eqn:Ho; [done|].
  intros Hn. unfold node_is_stored at 1. rewrite foldl_add_nodes_node.
  fold (node_is_stored (store_node o st) n). rewrite node_is_stored_store_node.
  destruct (decide (n = o)) as [->|]; [congruence|done].
Qed.

Lemma created_store_is_Some_node gs o st n :
  is_Some (node (created_store gs o st) n) ↔ is_Some (node st n).
Proof.
  unfold created_store. destruct (node_is_stored st o); [done|].
  rewrite foldl_add_nodes_node. unfold node, store_node, alter_node. simpl.
  rewrite list_lookup_alter. destruct (decide (o = n)) as [->|]; [|done].
  by rewrite fmap_is_Some.
Qed.

Lemma created_store_is_Some_group gs o st g :
  is_Some (group (created_store gs o st) g) ↔ is_Some (group st g).
Proof.
  unfold created_store. destruct (node_is_stored st o); [done|].
  by rewrite foldl_add_nodes_is_Some.
Qed.

Lemma created_store_mono gs o st g n :
  n ∈ grp_nodes st g → n ∈ grp_nodes (created_store gs o st) g.
Proof.
  unfold created_store. destruct (node_is_stored st o); [done|].
  intros H. by apply foldl_add_nodes_mono.
Qed.

Lemma created_store_stored gs o st :
  is_Some (node st o) → node_is_stored (created_store gs o st) o = true.
Proof.
  intros Ho. unfold created_store. destruct (node_is_stored st o) eqn:E; [done|].
  unfold node_is_stored at 1. rewrite foldl_add_nodes_node.
  fold (node_is_stored (store_node o st) o). rewrite node_is_stored_store_node.
  rewrite decide_True by done. by apply bool_decide_eq_true.
Qed.

Lemma created_store_member gs o st g :
  node_is_stored st o = false → g ∈ gs → is_Some (group st g) →
  o ∈ grp_nodes (created_store gs o st) g.
Proof.
  intros Ho Hg Hv. unfold created_store. rewrite Ho.
  by apply foldl_add_nodes_elem.
Qed.

Lemma created_all_stored_mono gs opts st o :
  node_is_stored st o = true →
  node_is_stored (foldl (λ st o, created_store gs o st) st opts) o = true.
Proof.
  revert st. induction opts as [|o' opts IH]; intros st H; simpl; [done|].
  apply IH. by apply created_store_stored_mono.
Qed.

Lemma created_all_mono gs opts st g o :
  o ∈ grp_nodes st g →
  o ∈ grp_nodes (foldl (λ st o, created_store gs o st) st opts) g.
Proof.
  revert st. induction opts as [|o' opts IH]; intros st H; simpl; [done|].
  apply IH. by apply created_store_mono.
Qed.

(** The whole store loop. *)
Lemma created_all gs opts st o :
  o ∈ opts → is_Some (node st o) → node_is_stored st o = false →
  node_is_stored (foldl (λ st o, created_store gs o st) st opts) o = true ∧
  (∀ g, g ∈ gs → is_Some (group st g) →
     o ∈ grp_nodes (foldl (λ st o, created_store gs o st) st opts) g).
Proof.
  revert st. induction opts as [|o' opts IH]; intros st Hin Hv Hns; simpl;
    [by inversion Hin|].
  destruct (decide (o' = o)) as [->|Hne].
  - split.
    + apply created_all_stored_mono. by apply created_store_stored.
    + intros g Hg Hgv. apply created_all_mono. by apply created_store_member.
  - apply elem_of_cons in Hin as [?|Hin]; [congruence|].
    assert (node_is_stored (created_store gs o' st) o = false) as Hns'.
    { unfold created_store. destruct (node_is_stored st o') eqn:E; [done|].
      unfold node_is_stored at 1. rewrite foldl_add_nodes_node.
      fold (node_is_stored (store_node o' st) o). rewrite node_is_stored_store_node.
      by rewrite decide_False. }
    destruct (IH (created_store gs o' st) Hin) as [Hs Hm]; [|done|].
    { by apply created_store_is_Some_node. }
    split; [done|]. intros g Hg Hgv. apply Hm; [done|].
    by apply created_store_is_Some_group.
Qed.

Lemma created_all_attributes gs opts st n :
  node_attributes (foldl (λ st o, created_store gs o st) st opts) n
  = node_attributes st n.
Proof.
  revert st. induction opts as [|o opts IH]; intros st; simpl; [done|].
  by rewrite IH, created_store_attributes.
Qed.

(** ** Stores that differ in labels only *)

Lemma same_but_labels_refl st : same_but_labels st st.
Proof. split; [done|]. intros n. done. Qed.

Lemma same_but_labels_set_label st st' n l :
  same_but_labels st st' → same_but_labels st (set_label n l st').
Proof.
  intros [Hg Hn]. split; [done|]. intros m.
  destruct (Hn m) as (Ht & Ha & Hs & Hv).
  unfold node_type_of, node_attributes, node_is_stored, node, set_label, alter_node
    in *. simpl.
  rewrite list_lookup_alter. destruct (decide (n = m)) as [->|]; [|done].
  destruct (all_nodes st' !! m) as [x|] eqn:E; simpl in *; [|done].
  repeat split; try done; intros; by eapply Hv.
Qed.

Lemma group_options_obs st st' g :
  same_but_labels st st' → group_options st' g = group_options st g.
Proof.
  intros [Hg Hn]. unfold group_options, grp_nodes, group. rewrite Hg.
  apply list_filter_iff. intros n. unfold is_stored_Dict.
  destruct (Hn n) as (-> & _ & -> & _). done.
Qed.

Lemma search_groups_obs st st' attrs gs :
  same_but_labels st st' → search_groups st' attrs gs = search_groups st attrs gs.
Proof.
  intros H. induction gs as [|g gs IH]; simpl; [done|].
  rewrite (group_options_obs _ _ _ H), IH.
  rewrite (list_find_ext (λ n, dict_eq attrs (node_attributes st' n) = true)
             (λ n, dict_eq attrs (node_attributes st n) = true)); [done|].
  intros n. destruct H as [_ Hn]. destruct (Hn n) as (_ & -> & _). done.
Qed.

(** ** The load loop *)

Lemma insert_take_drop_map (f : nat → nat) (opts : list nat) k o :
  opts !! k = Some o →
  <[k := f o]> (map f (take k opts) ++ drop k opts)
  = map f (take (S k) opts) ++ drop (S k) opts.
Proof.
  intros Hk. pose proof (lookup_lt_Some _ _ _ Hk) as Hlt.
  rewrite (take_S_r _ _ _ Hk), map_app, <- app_assoc. simpl.
  rewrite (drop_S _ _ _ Hk).
  rewrite insert_app_r_alt by (rewrite length_map, length_take; lia).
  rewrite length_map, length_take.
  replace (k - k `min` length opts) with 0 by lia. done.
Qed.

Lemma same_take_drop_map (f : nat → nat) (opts : list nat) k o :
  opts !! k = Some o → f o = o →
  map f (take k opts) ++ drop k opts
  = map f (take (S k) opts) ++ drop (S k) opts.
Proof.
  intros Hk Hf.
  rewrite (take_S_r _ _ _ Hk), map_app, <- app_assoc. simpl.
  by rewrite (drop_S _ _ _ Hk), Hf.
Qed.

Lemma lookup_take_drop_map (f : nat → nat) (opts : list nat) k :
  k ≤ length opts →
  (map f (take k opts) ++ drop k opts) !! k = opts !! k.
Proof.
  intros Hk. rewrite lookup_app_r by (rewrite length_map, length_take; lia).
  rewrite length_map, length_take, lookup_drop. f_equal. lia.
Qed.

Lemma forM_load_option st0 gs opts m : ∀ k w,
  k + m = length opts →
  _groups (config w) = gs → same_but_labels st0 (store w) →
  _options (config w) = map (loaded st0 gs) (take k opts) ++ drop k opts →
  ∃ w', forM (seq k m) load_option w = (Ok (), w') ∧
        _groups (config w') = gs ∧ same_but_labels st0 (store w') ∧
        _options (config w') = map (loaded st0 gs) opts.
Proof.
  induction m as [|m IH]; intros k w Hkm Hg Hobs Hopts; simpl.
  { exists w. split; [done|]. split; [done|]. split; [done|].
    rewrite Hopts. replace k with (length opts) by lia.
    by rewrite firstn_all, drop_all, app_nil_r. }
  assert (k < length opts) as Hlt by lia.
  destruct (lookup_lt_is_Some_2 opts k Hlt) as [o Ho].
  assert (_options (config w) !! k = Some o) as Hk.
  { rewrite Hopts, lookup_take_drop_map by lia. done. }
  unfold bindM at 1. unfold load_option at 1.
  unfold bindM at 1, get_config at 1. unfold bindM at 1, get_store at 1.
  rewrite Hk, Hg.
  assert (node_attributes (store w) o = node_attributes st0 o) as Ha.
  { destruct Hobs as [_ Hn]. by destruct (Hn o) as (_ & -> & _). }
  rewrite Ha, (search_groups_obs _ _ _ _ Hobs).
  destruct (search_groups st0 (node_attributes st0 o) gs) as [n|] eqn:Hs.
  - unfold bindM at 1.
    destruct (when _ _ w) as [r w1] eqn:Hw.
    assert (r = Ok () ∧ config w1 = config w ∧ same_but_labels st0 (store w1)) as (-> & Hc1 & Hobs1).
    { unfold when in Hw. destruct (String.eqb _ _).
      - unfold modify_store in Hw. injection Hw as <- <-. simpl.
        split; [done|]. split; [done|]. by apply same_but_labels_set_label.
      - injection Hw as <- <-. done. }
    unfold modify_config at 1.
    match goal with |- context [forM _ _ ?w2] => destruct (IH (S k) w2) as (w' & E & H') end.
    + lia.
    + simpl. by rewrite Hc1.
    + done.
    + simpl. rewrite Hc1, Hopts.
      replace n with (loaded st0 gs o) by (unfold loaded; by rewrite Hs).
      by apply insert_take_drop_map.
    + exists w'. by rewrite E.
  - unfold ret at 1.
    destruct (IH (S k) w) as (w' & E & H'); try done; [lia| |].
    + rewrite Hopts. apply (same_take_drop_map _ _ _ o); [done|].
      unfold loaded. by rewrite Hs.
    + exists w'. by rewrite E.
Qed.

(** ** The group phase *)

Lemma same_nodes_refl w : same_nodes w w.
Proof. done. Qed.

Lemma same_nodes_trans w1 w2 w3 :
  same_nodes w1 w2 → same_nodes w2 w3 → same_nodes w1 w3.
Proof.
  intros (Hn & Ho & Hg) (Hn' & Ho' & Hg'). split; [congruence|].
  split; [congruence|]. intros g. by rewrite Hg', Hg.
Qed.

Lemma grp_nodes_alter_group f g st g' :
  (∀ x, nodes (f x) = nodes x) →
  grp_nodes (alter_group f g st) g' = grp_nodes st g'.
Proof.
  intros Hf. unfold grp_nodes, group, alter_group. simpl.
  rewrite list_lookup_alter. destruct (decide (g = g')) as [->|]; [|done].
  destruct (all_groups st !! g'); simpl; [apply Hf|done].
Qed.

Lemma group_alter_group_is_Some f g st g' :
  is_Some (group (alter_group f g st) g') ↔ is_Some (group st g').
Proof.
  unfold group, alter_group. simpl. rewrite list_lookup_alter.
  destruct (decide (g = g')) as [->|]; [|done]. by rewrite fmap_is_Some.
Qed.

Lemma grp_nodes_new_Group st l d g :
  grp_nodes (new_Group st l d).1 g = grp_nodes st g.
Proof.
  unfold grp_nodes, group, new_Group. simpl.
  destruct (decide (g < length (all_groups st))) as [Hlt|Hge].
  - by rewrite lookup_app_l.
  - rewrite lookup_app_r by lia. rewrite (lookup_ge_None_2 (all_groups st)) by lia.
    destruct (g - length (all_groups st)) as [|k]; simpl; [done|].
    by destruct k.
Qed.

Lemma group_new_Group_is_Some st l d g :
  is_Some (group st g) → is_Some (group (new_Group st l d).1 g).
Proof.
  unfold group, new_Group. simpl. intros H.
  rewrite lookup_app_l; [done|]. by apply lookup_lt_is_Some.
Qed.

Lemma group_new_Group_new st l d :
  is_Some (group (new_Group st l d).1 (new_Group st l d).2).
Proof.
  unfold group, new_Group. simpl. rewrite lookup_app_r by lia.
  rewrite Nat.sub_diag. by eexists.
Qed.

Lemma add_alternative_groups_spec pg names w :
  valid_groups w →
  ∃ w', add_alternative_groups pg names w = (Ok (), w') ∧
        same_nodes w w' ∧ valid_groups w'.
Proof.
  unfold add_alternative_groups. revert w.
  induction names as [|name names IH]; intros w Hv; simpl.
  { exists w. done. }
  unfold bindM at 1. unfold bindM at 1, get_store at 1.
  unfold bindM at 1, get_config at 1.
  destruct (new_Group (store w) name (grp_description (store w) pg)) as [st g] eqn:E.
  unfold bindM at 1, put_store at 1. unfold put_config at 1.
  match goal with |- context [forM _ _ ?w2] => destruct (IH w2) as (w' & E' & Hs & Hv') end.
  - intros g' Hg'. simpl in *. apply group_alter_group_is_Some.
    apply elem_of_app in Hg' as [Hg'|Hg'].
    + replace st with (new_Group (store w) name (grp_description (store w) pg)).1
        by (by rewrite E).
      apply group_new_Group_is_Some. by apply Hv.
    + apply list_elem_of_singleton in Hg' as ->.
      replace st with (new_Group (store w) name (grp_description (store w) pg)).1
        by (by rewrite E).
      replace g with (new_Group (store w) name (grp_description (store w) pg)).2
        by (by rewrite E).
      apply group_new_Group_new.
  - exists w'. split; [done|]. split; [|done].
    eapply same_nodes_trans; [|exact Hs].
    split; [|split]; simpl.
    + unfold new_Group in E. by injection E as <- <-.
    + done.
    + intros g'. unfold set_extra_many. rewrite grp_nodes_alter_group by done.
      apply (grp_nodes_new_Group (store w) name (grp_description (store w) pg) g').
Qed.

Lemma Group_get_valid st l g : Group_get st l = Ok g → is_Some (group st g).
Proof.
  unfold Group_get. destruct (list_find _ _) as [[g' x]|] eqn:E; [|done].
  intros [= <-]. apply list_find_Some in E as (E & _). by exists x.
Qed.

Lemma resolve_groups_valid st n gs g :
  (∀ g, g ∈ gs → is_Some (group st g)) →
  g ∈ resolve_groups st n gs → is_Some (group st g).
Proof.
  intros Hv. unfold resolve_groups. cbv zeta.
  match goal with |- context [existsb _ (drop n ?l)] => set (gs1 := l) end.
  assert (∀ g, g ∈ gs1 → is_Some (group st g)) as Hv1.
  { intros g1 Hg1. apply list_elem_of_fmap in Hg1 as (g0 & -> & Hg0).
    destruct (Group_get st (grp_label st g0)) eqn:E; auto.
    by apply Group_get_valid in E. }
  match goal with |- context [existsb _ (if ?b then _ else _)] => destruct b end.
  - destruct (existsb _ _).
    + intros Hg. apply list_elem_of_filter in Hg as [_ Hg]. apply Hv1.
      by eapply subseteq_drop.
    + intros Hg. apply Hv1. by eapply subseteq_drop.
  - destruct (existsb _ _).
    + intros Hg. apply list_elem_of_filter in Hg as [_ Hg]. by apply Hv1.
    + by auto.
Qed.

Lemma add_alternative_groups_groups pg names w r w' :
  add_alternative_groups pg names w = (r, w') →
  ∃ new, _groups (config w') = _groups (config w) ++ new.
Proof.
  unfold add_alternative_groups. revert w.
  induction names as [|name names IH]; intros w; simpl.
  { intros [= <- <-]. exists []. by rewrite app_nil_r. }
  unfold bindM at 1. unfold bindM at 1, get_store at 1.
  unfold bindM at 1, get_config at 1.
  destruct (new_Group (store w) name (grp_description (store w) pg)) as [st g].
  unfold bindM at 1, put_store at 1. unfold put_config at 1.
  intros E. apply IH in E as [new E]. simpl in E.
  rewrite <- app_assoc in E. by eexists.
Qed.

Lemma filter_existsb {A} (f : A → bool) (l : list A) :
  existsb f l = true → filter (λ x, f x = true) l ≠ [].
Proof.
  induction l as [|x l IH]; simpl; [done|].
  rewrite filter_cons. destruct (f x); simpl; [done|exact IH].
Qed.

Lemma resolve_groups_nonempty st n gs :
  gs ≠ [] → resolve_groups st n gs ≠ [].
Proof.
  intros Hne. unfold resolve_groups. cbv zeta.
  match goal with |- context [existsb _ (drop n ?l)] => set (gs1 := l) end.
  assert (gs1 ≠ []) as Hne1 by (subst gs1; by destruct gs).
  destruct (existsb _ (take n gs1)); simpl.
  - destruct (existsb _ gs1) eqn:E; [by apply filter_existsb|done].
  - destruct (existsb _ (drop n gs1)) eqn:Ed.
    + rewrite Ed. by apply filter_existsb.
    + destruct (existsb _ gs1) eqn:E; [by apply filter_existsb|done].
Qed.

Lemma initialize_groups_returns n w :
  _groups (config w) ≠ [] → ∃ w', initialize_groups n w = (Ok (), w').
Proof.
  intros Hne. unfold initialize_groups.
  unfold bindM at 1, get_store at 1. unfold bindM at 1, modify_config at 1.
  unfold bindM at 1, get_config at 1. simpl.
  destruct (existsb _ _); [by eexists|].
  pose proof (resolve_groups_nonempty (store w) n _ Hne) as Hr.
  destruct (resolve_groups _ _ _) as [|g gs]; [done|].
  unfold bindM, put_config, modify_store. by eexists.
Qed.

Lemma initialize_groups_spec n w r w' :
  valid_groups w → initialize_groups n w = (r, w') →
  same_nodes w w' ∧ (r = Ok () → valid_groups w').
Proof.
  intros Hv. unfold initialize_groups.
  unfold bindM at 1, get_store at 1. unfold bindM at 1, modify_config at 1.
  unfold bindM at 1, get_config at 1. simpl.
  assert (∀ g, g ∈ resolve_groups (store w) n (_groups (config w)) →
               is_Some (group (store w) g)) as Hv1.
  { intros g. by apply resolve_groups_valid. }
  destruct (existsb _ _).
  { intros [= <- <-]. split; [done|]. intros _ g Hg. by apply Hv1. }
  destruct (resolve_groups _ _ _) as [|g gs] eqn:E.
  { intros [= <- <-]. done. }
  unfold bindM, put_config, modify_store. simpl. intros [= <- <-].
  split.
  - split; [done|]. split; [done|]. intros g'. simpl.
    by apply grp_nodes_alter_group.
  - intros _ g' Hg'. simpl in *. apply list_elem_of_singleton in Hg' as ->.
    apply group_alter_group_is_Some, Hv1. by left.
Qed.

Lemma search_groups_Some st attrs gs n :
  search_groups st attrs gs = Some n →
  ∃ g, g ∈ gs ∧ n ∈ group_options st g ∧
       dict_eq attrs (node_attributes st n) = true.
Proof.
  induction gs as [|g gs IH]; simpl; [done|].
  destruct (list_find _ _) as [[k m]|] eqn:E.
  - intros [= <-]. apply list_find_Some in E as (Hk & Heq & _).
    exists g. split; [by left|]. split; [|done].
    by eapply list_elem_of_lookup_2.
  - intros H. destruct (IH H) as (g' & Hg' & Hn). exists g'. split; [by right|done].
Qed.

Lemma search_groups_None st attrs gs g n :
  search_groups st attrs gs = None →
  g ∈ gs → n ∈ group_options st g →
  dict_eq attrs (node_attributes st n) = false.
Proof.
  induction gs as [|g' gs IH]; simpl; [by inversion 2|].
  destruct (list_find _ _) as [[k m]|] eqn:E; [done|].
  intros H Hg Hn. apply elem_of_cons in Hg as [->|Hg]; [|by apply IH].
  apply list_find_None in E. rewrite Forall_forall in E.
  specialize (E n Hn). by destruct (dict_eq _ _).
Qed.

Lemma group_options_same_nodes w w' g :
  same_nodes w w' → group_options (store w') g = group_options (store w) g.
Proof.
  intros (Hn & _ & Hg). unfold group_options. rewrite Hg.
  apply list_filter_iff. intros n.
  unfold is_stored_Dict, node_type_of, node_is_stored, node. by rewrite Hn.
Qed.

(** ** What the store loop leaves alone *)

Lemma grp_nodes_add_nodes_inv g o st g' n :
  n ∈ grp_nodes (add_nodes g [o] st) g' → n ∈ grp_nodes st g' ∨ n = o.
Proof.
  unfold grp_nodes, group, add_nodes, alter_group. simpl.
  rewrite list_lookup_alter. destruct (decide (g = g')) as [->|Hne]; [|by left].
  destruct (all_groups st !! g') as [x|]; simpl; [|by left].
  intros [H|H]%elem_of_app; [by left|].
  apply list_elem_of_filter in H as [_ H]. apply elem_of_remove_dups in H.
  apply list_elem_of_singleton in H. by right.
Qed.

Lemma foldl_add_nodes_inv o (l : list nat) st g n :
  n ∈ grp_nodes (foldl (λ st g, add_nodes g [o] st) st l) g →
  n ∈ grp_nodes st g ∨ n = o.
Proof.
  revert st. induction l as [|g' l IH]; intros st; simpl; [by left|].
  intros [H|H]%IH; [|by right]. by eapply grp_nodes_add_nodes_inv.
Qed.

(** A round of the store loop for another option leaves [o] as it is:
    it is neither stored nor added to a group. *)
Lemma created_store_other gs o' st o :
  o ≠ o' →
  node_is_stored (created_store gs o' st) o = node_is_stored st o ∧
  ∀ g, o ∈ grp_nodes (created_store gs o' st) g → o ∈ grp_nodes st g.
Proof.
  intros Hne. unfold created_store. destruct (node_is_stored st o'); [done|].
  split.
  - unfold node_is_stored at 1. rewrite foldl_add_nodes_node.
    fold (node_is_stored (store_node o' st) o). rewrite node_is_stored_store_node.
    by rewrite decide_False.
  - intros g [H|H]%foldl_add_nodes_inv; [|done].
    by rewrite grp_nodes_store_node in H.
Qed.

Lemma created_all_other gs opts st o :
  o ∉ opts →
  node_is_stored (foldl (λ st o, created_store gs o st) st opts) o
  = node_is_stored st o ∧
  ∀ g, o ∈ grp_nodes (foldl (λ st o, created_store gs o st) st opts) g →
       o ∈ grp_nodes st g.
Proof.
  revert st. induction opts as [|o' opts IH]; intros st Hnin; simpl; [done|].
  apply not_elem_of_cons in Hnin as [Hne Hnin].
  destruct (IH (created_store gs o' st) Hnin) as [Hs Hg].
  destruct (created_store_other gs o' st o Hne) as [Hs' Hg'].
  split; [by rewrite Hs|]. intros g H. by apply Hg', Hg.
Qed.

(** What a completed [initialize] has done with the default option
    record [o]. *)
Lemma initialize_inv alt w w' i o :
  _is_initialized (config w) = false →
  valid_groups w →
  _options (config w) !! i = Some o →
  is_Some (node (store w) o) →
  node_is_stored (store w) o = false →
  initialize alt w = (Ok (), w') →
  (∃ g n,
      g ∈ _groups (config w') ∧ n ∈ group_options (store w) g ∧
      dict_eq (node_attributes (store w) o) (node_attributes (store w) n) = true ∧
      n ≠ o ∧
      _options (config w') !! i = Some n ∧
      node_is_stored (store w') o = false ∧
      ∀ g', o ∈ grp_nodes (store w') g' → o ∈ grp_nodes (store w) g')
  ∨
  ((∀ g n,
      g ∈ _groups (config w') → n ∈ group_options (store w) g →
      dict_eq (node_attributes (store w) o) (node_attributes (store w) n) = false) ∧
   _options (config w') !! i = Some o ∧
   node_is_stored (store w') o = true ∧
   node_attributes (store w') o = node_attributes (store w) o ∧
   ∀ g, g ∈ _groups (config w') → o ∈ grp_nodes (store w') g).
Proof.
  intros Hinit Hv Hi Ho Hns. unfold initialize.
  unfold bindM at 1, get_config at 1. rewrite Hinit.
  destruct (_groups (config w)) as [|pg rest] eqn:Hgs; [done|].
  destruct (add_alternative_groups_spec pg alt w Hv) as (w1 & E1 & Hs1 & Hv1).
  rewrite (bindM_Ok _ _ _ _ _ E1).
  destruct (initialize_groups (length (pg :: rest)) w1) as [r2 w2] eqn:E2.
  destruct (initialize_groups_spec _ _ _ _ Hv1 E2) as [Hs2 Hv2].
  destruct r2 as [[]| |]; [|by rewrite (bindM_Raise _ _ _ _ _ E2)|].
  2:{ unfold bindM at 1. by rewrite E2. }
  rewrite (bindM_Ok _ _ _ _ _ E2). specialize (Hv2 eq_refl).
  pose proof (same_nodes_trans _ _ _ Hs1 Hs2) as Hs.
  unfold bindM at 1. unfold load_default_options at 1.
  unfold bindM at 1, get_config at 1.
  destruct (forM_load_option (store w2) (_groups (config w2)) (_options (config w2))
              (length (_options (config w2))) 0 w2)
    as (w3 & E3 & Hg3 & Hobs3 & Ho3); [done|done|apply same_but_labels_refl|done|].
  rewrite E3.
  unfold bindM at 1. unfold store_default_options at 1.
  unfold bindM at 1, get_config at 1. rewrite forM_create_option.
  unfold modify_config. intros [= <-]. simpl.
  rewrite Hg3, Ho3.
  destruct Hs as (Hn & Hopts & Hgn).
  assert (node_attributes (store w2) o = node_attributes (store w) o) as Ha2.
  { unfold node_attributes, node. by rewrite Hn. }
  assert (node_is_stored (store w2) o = false) as Hns2.
  { unfold node_is_stored, node in *. by rewrite Hn. }
  assert (∀ g, group_options (store w2) g = group_options (store w) g) as Hgo.
  { intros g. by apply group_options_same_nodes. }
  assert (∀ n, node_attributes (store w2) n = node_attributes (store w) n) as Han.
  { intros n. unfold node_attributes, node. by rewrite Hn. }
  rewrite Hopts in *.
  rewrite list_lookup_fmap, Hi. simpl. unfold loaded. rewrite Ha2.
  destruct (search_groups (store w2) (node_attributes (store w) o)
              (_groups (config w2))) as [n|] eqn:Hsearch.
  - left. pose proof Hsearch as Hsearch'.
    apply search_groups_Some in Hsearch as (g & Hg & Hn' & Heq).
    exists g, n. rewrite Han in Heq. pose proof Hn' as Hn''. rewrite Hgo in Hn''.
    split; [done|]. split; [done|].
    split; [done|]. split.
    { intros ->. apply list_elem_of_filter in Hn' as [Hst _].
      unfold is_stored_Dict in Hst. rewrite Hns2 in Hst.
      by rewrite andb_false_r in Hst. }
    split; [done|].
    destruct Hobs3 as [Hag3 Hn3].
    destruct (Hn3 o) as (_ & _ & Hst3 & _).
    destruct (created_all_other (_groups (config w2))
                (loaded (store w2) (_groups (config w2)) <$> _options (config w))
                (store w3) o) as [Hstored Hmember].
    { intros (o2 & Hl & _)%list_elem_of_fmap. revert Hl. unfold loaded.
      destruct (search_groups (store w2) (node_attributes (store w2) o2)
                  (_groups (config w2))) as [m|] eqn:Hfound; simpl.
      - intros ->. apply search_groups_Some in Hfound as (g2 & _ & Hm & _).
        apply list_elem_of_filter in Hm as [Hst _].
        unfold is_stored_Dict in Hst. rewrite Hns2 in Hst.
        by rewrite andb_false_r in Hst.
      - intros ->. rewrite Ha2 in Hfound. congruence. }
    split.
    { etransitivity; [exact Hstored|]. by rewrite Hst3. }
    intros g' Hin. pose proof (Hmember g' Hin) as Hin3. rewrite <- Hgn.
    unfold grp_nodes, group in *. by rewrite <- Hag3.
  - right. split.
    { intros g n Hg Hn'. rewrite <- (Han n).
      eapply search_groups_None; [exact Hsearch|exact Hg|]. by rewrite Hgo. }
    split; [done|].
    destruct Hobs3 as [Hag3 Hn3].
    destruct (Hn3 o) as (_ & Ha3 & Hst3 & Hv3).
    destruct (created_all (_groups (config w2))
                (loaded (store w2) (_groups (config w2)) <$> _options (config w))
                (store w3) o) as [Hstored Hmember].
    { apply list_elem_of_fmap. exists o. split.
      - unfold loaded. by rewrite Ha2, Hsearch.
      - by eapply list_elem_of_lookup_2. }
    { apply Hv3. unfold node in *. by rewrite Hn. }
    { by rewrite Hst3. }
    split; [done|]. split.
    { by rewrite created_all_attributes, Ha3. }
    intros g Hg. apply Hmember; [done|].
    unfold group. rewrite Hag3. by apply Hv2.
Qed.

(** [initialize] completes on a config that has a group. *)
Lemma initialize_returns alt w :
  valid_groups w → _groups (config w) ≠ [] →
  ∃ w', initialize alt w = (Ok (), w').
Proof.
  intros Hv Hne. unfold initialize.
  unfold bindM at 1, get_config at 1.
  destruct (_is_initialized (config w)); [by eexists|].
  destruct (_groups (config w)) as [|pg rest] eqn:Hgs; [done|].
  destruct (add_alternative_groups_spec pg alt w Hv) as (w1 & E1 & Hs1 & Hv1).
  rewrite (bindM_Ok _ _ _ _ _ E1).
  destruct (add_alternative_groups_groups _ _ _ _ _ E1) as [new Hg1].
  destruct (initialize_groups_returns (length (pg :: rest)) w1) as (w2 & E2).
  { rewrite Hg1, Hgs. done. }
  rewrite (bindM_Ok _ _ _ _ _ E2).
  unfold bindM at 1. unfold load_default_options at 1.
  unfold bindM at 1, get_config at 1.
  destruct (forM_load_option (store w2) (_groups (config w2)) (_options (config w2))
              (length (_options (config w2))) 0 w2)
    as (w3 & E3 & _); [done|done|apply same_but_labels_refl|done|].
  rewrite E3.
  unfold bindM at 1. unfold store_default_options at 1.
  unfold bindM at 1, get_config at 1. rewrite forM_create_option.
  unfold modify_config. by eexists.
Qed.

(** C5: [initialize], on a config not yet initialized, completes and
    settles every default option record [o] (an unstored node) in one of
    two ways. Load: some stored [Dict] member [n] of one of the config's
    final groups has attributes equal to those of [o], and [n], another
    node than [o], takes the place of [o] among the config's options;
    the record [o] itself is not created: it stays unstored and joins no
    group. Create: no stored [Dict] member of any of the groups has equal
    attributes, and [o] stays, is stored with its attributes unchanged,
    and is a member of every one of the groups. *)
Theorem initialize_loads_or_creates alt w i o :
  _is_initialized (config w) = false →
  valid_groups w → _groups (config w) ≠ [] →
  _options (config w) !! i = Some o →
  is_Some (node (store w) o) →
  node_is_stored (store w) o = false →
  ∃ w',
    initialize alt w = (Ok (), w') ∧
    ((∃ g n,
        g ∈ _groups (config w') ∧ n ∈ group_options (store w) g ∧
        dict_eq (node_attributes (store w) o) (node_attributes (store w) n) = true ∧
        n ≠ o ∧
        _options (config w') !! i = Some n ∧
        node_is_stored (store w') o = false ∧
        ∀ g', o ∈ grp_nodes (store w') g' → o ∈ grp_nodes (store w) g')
     ∨
     ((∀ g n,
        g ∈ _groups (config w') → n ∈ group_options (store w) g →
        dict_eq (node_attributes (store w) o) (node_attributes (store w) n) = false) ∧
      _options (config w') !! i = Some o ∧
      node_is_stored (store w') o = true ∧
      node_attributes (store w') o = node_attributes (store w) o ∧
      ∀ g, g ∈ _groups (config w') → o ∈ grp_nodes (store w') g)).
Proof.
  intros Hinit Hv Hne Hi Ho Hns.
  destruct (initialize_returns alt w Hv Hne) as [w' E].
  exists w'. split; [exact E|]. by eapply initialize_inv.
Qed.

Lemma initialize_loads_or_creates_witness :
  (_options (config (initialize [] Sample.claix18_world).2) !! 0 = Some 0 ∧
   node_is_stored (store (initialize [] Sample.claix18_world).2) 0 = true ∧
   0 ∈ grp_nodes (store (initialize [] Sample.claix18_world).2) 0) ∧
  (_options (config (initialize [] Sample.claix18_known_world).2) !! 0 = Some 1 ∧
   node_is_stored (store (initialize [] Sample.claix18_known_world).2) 0 = false ∧
   0 ∉ grp_nodes (store (initialize [] Sample.claix18_known_world).2) 1).
Proof.
  split.
  - destruct (initialize_loads_or_creates [] Sample.claix18_world 0 0)
      as (w' & E & [(g & n & Hg & Hn & _)|(_ & Hopt & Hstored & _ & Hmember)]).
    + reflexivity.
    + intros g ->%list_elem_of_singleton. by eexists.
    + done.
    + reflexivity.
    + by eexists.
    + reflexivity.
    + rewrite E in *. vm_compute in E. injection E as <-.
      vm_compute in Hg. apply list_elem_of_singleton in Hg as ->.
      vm_compute in Hn. by inversion Hn.
    + rewrite E. cbn [snd]. split; [exact Hopt|]. split; [exact Hstored|].
      apply Hmember. vm_compute in E. injection E as <-. vm_compute. by left.
  - destruct (initialize_loads_or_creates [] Sample.claix18_known_world 0 0)
      as (w' & E & [(g & n & _ & _ & _ & _ & Hopt & Hunstored & Hjoins)|(Hnone & _)]).
    + reflexivity.
    + intros g ->%list_elem_of_singleton. by eexists.
    + done.
    + reflexivity.
    + by eexists.
    + reflexivity.
    + rewrite E. cbn [snd]. split; [|split; [exact Hunstored|]].
      * vm_compute in E. injection E as <-. vm_compute. reflexivity.
      * intros Hin. apply Hjoins in Hin. vm_compute in Hin.
        apply list_elem_of_singleton in Hin. discriminate.
    + exfalso. vm_compute in E. injection E as <-.
      specialize (Hnone 1 1). vm_compute in Hnone.
      assert (false = true → False) as Hft by done. apply Hft. symmetry.
      apply Hnone; [by left|]. vm_compute. by left.
Defined.

(** ** Two calls with the same arguments *)

(** C2, on the initialized config [claix18]: two calls of
    [get_options(account="jara0191",
                 custom_scheduler_commands="#SBATCH --mem=4G")]
    in a row. The first creates and stores node 1, the second finds no
    match either and creates and stores node 2, with the same attributes
    and in the same group. The account is in neither node: the keyword
    argument replaces the scheduler command made from the account, and
    the query asks for both. *)
Theorem get_options_twice_creates_two_nodes :
  let call := get_options Sample.spec_options_keys Sample.no_computers
                Sample.no_queues Sample.account_and_commands in
  let first := call (initialize [] Sample.claix18_world).2 in
  let second := call first.2 in
  first.1 = Ok [OptionNode 1] ∧
  second.1 = Ok [OptionNode 2] ∧
  node_attributes (store second.2) 2 = node_attributes (store second.2) 1 ∧
  get (node_attributes (store second.2) 1) "custom_scheduler_commands"
    = Some (VStr "#SBATCH --mem=4G") ∧
  node_is_stored (store second.2) 1 = true ∧
  node_is_stored (store second.2) 2 = true ∧
  grp_nodes (store second.2) 0 = [0; 1; 2].
Proof. vm_compute. repeat split. Qed.

(** ** The number of MPI processes *)

(** C4, on the initialized config [localhost], with a local computer
    whose default is 8 MPI processes per machine: [get_options()]
    creates an options node. No queue is given and neither stored option
    runs with MPI, so the existing options give no number; the created
    node gets [tot_num_mpiprocs = 1] and no [num_mpiprocs_per_machine],
    the computer's default is not used. *)
Theorem get_options_skips_computer_default :
  let r := get_options Sample.spec_options_keys Sample.get_computers_localhost
             Sample.no_queues default_arguments
             (initialize [] Sample.localhost_world).2 in
  r.1 = Ok [OptionNode 2] ∧
  get (node_attributes (store r.2) 2) "resources"
    = Some (VDict [ ("num_machines", VInt 1); ("tot_num_mpiprocs", VInt 1) ]) ∧
  computers Sample.get_computers_localhost (config r.2)
    = [Sample.localhost_computer] ∧
  default_mpiprocs_per_machine Sample.localhost_computer = VInt 8.
Proof. vm_compute. repeat split. Qed.

End OptionsFacts.

(** * Properties of the CIF importer *)

Module CifFacts.
Import Py Orm Cif.

Lemma new_Group_stored st l d st1 g :
  new_Group st l d = (st1, g) →
  grp_is_stored (store_group g st1) g = true ∧
  hits (store_group g st1) g = [] ∧
  all_nodes (store_group g st1) = all_nodes st.
Proof.
  unfold new_Group. intros [= <- <-].
  unfold grp_is_stored, hits, grp_nodes, group, store_group, alter_group. simpl.
  rewrite list_lookup_alter_eq, lookup_app_r by lia.
  by rewrite Nat.sub_diag.
Qed.

Lemma new_Dict_node st l d st1 n :
  new_Dict st l d = (st1, n) →
  n = length (all_nodes st) ∧
  node st1 n = Some {| type := TDict; label := l; attributes := d;
                       is_stored := false |}.
Proof.
  unfold new_Dict. intros [= <- <-]. split; [done|].
  unfold node. simpl. by rewrite lookup_app_r, Nat.sub_diag.
Qed.

Local Arguments Group_get : simpl never.
Local Arguments hits : simpl never.
Local Arguments new_Dict : simpl never.
Local Arguments new_Group : simpl never.
Local Arguments nonempty : simpl never.
Local Arguments _determine_structure_group_path : simpl never.

Ltac run_select :=
  unfold select_conversion_settings, _get_cif_nodes,
    _load_or_create_structure_group, _load_or_create_conversion_settings,
    get_or_create_group, _try_load_conversion_settings,
    bindM, ret, lift, raise, when, get_store, get_importer, put_importer,
    put_store, modify_store;
  cbn [store importer struc_group cif_group conversion_settings fst snd _clear].

Lemma select_conversion_settings_spec (a : Arguments) w :
  cif_nodes_of (store w) a ≠ [] →
  match existing_hits (store w) a with
  | _ :: _ :: _ =>
      ∃ w', select_conversion_settings a w = (Raise ValueError, w')
  | found =>
      ∃ w' n,
        select_conversion_settings a w = (Ok (cif_nodes_of (store w) a), w') ∧
        conversion_settings (importer w') = Some n ∧
        match found, conversion_settings_arg a with
        | [hit], _ => n = hit
        | _, Some arg => n = arg
        | _, None =>
            n = length (all_nodes (store w)) ∧
            node (store w') n =
              Some {| type := TDict; label := "";
                      attributes := DEFAULT_CONVERSION_SETTINGS;
                      is_stored := false |}
        end
  end.
Proof.
  unfold cif_nodes_of, existing_hits. intros Hne.
  destruct (Group_get (store w) (cifgroup_label a)) as [cg| |] eqn:Hcg; [|done..].
  destruct (nonempty (filter (λ n, node_type_of (store w) n = TCifData)
                        (grp_nodes (store w) cg))) eqn:Hnon.
  2:{ by destruct (filter _ _). }
  run_select. rewrite Hcg. cbn [store importer]. rewrite Hnon.
  destruct (dry_run a);
    cbn [store importer struc_group cif_group conversion_settings].
  - destruct (Group_get (store w) (_determine_structure_group_path a))
      as [g| |] eqn:Hg; cbn [store importer struc_group head]; rewrite ?Hg.
    + destruct (hits (store w) g) as [|hit [|hit2 rest]] eqn:Hh.
      * destruct (conversion_settings_arg a) as [arg|]; [by eexists _, _|].
        destruct (new_Dict _ _ _) as [st1 n] eqn:E.
        apply new_Dict_node in E as [-> E].
        eexists _, _. split; [reflexivity|]. split; [reflexivity|].
      split; [reflexivity|exact E].
      * by eexists _, _.
      * by eexists _.
    + destruct (conversion_settings_arg a) as [arg|]; [by eexists _, _|].
      destruct (new_Dict _ _ _) as [st1 n] eqn:E.
      apply new_Dict_node in E as [-> E].
      eexists _, _. split; [reflexivity|]. split; [reflexivity|].
      split; [reflexivity|exact E].
    + destruct (conversion_settings_arg a) as [arg|]; [by eexists _, _|].
      destruct (new_Dict _ _ _) as [st1 n] eqn:E.
      apply new_Dict_node in E as [-> E].
      eexists _, _. split; [reflexivity|]. split; [reflexivity|].
      split; [reflexivity|exact E].
  - destruct (Group_get (store w) (_determine_structure_group_path a))
      as [g| |] eqn:Hg; cbn [store importer struc_group head andb]; rewrite ?Hg.
    + destruct (hits (store w) g) as [|hit [|hit2 rest]] eqn:Hh.
      * destruct (conversion_settings_arg a) as [arg|]; [by eexists _, _|].
        destruct (new_Dict _ _ _) as [st1 n] eqn:E.
        apply new_Dict_node in E as [-> E].
        eexists _, _. split; [reflexivity|]. split; [reflexivity|].
      split; [reflexivity|exact E].
      * by eexists _, _.
      * by eexists _.
    + destruct (new_Group _ _ _) as [st0 g] eqn:Eg.
      destruct (new_Group_stored _ _ _ _ _ Eg) as (Hs & Hh & Hn).
      cbn [store importer struc_group head andb negb]. rewrite Hs.
      cbn [store importer struc_group head andb negb]. rewrite Hh.
      destruct (conversion_settings_arg a) as [arg|]; [by eexists _, _|].
      destruct (new_Dict _ _ _) as [st1 n] eqn:E.
      apply new_Dict_node in E as [-> E]. rewrite Hn in E |- *.
      eexists _, _. split; [reflexivity|]. split; [reflexivity|].
      split; [reflexivity|exact E].
    + destruct (new_Group _ _ _) as [st0 g] eqn:Eg.
      destruct (new_Group_stored _ _ _ _ _ Eg) as (Hs & Hh & Hn).
      cbn [store importer struc_group head andb negb]. rewrite Hs.
      cbn [store importer struc_group head andb negb]. rewrite Hh.
      destruct (conversion_settings_arg a) as [arg|]; [by eexists _, _|].
      destruct (new_Dict _ _ _) as [st1 n] eqn:E.
      apply new_Dict_node in E as [-> E]. rewrite Hn in E |- *.
      eexists _, _. split; [reflexivity|]. split; [reflexivity|].
      split; [reflexivity|exact E].
Qed.

(** C7 as it is stated, on the database [Sample.two_settings]: the
    structure group holds two conversion settings nodes, the CIF group
    holds no CIF file, and [load_or_convert] returns (it returns [None])
    and raises nothing: without CIF files it does not look at the
    structure group. *)
Lemma load_or_convert_two_settings_no_cif :
  existing_hits Sample.two_settings Sample.arguments = [0; 1] ∧
  (load_or_convert Sample.convert Sample.arguments
     (Sample.world Sample.two_settings)).1 = Ok None.
Proof. split; vm_compute; reflexivity. Qed.

(** C7, amended: when the CIF group holds a [CifData] node,
    [load_or_convert] raises [ValueError] if the structure group exists
    and holds more than one node of type [Dict]; with no or one such
    node, the choice of the conversion settings returns, and the
    settings are the node found in the structure group, else the node
    given as argument, else a new, unstored [Dict] node with the default
    settings. *)
Theorem load_or_convert_conversion_settings
    (get_structure : Store → nat → dict → exn + (Store * nat))
    (a : Arguments) (w : World) :
  cif_nodes_of (store w) a ≠ [] →
  match existing_hits (store w) a with
  | _ :: _ :: _ =>
      ∃ w', load_or_convert get_structure a w = (Raise ValueError, w')
  | found =>
      ∃ w' n,
        select_conversion_settings a w = (Ok (cif_nodes_of (store w) a), w') ∧
        conversion_settings (importer w') = Some n ∧
        match found, conversion_settings_arg a with
        | [hit], _ => n = hit
        | _, Some arg => n = arg
        | _, None =>
            n = length (all_nodes (store w)) ∧
            node (store w') n =
              Some {| type := TDict; label := "";
                      attributes := DEFAULT_CONVERSION_SETTINGS;
                      is_stored := false |}
        end
  end.
Proof.
  intros Hne. pose proof (select_conversion_settings_spec a w Hne) as H.
  destruct (existing_hits (store w) a) as [|hit [|hit2 rest]]; [done|done|].
  destruct H as [w' H]. exists w'. unfold load_or_convert, bindM. by rewrite H.
Qed.

Lemma load_or_convert_conversion_settings_witness :
  ∃ w',
    select_conversion_settings Sample.arguments (Sample.world Sample.one_setting)
      = (Ok [0], w') ∧
    conversion_settings (importer w') = Some 1.
Proof.
  pose proof (load_or_convert_conversion_settings Sample.convert Sample.arguments
                (Sample.world Sample.one_setting)) as H.
  assert (cif_nodes_of (store (Sample.world Sample.one_setting)) Sample.arguments
          ≠ []) as Hne by (vm_compute; discriminate).
  specialize (H Hne).
  change (existing_hits (store (Sample.world Sample.one_setting)) Sample.arguments)
    with [1] in H.
  destruct H as (w' & n & Hsel & Hset & ->).
  exists w'. split; [exact Hsel|exact Hset].
Defined.

End CifFacts.

(** * Properties of the checker's other methods and of the other tools *)

Module KkrToolsFacts.
Import Kkr KkrTools.

Ltac break_cases :=
  repeat match goal with
         | |- _ ∧ _ => split
         | |- _ ↔ _ => split
         | |- _ → _ => intros ?
         | H : ∃ _, _ |- _ => destruct H
         | H : _ ∧ _ |- _ => destruct H
         | H : _ ∨ _ |- _ => destruct H
         end;
  simplify_eq; try done; try congruence.

(** ** [check_if_kkr_calc_converged] *)

(** X1: [check_if_kkr_calc_converged] returns exactly when the output
    parameters hold a dict [convergence_group] whose entry
    [calculation_converged] equals [True] (the integer 1 does); it raises
    [KeyError] exactly when one of the two keys is missing. *)
Theorem check_if_kkr_calc_converged_spec (kkr_calc : CalcJobNode) :
  (check_if_kkr_calc_converged kkr_calc = inr () ↔
   ∃ d group converged,
     output_parameters kkr_calc = Some d ∧
     Py.get d "convergence_group" = Some (Py.VDict group) ∧
     Py.get group "calculation_converged" = Some converged ∧
     Py.eq converged (Py.VBool true) = true) ∧
  (check_if_kkr_calc_converged kkr_calc = inl (Exception KeyError) ↔
   ∃ d,
     output_parameters kkr_calc = Some d ∧
     (Py.get d "convergence_group" = None ∨
      ∃ group, Py.get d "convergence_group" = Some (Py.VDict group) ∧
               Py.get group "calculation_converged" = None)).
Proof.
  unfold check_if_kkr_calc_converged.
  destruct (output_parameters kkr_calc) as [d|]; [|by break_cases].
  destruct (Py.get d "convergence_group") as [[| | | |l|group]|] eqn:Hg;
    try (break_cases; eauto 10; fail).
  destruct (Py.get group "calculation_converged") as [converged|] eqn:Hc;
    [|break_cases; eauto 10].
  destruct (Py.eq converged (Py.VBool true)) eqn:He; break_cases; eauto 10.
Qed.

(** ** The checker object *)

Lemma cross_check_table const_type env_var_val :
  cross_check const_type env_var_val =
    if decide (const_type =
               match env_var_val with
               | Some s => if String.eqb s "True" then OLD
                           else if String.eqb s "Interim" then INTERIM
                           else NEW
               | None => NEW
               end)
    then Ok () else Raise ValueError.
Proof.
  unfold cross_check, other_value. destruct env_var_val as [s|].
  - destruct (String.eqb_spec s "True") as [->|Ht].
    { by destruct const_type. }
    destruct (String.eqb_spec s "Interim") as [->|Hi].
    { by destruct const_type. }
    rewrite (bool_decide_eq_false_2 (Some s = Some "Interim")) by congruence.
    rewrite (bool_decide_eq_false_2 (Some s = Some "True")) by congruence.
    by destruct const_type.
  - by destruct const_type.
Qed.

(** X2: the constructor completes exactly when the runtime value of the
    constant is the literal of the version that the environment variable
    announces: OLD for ['True'], INTERIM for ['Interim'], NEW when it is
    not set or has another value. In every other case, and always when
    the runtime value is none of the three literals, it raises
    [ValueError]. The new checker has an empty DataFrame. *)
Theorem init_decision_table (runtime : float) (env_var_val : option string) :
  ∃ const_type,
    runtime_type_of runtime = Ok const_type ∧
    const_type ∈ [NEW; INTERIM; OLD; NEITHER] ∧
    __init__ runtime env_var_val =
      if decide (const_type =
                 match env_var_val with
                 | Some s => if String.eqb s "True" then OLD
                             else if String.eqb s "Interim" then INTERIM
                             else NEW
                 | None => NEW
                 end)
      then Ok {| _runtime_const_type := [ ("ANG_BOHR_KKR", Some const_type);
                                          ("RY_TO_EV_KKR", None) ];
                 _df := [] |}
      else Raise ValueError.
Proof.
  unfold __init__, runtime_type_of. cbn [getitem list_find ANG_BOHR_KKR].
  change (getitem ANG_BOHR_KKR NEW) with (Ok 1.8897261246257702%float).
  change (getitem ANG_BOHR_KKR INTERIM) with (Ok 1.8897261249935897%float).
  change (getitem ANG_BOHR_KKR OLD) with (Ok 1.8897261254578281%float).
  cbn [mbind result_bind].
  destruct (PrimFloat.eqb runtime 1.8897261246257702).
  { exists NEW. split; [done|]. split; [set_solver|].
    cbn [mbind result_bind]. rewrite cross_check_table. by case_decide. }
  destruct (PrimFloat.eqb runtime 1.8897261249935897).
  { exists INTERIM. split; [done|]. split; [set_solver|].
    cbn [mbind result_bind]. rewrite cross_check_table. by case_decide. }
  destruct (PrimFloat.eqb runtime 1.8897261254578281).
  { exists OLD. split; [done|]. split; [set_solver|].
    cbn [mbind result_bind]. rewrite cross_check_table. by case_decide. }
  exists NEITHER. split; [done|]. split; [set_solver|].
  cbn [mbind result_bind]. rewrite cross_check_table. by case_decide.
Qed.

(** X3: on a checker that was constructed, [get_runtime_type] gives the
    runtime version for ['ANG_BOHR_KKR'] and [None] for ['RY_TO_EV_KKR'];
    for every other name it raises [KeyError] (the warning it means to
    print reads the missing key). *)
Theorem get_runtime_type_spec runtime env_var_val c :
  __init__ runtime env_var_val = Ok c →
  (∃ const_type, runtime_type_of runtime = Ok const_type ∧
                 get_runtime_type c "ANG_BOHR_KKR" = Ok (Some const_type)) ∧
  get_runtime_type c "RY_TO_EV_KKR" = Ok None ∧
  ∀ constant_name,
    constant_name ≠ "ANG_BOHR_KKR" → constant_name ≠ "RY_TO_EV_KKR" →
    get_runtime_type c constant_name = Raise KeyError.
Proof.
  unfold __init__.
  destruct (runtime_type_of runtime) as [const_type| |]; cbn [mbind result_bind];
    [|done..].
  destruct (cross_check const_type env_var_val) as [[]| |]; cbn [mbind result_bind];
    [|done..].
  intros [= <-]. split; [by exists const_type|]. split; [done|].
  intros constant_name H1 H2. unfold get_runtime_type. simpl.
  rewrite decide_False by congruence. simpl. by rewrite decide_False by congruence.
Qed.

Lemma get_runtime_type_spec_witness :
  ∃ c, __init__ 1.8897261246257702%float None = Ok c ∧
       get_runtime_type c "ANG_BOHR_KKR" = Ok (Some NEW) ∧
       get_runtime_type c "RY_TO_EV_KKR" = Ok None ∧
       get_runtime_type c "ANG_BOHR" = Raise KeyError.
Proof.
  eexists. split; [reflexivity|].
  edestruct (get_runtime_type_spec 1.8897261246257702%float None) as (H1 & H2 & H3);
    [reflexivity|].
  destruct H1 as (t & Ht & Hg). injection Ht as <-.
  split; [exact Hg|]. split; [exact H2|]. by apply H3.
Defined.

Lemma filter_own_labels {A} (df : list (string * A)) :
  filter (λ row, row.1 ∉ df.*1) df = [].
Proof.
  apply elem_of_nil_inv. intros row Hrow.
  apply list_elem_of_filter in Hrow as [Hn Hin]. apply Hn.
  apply list_elem_of_fmap. by exists row.
Qed.

(** X4: [clear] leaves no row, whatever the DataFrame held, and keeps
    the runtime types; a workchain checked before is then checked anew,
    as on a new checker. *)
Theorem clear_then_check np_mean py_float c wc set_extra zt gl :
  _df (clear c) = [] ∧
  _runtime_const_type (clear c) = _runtime_const_type c ∧
  check_single_workchain np_mean py_float (_df (clear c)) wc set_extra zt gl =
  check_single_workchain np_mean py_float [] wc set_extra zt gl.
Proof.
  assert (_df (clear c) = []) as H by apply filter_own_labels.
  by rewrite H.
Qed.

(** ** What [check_single_workchain] does not record *)

(** X5: a workchain that is not in the DataFrame yet and is neither a
    [kkr_scf_wc] nor a [kkr_imp_wc] makes the check raise
    [NotImplementedError]; one of the two without a structure (no input
    structure, no host structure found) makes it raise [AttributeError].
    Neither is skipped. *)
Theorem check_single_workchain_unsupported
    np_mean py_float df wc set_extra zt gl :
  uuid wc ∉ df_index df →
  (process_label wc ≠ "kkr_scf_wc" → process_label wc ≠ "kkr_imp_wc" →
   check_single_workchain np_mean py_float df wc set_extra zt gl
   = Raise NotImplementedError) ∧
  (process_label wc = "kkr_scf_wc" → inputs_structure wc = None →
   check_single_workchain np_mean py_float df wc set_extra zt gl
   = Raise AttributeError) ∧
  (process_label wc = "kkr_imp_wc" → host_structures wc = [] →
   check_single_workchain np_mean py_float df wc set_extra zt gl
   = Raise AttributeError).
Proof.
  intros Hnin. unfold check_single_workchain, query_structure_from.
  rewrite decide_False by done.
  split; [|split].
  - intros H1 H2. by rewrite !decide_False by done.
  - intros H1 H2. rewrite decide_True by done. by rewrite H2.
  - intros H1 H2. rewrite decide_False by (by rewrite H1).
    rewrite decide_True by done. by rewrite H2.
Qed.

Lemma check_single_workchain_unsupported_witness :
  check_single_workchain Kkr.Sample.seq_mean Kkr.Sample.tokens [] Sample.wc_eos
    false 1e-15%float None = Raise NotImplementedError.
Proof.
  apply (check_single_workchain_unsupported Kkr.Sample.seq_mean Kkr.Sample.tokens
           [] Sample.wc_eos false 1e-15%float None); [set_solver|done|done].
Defined.

(** X6: a workchain whose structure can be read but that has no usable
    inputcard is skipped: the DataFrame stays as it is and no extra is
    set. No usable inputcard means: no [kkr_startpot_wc] descendant has a
    Voronoi calculation, or the first Voronoi calculation of the first
    one that has any has no file [inputcard], or that file has not
    exactly one line with [ALATBASIS]. *)
Theorem check_single_workchain_skips
    np_mean py_float df wc set_extra zt gl structure :
  query_structure_from wc = Ok (Some structure) →
  np_shape (cell structure) ≠ None →
  np_shape (sites structure) ≠ None →
  Forall (λ sp, vorocalcs sp = []) (startpots wc) ∨
  (∃ i sp vorocalc rest,
     list_find (λ sp, vorocalcs sp ≠ []) (startpots wc) = Some (i, sp) ∧
     vorocalcs sp = vorocalc :: rest ∧
     (inputcard vorocalc = None ∨
      ∃ card, inputcard vorocalc = Some card ∧
              length (filter (λ line, PyStr.contains "ALATBASIS" line = true) card)
              ≠ 1)) →
  check_single_workchain np_mean py_float df wc set_extra zt gl = Ok (df, None).
Proof.
  intros Hq Hc Hs Hcase. unfold check_single_workchain.
  destruct (decide _); [done|].
  rewrite Hq. cbn [mbind result_bind]. unfold np_array.
  destruct (np_shape (cell structure)); [|done].
  destruct (np_shape (sites structure)); [|done].
  cbn [mbind result_bind].
  assert (read_inputcard py_float wc = Ok None) as ->; [|done].
  unfold read_inputcard.
  destruct Hcase as [Hall|(i & sp & vorocalc & rest & Hfind & Hv & Hcard)].
  - destruct (startpots wc) as [|sp0 sps] eqn:Hsp; [done|].
    destruct (list_find _ _) as [[i sp]|] eqn:Hfind; [|done].
    apply list_find_Some in Hfind as (Hi & Hne & _).
    rewrite Forall_lookup in Hall. by specialize (Hall _ _ Hi).
  - destruct (startpots wc) as [|sp0 sps] eqn:Hsp; [done|].
    rewrite Hfind, Hv.
    destruct Hcard as [->|(card & -> & Hlen)]; [done|].
    destruct (filter _ card) as [|line [|line2 lines]]; try done.
Qed.

Lemma check_single_workchain_skips_witness :
  check_single_workchain Kkr.Sample.seq_mean Kkr.Sample.tokens []
    Sample.wc_without_startpot true 1e-15%float None = Ok ([], None).
Proof.
  apply (check_single_workchain_skips Kkr.Sample.seq_mean Kkr.Sample.tokens []
           Sample.wc_without_startpot true 1e-15%float None Kkr.Sample.cubic);
    [reflexivity|done|done|].
  left. constructor.
Defined.

(** X7: when the inputcard's [BRAVAIS] block has not the shape of the
    structure's cell (it is missing, say), or, the two agreeing, the
    [<RBASIS>] block has not the shape of the site positions, the check
    does not skip the workchain: it raises [TypeError], from extending
    the sample list by the [None] that the mismatch returns. *)
Theorem check_single_workchain_shape_mismatch
    np_mean py_float df wc set_extra zt gl structure card :
  uuid wc ∉ df_index df →
  query_structure_from wc = Ok (Some structure) →
  np_shape (cell structure) ≠ None →
  np_shape (sites structure) ≠ None →
  read_inputcard py_float wc = Ok (Some card) →
  np_shape (BRAVAIS card) ≠ np_shape (cell structure) ∨
  (np_shape (BRAVAIS card) = np_shape (cell structure) ∧
   shape_size (np_shape (BRAVAIS card)) ≠ 0 ∧
   np_shape (POSITIONS card) ≠ np_shape (sites structure)) →
  check_single_workchain np_mean py_float df wc set_extra zt gl = Raise TypeError.
Proof.
  intros Hnin Hq Hc Hs Hr Hcase. unfold check_single_workchain.
  rewrite decide_False by done.
  rewrite Hq. cbn [mbind result_bind]. unfold np_array.
  destruct (np_shape (cell structure)) eqn:Ec; [|done].
  destruct (np_shape (sites structure)) eqn:Es; [|done].
  cbn [mbind result_bind]. rewrite Hr. cbn [mbind result_bind].
  unfold reverse_calc, reverse_calc_ANG_BOHR_KKR.
  rewrite !KkrFacts.np_shape_set_zero, Ec, Es.
  destruct Hcase as [Hb|(Hb & Hsize & Hp)].
  - destruct (decide (np_shape (BRAVAIS card) = Some s)); [done|reflexivity].
  - destruct (decide (np_shape (BRAVAIS card) = Some s)); [|done].
    destruct (Nat.eqb_spec (shape_size (np_shape (BRAVAIS card))) 0); [done|].
    cbn [mbind result_bind extend app].
    destruct (decide (np_shape (POSITIONS card) = Some s0)); [done|reflexivity].
Qed.

Lemma check_single_workchain_shape_mismatch_witness :
  check_single_workchain Kkr.Sample.seq_mean Kkr.Sample.tokens []
    Sample.wc_without_bravais false 1e-15%float None = Raise TypeError.
Proof.
  eapply (check_single_workchain_shape_mismatch Kkr.Sample.seq_mean
            Kkr.Sample.tokens [] Sample.wc_without_bravais false 1e-15%float None
            Kkr.Sample.cubic);
    [set_solver|reflexivity|done|done|vm_compute; reflexivity|].
  left. vm_compute. discriminate.
Defined.

(** ** What [check_single_workchain] records *)

Lemma check_single_workchain_row_inv
    np_mean py_float df wc set_extra zt gl df' ex :
  check_single_workchain np_mean py_float df wc set_extra zt gl = Ok (df', ex) →
  df' ≠ df →
  ∃ ang c group,
    classify ang = Ok c ∧
    df' = df ++ [(uuid wc,
                  {| row_ctime := ctime wc;
                     row_group := group;
                     row_ANG_BOHR_KKR := ang;
                     row_constants_version := c;
                     row_diff_new :=
                       PrimFloat.abs (PrimFloat.sub ang 1.8897261246257702);
                     row_diff_old :=
                       PrimFloat.abs (PrimFloat.sub ang 1.8897261254578281);
                     row_diff_interim :=
                       PrimFloat.abs (PrimFloat.sub ang 1.8897261249935897) |})].
Proof.
  unfold check_single_workchain.
  destruct (decide (uuid wc ∈ df_index df)) as [Hin|Hnin].
  { by intros [= <- <-]. }
  destruct (query_structure_from wc) as [[structure|]| |]; simpl; try done.
  unfold np_array.
  destruct (np_shape (cell structure)); simpl; [|done].
  destruct (np_shape (sites structure)); simpl; [|done].
  destruct (read_inputcard py_float wc) as [[card|]| |]; simpl; try done.
  2:{ by intros [= <- <-]. }
  destruct (reverse_calc _ _ _ _) as [ang| |]; simpl; try done.
  destruct (classify ang) as [c| |] eqn:Hcl; simpl; try done.
  intros H _. exists ang, c.
  destruct set_extra.
  - destruct (decide (c ∈ [NEW; INTERIM; OLD])).
    + destruct (getitem ANG_BOHR_KKR c); simpl in H; [|done..].
      destruct (getitem RY_TO_EV_KKR c); simpl in H; [|done..].
      injection H as <- <-. by eexists.
    + injection H as <- <-. by eexists.
  - injection H as <- <-. by eexists.
Qed.

(** X8: a recorded row holds the absolute differences of its value to
    the three literals. The difference of the recorded version equals
    the least of the three (Python's [min] over them), and when the
    difference to NEW is the least, NEW is recorded, also when another
    version is as close. *)
Theorem check_single_workchain_row
    np_mean py_float df wc set_extra zt gl df' ex :
  check_single_workchain np_mean py_float df wc set_extra zt gl = Ok (df', ex) →
  df' ≠ df →
  ∃ row,
    df' = df ++ [(uuid wc, row)] ∧
    row_ctime row = ctime wc ∧
    row_diff_new row =
      PrimFloat.abs (PrimFloat.sub (row_ANG_BOHR_KKR row) 1.8897261246257702) ∧
    row_diff_interim row =
      PrimFloat.abs (PrimFloat.sub (row_ANG_BOHR_KKR row) 1.8897261249935897) ∧
    row_diff_old row =
      PrimFloat.abs (PrimFloat.sub (row_ANG_BOHR_KKR row) 1.8897261254578281) ∧
    let least := py_min (row_diff_new row) [row_diff_interim row; row_diff_old row] in
    PrimFloat.eqb
      match row_constants_version row with
      | NEW => row_diff_new row
      | INTERIM => row_diff_interim row
      | OLD => row_diff_old row
      | NEITHER | UNDECISIVE => PrimFloat.nan
      end least = true ∧
    (PrimFloat.eqb (row_diff_new row) least = true → row_constants_version row = NEW).
Proof.
  intros H Hne.
  apply check_single_workchain_row_inv in H as (ang & c & group & Hcl & ->); [|done].
  eexists. split; [reflexivity|]. cbn [row_ctime row_diff_new row_diff_interim
    row_diff_old row_ANG_BOHR_KKR row_constants_version].
  do 4 (split; [reflexivity|]).
  rewrite KkrFacts.classify_table_order in Hcl. cbv zeta in Hcl |- *.
  destruct (PrimFloat.eqb (PrimFloat.abs (PrimFloat.sub ang 1.8897261246257702)) _)
    eqn:EN.
  { injection Hcl as <-. done. }
  destruct (PrimFloat.eqb (PrimFloat.abs (PrimFloat.sub ang 1.8897261249935897)) _)
    eqn:EI.
  { injection Hcl as <-. done. }
  destruct (PrimFloat.eqb (PrimFloat.abs (PrimFloat.sub ang 1.8897261254578281)) _)
    eqn:EO; [|done].
  injection Hcl as <-. done.
Qed.

Lemma check_single_workchain_row_witness :
  ∃ row,
    check_single_workchain Kkr.Sample.seq_mean Kkr.Sample.tokens []
      Kkr.Sample.wc_new false 1e-15%float None = Ok ([("wc-new", row)], None) ∧
    row_diff_new row = 0%float ∧
    row_constants_version row = NEW.
Proof.
  destruct (check_single_workchain_row Kkr.Sample.seq_mean Kkr.Sample.tokens
              [] Kkr.Sample.wc_new false 1e-15%float None _ None eq_refl)
    as (row & Hdf & _ & Hnew & _ & _ & _ & Hfirst).
  { vm_compute. discriminate. }
  vm_compute in Hdf. injection Hdf as Hrow.
  exists row. split; [vm_compute; by rewrite Hrow|].
  rewrite <- Hrow. split; vm_compute; reflexivity.
Defined.

(** X9: when the reverse-calculated value is NaN (no sample is left to
    average, say, and the mean of nothing is NaN), no difference equals
    the least one and the check raises [IndexError]; nothing is
    recorded. *)
Theorem check_single_workchain_nan
    np_mean py_float df wc set_extra zt gl structure card :
  uuid wc ∉ df_index df →
  query_structure_from wc = Ok (Some structure) →
  np_shape (cell structure) ≠ None →
  np_shape (sites structure) ≠ None →
  read_inputcard py_float wc = Ok (Some card) →
  reverse_calc np_mean card
    (set_zero_below_threshold (cell structure) zt)
    (set_zero_below_threshold (sites structure) zt) = Ok PrimFloat.nan →
  check_single_workchain np_mean py_float df wc set_extra zt gl = Raise IndexError.
Proof.
  intros Hnin Hq Hc Hs Hr Hnan. unfold check_single_workchain.
  rewrite decide_False by done.
  rewrite Hq. cbn [mbind result_bind]. unfold np_array.
  destruct (np_shape (cell structure)); [|done].
  destruct (np_shape (sites structure)); [|done].
  cbn [mbind result_bind]. rewrite Hr. cbn [mbind result_bind].
  rewrite Hnan. reflexivity.
Qed.

Lemma check_single_workchain_nan_witness :
  check_single_workchain Kkr.Sample.seq_mean Kkr.Sample.tokens []
    Sample.wc_zeros false 1e-15%float None = Raise IndexError.
Proof.
  eapply (check_single_workchain_nan Kkr.Sample.seq_mean Kkr.Sample.tokens []
            Sample.wc_zeros false 1e-15%float None Sample.zeros);
    [set_solver|reflexivity|done|done|vm_compute; reflexivity
    |vm_compute; reflexivity].
Defined.

(** ** Checking a group *)

Lemma check_workchains_rows np_mean py_float wcs : ∀ df set_extra zt gl df',
  check_workchains np_mean py_float df wcs set_extra zt gl = Ok df' →
  ∃ rows, df' = df ++ rows ∧
          ∀ u, u ∈ rows.*1 → ∃ wc, wc ∈ wcs ∧ uuid wc = u.
Proof.
  induction wcs as [|wc wcs IH]; intros df set_extra zt gl df'; simpl.
  { intros [= <-]. exists []. split; [by rewrite app_nil_r|]. by inversion 1. }
  destruct (check_single_workchain _ _ df wc _ _ _) as [[df1 ex]| |] eqn:E;
    simpl; [|done..].
  intros H. apply IH in H as (rows & -> & Hrows).
  apply KkrFacts.check_single_workchain_appends in E
    as [[-> _]|(Hnin & row & ->)].
  - exists rows. split; [done|]. intros u Hu.
    destruct (Hrows u Hu) as (wc' & Hwc' & <-). exists wc'. split; [by right|done].
  - exists ((uuid wc, row) :: rows). split; [by rewrite <- app_assoc|].
    intros u Hu. rewrite fmap_cons in Hu. apply elem_of_cons in Hu as [->|Hu].
    + exists wc. split; [by left|done].
    + destruct (Hrows u Hu) as (wc' & Hwc' & <-). exists wc'.
      split; [by right|done].
Qed.

(** X10: [check_workchain_group] on a DataFrame with one row per UUID
    leaves one row per UUID, keeps the rows that were there, and adds
    rows only for nodes of the group whose process label is one of
    [process_labels] and that had no row yet; without process labels it
    does nothing. *)
Theorem check_workchain_group_rows
    np_mean py_float df group_label group_nodes process_labels set_extra zt df' :
  NoDup (df_index df) →
  check_workchain_group np_mean py_float df group_label group_nodes
    process_labels set_extra zt = Ok df' →
  NoDup (df_index df') ∧
  (process_labels = [] → df' = df) ∧
  ∃ rows,
    df' = df ++ rows ∧
    ∀ u, u ∈ rows.*1 →
         (u ∉ df_index df) ∧
         ∃ node, node ∈ group_nodes ∧ uuid node = u ∧
                 process_label node ∈ process_labels.
Proof.
  intros Hnd. unfold check_workchain_group.
  destruct process_labels as [|l ls].
  { intros [= <-]. split; [done|]. split; [done|]. exists [].
    split; [by rewrite app_nil_r|]. by inversion 1. }
  intros H.
  pose proof (KkrFacts.check_workchains_NoDup _ _ _ _ _ _ _ _ Hnd H) as Hnd'.
  split; [done|]. split; [done|].
  apply check_workchains_rows in H as (rows & -> & Hrows).
  exists rows. split; [done|]. intros u Hu. split.
  - unfold df_index in Hnd'. rewrite fmap_app in Hnd'.
    apply NoDup_app in Hnd' as (_ & Hdisj & _). intros Hin. by apply (Hdisj u).
  - destruct (Hrows u Hu) as (wc & Hwc & <-).
    apply list_elem_of_filter in Hwc as [Hl Hwc]. by exists wc.
Qed.

Lemma check_workchain_group_rows_witness :
  ∃ df',
    check_workchain_group Kkr.Sample.seq_mean Kkr.Sample.tokens [] "group"
      [Kkr.Sample.wc_new; Sample.wc_eos; Kkr.Sample.wc_new] ["kkr_scf_wc"]
      false 1e-15%float = Ok df' ∧
    df_index df' = ["wc-new"] ∧
    NoDup (df_index df').
Proof.
  eexists. split; [vm_compute; reflexivity|]. split; [reflexivity|].
  match goal with
  | |- NoDup (df_index ?d) =>
      apply (check_workchain_group_rows Kkr.Sample.seq_mean Kkr.Sample.tokens []
               "group" [Kkr.Sample.wc_new; Sample.wc_eos; Kkr.Sample.wc_new]
               ["kkr_scf_wc"] false 1e-15%float d);
        [apply NoDup_nil_2|vm_compute; reflexivity]
  end.
Defined.

(** ** The provenance check *)

Ltac outcome r printed :=
  exists r, printed; rewrite ?app_nil_r;
  split; [reflexivity|]; split; [done|]; split; [done|];
  split; [simpl; lia|]; split; [try done|];
  intros sv iv; split; intros H.

Lemma version_extra_not_Diverges extras : version_extra extras ≠ Diverges.
Proof.
  unfold version_extra, Py.getitem, subscript.
  destruct (Py.get extras _) as [[| | | | |d]|]; simpl; try done.
  unfold Py.getitem. by destruct (Py.get d _).
Qed.

(** X11: [check_single_workchain_provenance] prints at most one message
    and never raises [KeyError] (a missing extra is reported). For a
    workchain that is no [kkr_imp_wc] it only reports that. It reports a
    mismatch exactly when the workchain is a [kkr_imp_wc], its version
    extra and that of the first [kkr_scf_wc] behind its first host
    [RemoteData] can both be read, and the two differ. *)
Theorem check_single_workchain_provenance_spec (wc : ProvenanceNode) out :
  ∃ r printed,
    check_single_workchain_provenance wc out = (r, out ++ printed) ∧
    r ≠ Raise KeyError ∧ r ≠ Diverges ∧
    length printed ≤ 1 ∧
    (wc_process_label wc ≠ "kkr_imp_wc" → r = Ok () ∧ printed = [NotSupported]) ∧
    ∀ scf_version imp_version,
      Mismatch scf_version imp_version ∈ printed ↔
      wc_process_label wc = "kkr_imp_wc" ∧
      version_extra (wc_extras wc) = Ok imp_version ∧
      (∃ remote scf,
         head (remote_data_host wc) = Some remote ∧
         head (scf_parents remote) = Some scf ∧
         version_extra (scf_extras scf) = Ok scf_version) ∧
      Py.eq imp_version scf_version = false.
Proof.
  unfold check_single_workchain_provenance.
  destruct (String.eqb_spec (wc_process_label wc) "kkr_imp_wc") as [Hl|Hl];
    cbn [negb].
  2:{ outcome (@Ok unit ()) [NotSupported].
      - apply list_elem_of_singleton in H. done.
      - by destruct H. }
  pose proof (version_extra_not_Diverges (wc_extras wc)) as Hnd.
  destruct (version_extra (wc_extras wc)) as [imp_version|e|] eqn:Ei; [| |done].
  2:{ destruct e.
      4:{ outcome (@Ok unit ()) [MissingExtra].
          - apply list_elem_of_singleton in H. done.
          - by destruct H as (_ & ? & _). }
      all: match goal with
           | |- context [raise ?e] => outcome (@Raise unit e) (@nil message)
           end; [by inversion H|by destruct H as (_ & ? & _)..]. }
  destruct (remote_data_host wc) as [|remote remotes] eqn:Er.
  { outcome (@Raise unit IndexError) (@nil message).
    - by inversion H.
    - by destruct H as (_ & _ & (? & ? & ? & _) & _). }
  destruct (scf_parents remote) as [|scf scfs] eqn:Es.
  { outcome (@Ok unit ()) [NoScfAncestor].
    - apply list_elem_of_singleton in H. done.
    - destruct H as (_ & _ & (? & ? & [= <-] & Hh & _) & _). by rewrite Es in Hh. }
  pose proof (version_extra_not_Diverges (scf_extras scf)) as Hnd'.
  destruct (version_extra (scf_extras scf)) as [scf_version|e|] eqn:Ev; [| |done].
  2:{ destruct e.
      4:{ outcome (@Ok unit ()) [MissingExtra].
          - apply list_elem_of_singleton in H. done.
          - destruct H as (_ & _ & (? & ? & [= <-] & Hh & ?) & _).
            rewrite Es in Hh. injection Hh as <-. congruence. }
      all: match goal with
           | |- context [raise ?e] => outcome (@Raise unit e) (@nil message)
           end;
           [by inversion H
           |destruct H as (_ & _ & (? & ? & [= <-] & Hh & ?) & _);
            rewrite Es in Hh; injection Hh as <-; congruence..]. }
  destruct (Py.eq imp_version scf_version) eqn:Heq; cbn [negb when].
  - outcome (@Ok unit ()) (@nil message).
    + by inversion H.
    + destruct H as (_ & [= <-] & (? & ? & [= <-] & Hh & Hv) & Hne).
      rewrite Es in Hh. injection Hh as <-. congruence.
  - outcome (@Ok unit ()) [Mismatch scf_version imp_version].
    + apply list_elem_of_singleton in H. injection H as -> ->.
      split; [done|]. split; [done|]. split; [|done].
      exists remote, scf. by rewrite Es.
    + destruct H as (_ & [= <-] & (? & ? & [= <-] & Hh & Hv) & Hne).
      rewrite Es in Hh. injection Hh as <-.
      assert (sv = scf_version) as -> by congruence.
      by apply list_elem_of_singleton.
Qed.

Lemma check_single_workchain_provenance_imp (wc : ProvenanceNode) out :
  wc_process_label wc = "kkr_imp_wc" →
  ∃ r printed,
    check_single_workchain_provenance wc out = (r, out ++ printed) ∧
    length printed ≤ 1 ∧
    (NotSupported ∉ printed) ∧ UnsupportedLabels ∉ printed.
Proof.
  intros Hl. unfold check_single_workchain_provenance. rewrite Hl.
  cbn [String.eqb Ascii.eqb Bool.eqb negb].
  unfold print, raise, diverge, when, ret.
  repeat match goal with
         | |- context [match ?x with _ => _ end] => destruct x
         end;
    cbn [negb];
    first [ eexists _, [_]; split; [reflexivity|]; split; [simpl; lia|];
            split; by intros ?%list_elem_of_singleton
          | eexists _, []; split; [by rewrite app_nil_r|]; split; [simpl; lia|];
            split; apply not_elem_of_nil ].
Qed.

Lemma check_workchains_provenance (nodes : list ProvenanceNode) out :
  Forall (λ node, wc_process_label node = "kkr_imp_wc") nodes →
  ∃ r printed,
    forM nodes check_single_workchain_provenance out = (r, out ++ printed) ∧
    length printed ≤ length nodes ∧
    (NotSupported ∉ printed) ∧ UnsupportedLabels ∉ printed.
Proof.
  intros H. revert out. induction H as [|wc nodes Hwc _ IH]; intros out.
  - exists (Ok ()), []. rewrite app_nil_r.
    split; [done|]. split; [done|]. split; apply not_elem_of_nil.
  - destruct (check_single_workchain_provenance_imp wc out Hwc)
      as (r & printed & E & Hlen & Hn & Hu).
    cbn [forM]. unfold bindM at 1. rewrite E.
    destruct r as [[]| |].
    + destruct (IH (out ++ printed)) as (r' & printed' & E' & Hlen' & Hn' & Hu').
      exists r', (printed ++ printed'). rewrite E', app_assoc.
      split; [done|]. split; [rewrite length_app; simpl; lia|].
      split; intros [?|?]%elem_of_app; done.
    + exists (Raise e), printed. split; [done|]. split; [simpl; lia|done].
    + exists Diverges, printed. split; [done|]. split; [simpl; lia|done].
Qed.

(** X23: [check_workchain_group_provenance] with a list of process
    labels other than [['kkr_imp_wc']] prints its warning and checks
    nothing. With [['kkr_imp_wc']] it checks the [kkr_imp_wc] nodes of the
    group and no others: it prints at most one message for each of them
    and never that a workchain is not supported. *)
Theorem check_workchain_group_provenance_spec
    (group_nodes : list ProvenanceNode) (process_labels : list string) out :
  ∃ r printed,
    check_workchain_group_provenance group_nodes process_labels out
      = (r, out ++ printed) ∧
    (process_labels ≠ ["kkr_imp_wc"] → r = Ok () ∧ printed = [UnsupportedLabels]) ∧
    (process_labels = ["kkr_imp_wc"] →
       length printed
         ≤ length (filter (λ node, wc_process_label node = "kkr_imp_wc") group_nodes) ∧
       (NotSupported ∉ printed) ∧ UnsupportedLabels ∉ printed).
Proof.
  unfold check_workchain_group_provenance.
  destruct (decide (process_labels = ["kkr_imp_wc"])) as [->|Hne].
  - rewrite bool_decide_eq_true_2 by done. cbn [nonempty length Nat.eqb negb orb].
    destruct (check_workchains_provenance
                (filter (λ node, wc_process_label node ∈ ["kkr_imp_wc"]) group_nodes)
                out) as (r & printed & E & Hlen & Hn & Hu).
    { apply Forall_forall. intros node [Hin _]%list_elem_of_filter.
      by apply list_elem_of_singleton in Hin. }
    exists r, printed. split; [exact E|]. split; [done|]. intros _.
    split; [|done].
    erewrite (list_filter_iff _ (λ node, wc_process_label node ∈ ["kkr_imp_wc"]));
      [exact Hlen|].
    intros node. by rewrite list_elem_of_singleton.
  - rewrite (bool_decide_eq_false_2 _ Hne). rewrite orb_true_r.
    exists (Ok ()), [UnsupportedLabels]. by split.
Qed.

End KkrToolsFacts.

(** * Properties of [get_options], [initialize] and [options] *)

Module OptionsMoreFacts.
Import Py Orm Options OptionsMore.

(** ** Method bodies that leave the store alone *)

Lemma keeps_ret {A} (a : A) : keeps_store (ret a).
Proof. done. Qed.
Lemma keeps_raise {A} e : keeps_store (@raise World A e).
Proof. done. Qed.
Lemma keeps_diverge {A} : keeps_store (@diverge World A).
Proof. done. Qed.
Lemma keeps_lift {A} (r : result A) : keeps_store (lift r).
Proof. done. Qed.
Lemma keeps_get_config : keeps_store get_config.
Proof. done. Qed.
Lemma keeps_get_store : keeps_store get_store.
Proof. done. Qed.
Lemma keeps_put_config c : keeps_store (put_config c).
Proof. done. Qed.
Lemma keeps_modify_config f : keeps_store (modify_config f).
Proof. done. Qed.
Lemma keeps_warn x : keeps_store (warn x).
Proof. done. Qed.

Lemma keeps_bind {A B} (m : M World A) (k : A → M World B) :
  keeps_store m → (∀ a, keeps_store (k a)) → keeps_store (bindM m k).
Proof.
  intros Hm Hk w. unfold bindM. specialize (Hm w).
  destruct (m w) as [[a|e|] w1]; simpl in *; [by rewrite Hk|done..].
Qed.

Lemma keeps_when b (m : M World unit) : keeps_store m → keeps_store (when b m).
Proof. by destruct b. Qed.

Lemma keeps_forM {A} (l : list A) (f : A → M World unit) :
  (∀ a, keeps_store (f a)) → keeps_store (forM l f).
Proof.
  intros Hf. induction l as [|a l IH]; simpl; [done|].
  apply keeps_bind; [apply Hf|done].
Qed.

Create HintDb keeps discriminated.

Ltac keeps :=
  repeat first
    [ solve [auto 1 with keeps nocore]
    | progress cbv zeta
    | apply keeps_ret | apply keeps_raise | apply keeps_diverge | apply keeps_lift
    | apply keeps_get_config | apply keeps_get_store | apply keeps_put_config
    | apply keeps_modify_config | apply keeps_warn
    | assumption
    | apply keeps_bind; [|intros ?]
    | apply keeps_when
    | match goal with
      | H : ∀ _, keeps_store _ |- keeps_store _ => apply H
      | |- keeps_store (match ?x with _ => _ end) => destruct x
      end ].

Lemma keeps__check_if_initalized : keeps_store _check_if_initalized.
Proof. unfold _check_if_initalized. keeps. Qed.
#[local] Hint Resolve keeps__check_if_initalized : keeps.

Lemma keeps_groups : keeps_store groups.
Proof. unfold groups. keeps. Qed.
#[local] Hint Resolve keeps_groups : keeps.

Lemma keeps__update_options : keeps_store _update_options.
Proof. unfold _update_options. keeps. Qed.
#[local] Hint Resolve keeps__update_options : keeps.

Lemma keeps_options : keeps_store options.
Proof.
  unfold options. keeps.
Qed.
#[local] Hint Resolve keeps_options : keeps.

Section Keeps.
Variable spec_options_keys : list string.
Variable get_computers : string → list Computer.
Variable get_queues : Computer → option bool → exn + list string.
Variable a : Arguments.

Lemma keeps_validate_kwargs :
  keeps_store (validate_kwargs spec_options_keys get_computers a).
Proof. unfold validate_kwargs. keeps. Qed.
#[local] Hint Resolve keeps_validate_kwargs : keeps.

Lemma keeps_queues_from_config cs : ∀ kept,
  keeps_store (queues_from_config get_queues a cs kept).
Proof. induction cs as [|computer cs IH]; intros kept; simpl; keeps. Qed.
#[local] Hint Resolve keeps_queues_from_config : keeps.

Lemma keeps_queues_from_query cs :
  keeps_store (queues_from_query get_queues a cs).
Proof. induction cs as [|computer cs IH]; simpl; keeps. Qed.
#[local] Hint Resolve keeps_queues_from_query : keeps.

Lemma keeps_mandatory_queue_name queue_name :
  keeps_store (mandatory_queue_name get_computers get_queues a queue_name).
Proof.
  unfold mandatory_queue_name. keeps.
Qed.
#[local] Hint Resolve keeps_mandatory_queue_name : keeps.

Lemma keeps_mandatory_loop keys : ∀ queue_name,
  keeps_store (mandatory_loop get_computers get_queues a keys queue_name).
Proof.
  induction keys as [|key keys IH]; intros queue_name; simpl; [keeps|].
  unfold mandatory_account. keeps.
Qed.
#[local] Hint Resolve keeps_mandatory_loop : keeps.

Lemma keeps_kwargs_filters kw : keeps_store (kwargs_filters kw).
Proof.
  induction kw as [|[attr val] kw IH]; simpl; [keeps|].
  apply keeps_bind; [|intros ?; keeps].
  destruct val; keeps.
  induction d as [|[subattr subvalue] items IHi]; keeps.
Qed.
#[local] Hint Resolve keeps_kwargs_filters : keeps.

Lemma keeps_query_filters queue_name valid_kwargs :
  keeps_store (query_filters a queue_name valid_kwargs).
Proof. unfold query_filters. keeps. Qed.
#[local] Hint Resolve keeps_query_filters : keeps.

Lemma keeps_determine_mpiprocs queue_name val :
  keeps_store (determine_mpiprocs get_computers queue_name val).
Proof. unfold determine_mpiprocs. keeps. Qed.
#[local] Hint Resolve keeps_determine_mpiprocs : keeps.

Lemma keeps_case_loop queue_name case : ∀ opt_dict,
  keeps_store (case_loop get_computers a queue_name case opt_dict).
Proof.
  induction case as [|[cond_attr val] case IH]; intros opt_dict; simpl; keeps.
Qed.
#[local] Hint Resolve keeps_case_loop : keeps.

Lemma keeps_conditional_loop queue_name cond : ∀ opt_dict,
  keeps_store (conditional_loop get_computers a queue_name cond opt_dict).
Proof.
  induction cond as [|[attr cs] cond IH]; intros opt_dict; simpl; keeps.
Qed.
#[local] Hint Resolve keeps_conditional_loop : keeps.

Lemma keeps_write_shared b attr v : keeps_store (write_shared b attr v).
Proof. unfold write_shared. keeps. Qed.
#[local] Hint Resolve keeps_write_shared : keeps.

Lemma keeps_add_kwargs kw : ∀ opt_dict, keeps_store (add_kwargs a kw opt_dict).
Proof.
  induction kw as [|[attr val] kw IH]; intros opt_dict; simpl; keeps.
Qed.
#[local] Hint Resolve keeps_add_kwargs : keeps.

Lemma keeps_check_resources res : ∀ invalid_stored invalid_unstored,
  keeps_store (check_resources res invalid_stored invalid_unstored).
Proof. induction res as [|opt res IH]; intros ??; simpl; keeps. Qed.
#[local] Hint Resolve keeps_check_resources : keeps.

Lemma keeps_return_valid res : keeps_store (return_valid a res).
Proof. unfold return_valid. keeps. Qed.
#[local] Hint Resolve keeps_return_valid : keeps.

(** ** What creating an options node does to the store *)

Lemma bindM_keeps {A B} (m : M World A) (k : A → M World B) w r w' :
  keeps_store m →
  bindM m k w = (r, w') →
  (∃ x w1, m w = (Ok x, w1) ∧ store w1 = store w ∧ k x w1 = (r, w')) ∨
  (store w' = store w ∧ ∀ b, r ≠ Ok b).
Proof.
  intros Hm. unfold bindM. specialize (Hm w).
  destruct (m w) as [[x|e|] w1]; simpl in *.
  - intros H. left. by exists x, w1.
  - intros [= <- <-]. by right.
  - intros [= <- <-]. by right.
Qed.

Lemma add_nodes_effect g0 n st :
  all_nodes (add_nodes g0 [n] st) = all_nodes st ∧
  length (all_groups (add_nodes g0 [n] st)) = length (all_groups st) ∧
  ∀ g, grp_label (add_nodes g0 [n] st) g = grp_label st g ∧
       grp_description (add_nodes g0 [n] st) g = grp_description st g ∧
       grp_is_stored (add_nodes g0 [n] st) g = grp_is_stored st g ∧
       (grp_nodes (add_nodes g0 [n] st) g = grp_nodes st g ∨
        ((n ∉ grp_nodes st g) ∧
         grp_nodes (add_nodes g0 [n] st) g = grp_nodes st g ++ [n])).
Proof.
  split; [done|]. split.
  { unfold add_nodes, alter_group. simpl. by rewrite length_alter. }
  intros g.
  unfold grp_label, grp_description, grp_is_stored, grp_nodes, group, add_nodes,
    alter_group. simpl.
  rewrite list_lookup_alter.
  destruct (decide (g0 = g)) as [->|Hne]; [|repeat split; by left].
  destruct (all_groups st !! g) as [x|] eqn:Hx; simpl; [|repeat split; by left].
  repeat split; try done.
  destruct (decide (n ∈ nodes x)) as [Hin|Hnin].
  - left. rewrite filter_cons, decide_False by (intros Hn'; by apply Hn').
    by rewrite filter_nil, app_nil_r.
  - right. split; [done|]. by rewrite filter_cons, decide_True, filter_nil by done.
Qed.

Lemma foldl_add_nodes_effect n gs : ∀ st,
  all_nodes (foldl (λ st g, add_nodes g [n] st) st gs) = all_nodes st ∧
  length (all_groups (foldl (λ st g, add_nodes g [n] st) st gs))
  = length (all_groups st) ∧
  ∀ g, grp_label (foldl (λ st g, add_nodes g [n] st) st gs) g = grp_label st g ∧
       grp_description (foldl (λ st g, add_nodes g [n] st) st gs) g
       = grp_description st g ∧
       grp_is_stored (foldl (λ st g, add_nodes g [n] st) st gs) g
       = grp_is_stored st g ∧
       (grp_nodes (foldl (λ st g, add_nodes g [n] st) st gs) g = grp_nodes st g ∨
        ((n ∉ grp_nodes st g) ∧
         grp_nodes (foldl (λ st g, add_nodes g [n] st) st gs) g
         = grp_nodes st g ++ [n])).
Proof.
  induction gs as [|g0 gs IH]; intros st; simpl.
  { split; [done|]. split; [done|]. intros g. repeat split; by left. }
  destruct (IH (add_nodes g0 [n] st)) as (Hn & Hl & Hg).
  destruct (add_nodes_effect g0 n st) as (Hn0 & Hl0 & Hg0).
  split; [by rewrite Hn|]. split; [by rewrite Hl|].
  intros g. destruct (Hg g) as (H1 & H2 & H3 & H4).
  destruct (Hg0 g) as (K1 & K2 & K3 & K4).
  rewrite H1, H2, H3, K1, K2, K3. repeat split; try done.
  destruct K4 as [K4|[Kn K4]].
  - rewrite K4 in H4. done.
  - rewrite K4 in H4. destruct H4 as [H4|[Hn' _]].
    + right. done.
    + exfalso. apply Hn'. apply elem_of_app. right. by left.
Qed.

Lemma set_label_new st l d label :
  all_nodes (set_label (new_Dict st l d).2 label (new_Dict st l d).1)
  = all_nodes st ++ [ {| type := TDict; label := label; attributes := d;
                         is_stored := false |} ] ∧
  all_groups (set_label (new_Dict st l d).2 label (new_Dict st l d).1)
  = all_groups st.
Proof.
  unfold set_label, new_Dict, alter_node. simpl. split; [|done].
  rewrite alter_app_r_alt by lia. by rewrite Nat.sub_diag.
Qed.

Lemma store_node_new st x :
  all_nodes (store_node (length (all_nodes st))
               {| all_nodes := all_nodes st ++ [x]; all_groups := all_groups st |})
  = all_nodes st ++ [ {| type := type x; label := label x;
                         attributes := attributes x; is_stored := true |} ].
Proof.
  unfold store_node, alter_node. simpl.
  rewrite alter_app_r_alt by lia. by rewrite Nat.sub_diag.
Qed.

Lemma groups_Ok w : ∃ w1, groups w = (Ok (_groups (config w1)), w1) ∧
                          store w1 = store w ∧ config w1 = config w.
Proof.
  unfold groups, _check_if_initalized, bindM, get_config, when, warn, ret. simpl.
  destruct (_is_initialized (config w)); simpl.
  - by exists w.
  - by exists {| config := config w; store := store w;
                 printed := printed w ++ [NotInitialized] |}.
Qed.

(** Creating an options node either ends early, with the store as it
    was, or returns the id of the one node it has added. *)
Lemma create_options_effect queue_name valid_kwargs w r w' :
  create_options get_computers a queue_name valid_kwargs w = (r, w') →
  (store w' = store w ∧ ∀ n, r ≠ Ok n) ∨
  (r = Ok (length (all_nodes (store w))) ∧
   adds_node (store w) (store w') ∧
   (store_if_not_exist a = false →
    all_groups (store w') = all_groups (store w) ∧
    node_is_stored (store w') (length (all_nodes (store w))) = false)).
Proof.
  unfold create_options. unfold bindM at 1, get_config at 1. intros H.
  apply bindM_keeps in H as [(opt_dict & w1 & E1 & Hs1 & H)|?];
    [|by left|apply keeps_conditional_loop].
  apply bindM_keeps in H as [(opt_dict2 & w2 & E2 & Hs2 & H)|[Hs ?]];
    [|left; by rewrite Hs, Hs1|apply keeps_add_kwargs].
  unfold bindM at 1, get_store at 1 in H.
  rewrite Hs2, Hs1 in H.
  match type of H with
  | context [new_Dict (store w) ?l ?d] =>
      pose proof (set_label_new (store w) l d
                    (opt_label a queue_name (config w))) as [Hnodes Hgroups];
      destruct (new_Dict (store w) l d) as [st n] eqn:En
  end.
  assert (n = length (all_nodes (store w))) as Hn.
  { unfold new_Dict in En. by injection En as <- <-. }
  cbn [fst snd] in Hnodes, Hgroups.
  set (st2 := set_label n (opt_label a queue_name (config w)) st) in *.
  assert (st2 = {| all_nodes := all_nodes (store w) ++
                     [ {| type := TDict;
                          label := opt_label a queue_name (config w);
                          attributes := opt_dict2; is_stored := false |} ];
                   all_groups := all_groups (store w) |}) as Est2.
  { destruct st2. simpl in *. by rewrite Hnodes, Hgroups. }
  clearbody st2. subst st2.
  unfold bindM at 1, put_store at 1 in H.
  right. destruct (store_if_not_exist a) eqn:Hstore.
  - unfold bindM at 1 in H. unfold bindM at 1, modify_store at 1 in H.
    cbn [store config] in H.
    match type of H with
    | context [bindM groups ?k ?w3] =>
        destruct (groups_Ok w3) as (w4 & E4 & Hs4 & Hc4);
        unfold bindM at 1 in H; rewrite E4 in H
    end.
    rewrite OptionsFacts.forM_add_nodes in H. unfold ret in H.
    injection H as <- <-. cbn [with_store store].
    rewrite Hs4. cbn [store].
    match goal with
    | |- context [foldl _ ?st3 ?gs] =>
        destruct (foldl_add_nodes_effect n gs st3) as (Hfn & Hfl & Hfg)
    end.
    split; [by rewrite Hn|]. split; [|done].
    eexists. split; [|split; [|split]].
    2:{ rewrite Hfn, Hn. apply store_node_new. }
    + done.
    + rewrite Hfl. unfold store_node, alter_node. done.
    + intros g. destruct (Hfg g) as (H1 & H2 & H3 & H4).
      rewrite H1, H2, H3.
      unfold grp_label, grp_description, grp_is_stored, grp_nodes, group,
        store_node, alter_node in *. simpl in *.
      repeat split; try done.
      destruct H4 as [->|[_ ->]]; [by left|right]. by rewrite Hn.
  - unfold bindM, ret in H. injection H as <- <-. cbn [store].
    split; [by rewrite Hn|]. split.
    + eexists. split; [|split; [reflexivity|split]].
      * done.
      * done.
      * intros g. repeat split; by left.
    + intros _. split; [done|].
      unfold node_is_stored, node. simpl.
      rewrite lookup_app_r by lia. by rewrite Nat.sub_diag.
Qed.

Lemma query_Dicts_bound st group_names filters n :
  n ∈ query_Dicts st group_names filters → n < length (all_nodes st).
Proof.
  unfold query_Dicts. intros Hn.
  apply list_elem_of_In, in_flat_map in Hn as (x & _ & Hn).
  destruct (_ && _); [|by inversion Hn].
  apply list_elem_of_In, list_elem_of_filter in Hn as [Hn _].
  apply andb_prop in Hn as [Hn _].
  apply andb_prop in Hn as [_ Hn].
  unfold node_is_stored, node in Hn.
  destruct (all_nodes st !! n) eqn:E; [|done].
  by eapply lookup_lt_Some.
Qed.

(** The load-or-create step: it loads, and the store stays as it is; or
    it creates, and returns the one new node; or it ends early. *)
Lemma load_or_create_effect queue_name valid_kwargs w r w' :
  load_or_create get_computers a queue_name valid_kwargs w = (r, w') →
  (store w' = store w ∧
   ∀ res n, r = Ok res → n ∈ res → n < length (all_nodes (store w))) ∨
  (r = Ok [length (all_nodes (store w))] ∧
   adds_node (store w) (store w') ∧
   (store_if_not_exist a = false →
    all_groups (store w') = all_groups (store w) ∧
    node_is_stored (store w') (length (all_nodes (store w))) = false)).
Proof.
  unfold load_or_create. unfold bindM at 1, get_config at 1.
  unfold bindM at 1, get_store at 1. intros H.
  apply bindM_keeps in H as [(filters & w1 & E1 & Hs1 & H)|[Hs Hr]];
    [| |apply keeps_query_filters].
  2:{ left. split; [done|]. intros res n ->. by destruct (Hr res). }
  destruct (nonempty _) eqn:Hne.
  { injection H as <- <-. left. split; [done|]. intros res n [= <-] Hn.
    by eapply query_Dicts_bound. }
  unfold bindM in H.
  destruct (create_options _ _ _ _ w1) as [r2 w2] eqn:Ec.
  apply create_options_effect in Ec as [[Hs Hr]|(-> & Ha & Hf)].
  - left. destruct r2 as [n|e|]; [by destruct (Hr n)|..];
      injection H as <- <-; (split; [by rewrite Hs|done]).
  - right. unfold ret in H. injection H as <- <-. by rewrite Hs1 in *.
Qed.

Lemma return_valid_spec res w r w' :
  return_valid a res w = (r, w') →
  store w' = store w ∧
  ∀ l x, r = Ok l → x ∈ l →
    ∃ n, n ∈ res ∧
         get_truthy (node_attributes (store w) n) "resources" = true ∧
         x = if as_Dict a then OptionNode n
             else OptionAttributes (node_attributes (store w) n).
Proof.
  intros H. split.
  { pose proof (keeps_return_valid res w) as Hk. by rewrite H in Hk. }
  unfold return_valid in H.
  apply bindM_keeps in H as [([invalid_stored invalid_unstored] & w1 & E1 & Hs1 & H)
                            |[_ Hr]]; [| |apply keeps_check_resources].
  2:{ intros l x ->. by destruct (Hr l). }
  unfold bindM at 1, get_store at 1 in H. rewrite Hs1 in H.
  destruct (_ || _).
  { unfold bindM, warn, ret in H. injection H as <- <-.
    intros l x [= <-]. by inversion 1. }
  unfold ret in H. injection H as <- <-. intros l x [= <-] Hx.
  destruct (as_Dict a).
  - apply list_elem_of_fmap in Hx as (n & -> & Hn).
    apply list_elem_of_filter in Hn as [Hr Hn]. by exists n.
  - apply list_elem_of_fmap in Hx as (n & -> & Hn).
    apply list_elem_of_filter in Hn as [Hr Hn]. by exists n.
Qed.

(** What a call of [get_options] does to the store: nothing, and every
    node it returns was there before; or it adds one node, which is the
    only node it returns. *)
Lemma get_options_effect w r w' :
  get_options spec_options_keys get_computers get_queues a w = (r, w') →
  (store w' = store w ∧
   ∀ l n, r = Ok l → OptionNode n ∈ l → n < length (all_nodes (store w))) ∨
  (adds_node (store w) (store w') ∧
   (∀ l n, r = Ok l → OptionNode n ∈ l → n = length (all_nodes (store w))) ∧
   (store_if_not_exist a = false →
    all_groups (store w') = all_groups (store w) ∧
    node_is_stored (store w') (length (all_nodes (store w))) = false)).
Proof.
  unfold get_options. intros H.
  apply bindM_keeps in H as [(initialized & w0 & E0 & Hs0 & H)|[Hs Hr]];
    [| |apply keeps__check_if_initalized].
  2:{ left. split; [done|]. intros l n ->. by destruct (Hr l). }
  destruct (negb initialized).
  { injection H as <- <-. left. split; [done|]. intros l n [= <-]. by inversion 1. }
  apply bindM_keeps in H as [(valid_kwargs & w1 & E1 & Hs1 & H)|[Hs Hr]];
    [| |apply keeps_validate_kwargs].
  2:{ left. split; [by rewrite Hs|]. intros l n ->. by destruct (Hr l). }
  unfold bindM at 1, get_config at 1 in H.
  apply bindM_keeps in H as [(queue_name & w2 & E2 & Hs2 & H)|[Hs Hr]];
    [| |apply keeps_mandatory_loop].
  2:{ left. split; [by rewrite Hs, Hs1|]. intros l n ->. by destruct (Hr l). }
  assert (store w2 = store w) as Hs by (by rewrite Hs2, Hs1).
  unfold bindM in H.
  destruct (load_or_create _ _ _ _ w2) as [r3 w3] eqn:E3.
  apply load_or_create_effect in E3 as [[Hs3 Hres]|(-> & Hadd & Hfalse)].
  - left. destruct r3 as [res|e|].
    + apply return_valid_spec in H as [Hs4 H]. split; [by rewrite Hs4, Hs3|].
      intros l n -> Hn. destruct (H l (OptionNode n) eq_refl Hn) as (m & Hm & _ & Hx).
      rewrite <- Hs. apply (Hres res); [done|].
      destruct (as_Dict a); [by injection Hx as ->|done].
    + injection H as <- <-. split; [by rewrite Hs3|done].
    + injection H as <- <-. split; [by rewrite Hs3|done].
  - right. apply return_valid_spec in H as [Hs4 H]. rewrite Hs4, <- Hs.
    split; [done|]. split; [|done].
    intros l n -> Hn. destruct (H l (OptionNode n) eq_refl Hn) as (m & Hm & _ & Hx).
    apply list_elem_of_singleton in Hm as ->.
    destruct (as_Dict a); [by injection Hx as ->|done].
Qed.

Lemma get_options_result w l w' :
  get_options spec_options_keys get_computers get_queues a w = (Ok l, w') →
  ∀ x, x ∈ l →
    ∃ n, get_truthy (node_attributes (store w') n) "resources" = true ∧
         x = if as_Dict a then OptionNode n
             else OptionAttributes (node_attributes (store w') n).
Proof.
  unfold get_options. intros H.
  apply bindM_keeps in H as [(initialized & w0 & E0 & Hs0 & H)|[_ Hr]];
    [| |apply keeps__check_if_initalized].
  2:{ by destruct (Hr l). }
  destruct (negb initialized).
  { injection H as <- <-. by inversion 1. }
  apply bindM_keeps in H as [(valid_kwargs & w1 & E1 & Hs1 & H)|[_ Hr]];
    [| |apply keeps_validate_kwargs].
  2:{ by destruct (Hr l). }
  unfold bindM at 1, get_config at 1 in H.
  apply bindM_keeps in H as [(queue_name & w2 & E2 & Hs2 & H)|[_ Hr]];
    [| |apply keeps_mandatory_loop].
  2:{ by destruct (Hr l). }
  unfold bindM in H.
  destruct (load_or_create _ _ _ _ w2) as [[res|e|] w3]; [|done..].
  apply return_valid_spec in H as [Hs4 H]. intros x Hx.
  destruct (H l x eq_refl Hx) as (n & _ & Hr & ->). exists n. by rewrite Hs4.
Qed.

End Keeps.

(** X12: called with [store_if_not_exist=False], [get_options] stores
    nothing, however it ends: the groups are as they were, and the node
    objects are as they were, but for at most one new [Dict] node, which
    is unstored. *)
Theorem get_options_without_storing
    spec_options_keys get_computers get_queues (a : Arguments) (w : World) :
  store_if_not_exist a = false →
  all_groups (store (get_options spec_options_keys get_computers get_queues a w).2)
  = all_groups (store w) ∧
  (all_nodes (store (get_options spec_options_keys get_computers get_queues a w).2)
   = all_nodes (store w) ∨
   ∃ x,
     all_nodes (store (get_options spec_options_keys get_computers get_queues a w).2)
     = all_nodes (store w) ++ [x] ∧
     type x = TDict ∧ is_stored x = false).
Proof.
  intros Hstore.
  destruct (get_options _ _ _ a w) as [r w'] eqn:E. cbn [snd].
  apply get_options_effect in E as [[-> _]|((x & Hx & Hn & _) & _ & Hf)].
  { split; [done|by left]. }
  destruct (Hf Hstore) as [Hg Hu]. split; [done|]. right.
  exists x. split; [done|]. split; [done|].
  unfold node_is_stored, node in Hu. rewrite Hn in Hu.
  rewrite lookup_app_r in Hu by lia. by rewrite Nat.sub_diag in Hu.
Qed.

Lemma get_options_without_storing_witness :
  all_groups
    (store (get_options Options.Sample.spec_options_keys Options.Sample.no_computers
              Options.Sample.no_queues Sample.without_storing
              (initialize [] Options.Sample.claix18_world).2).2)
  = all_groups (store (initialize [] Options.Sample.claix18_world).2) ∧
  (get_options Options.Sample.spec_options_keys Options.Sample.no_computers
     Options.Sample.no_queues Sample.without_storing
     (initialize [] Options.Sample.claix18_world).2).1 = Ok [OptionNode 1].
Proof.
  split; [|vm_compute; reflexivity].
  apply (get_options_without_storing Options.Sample.spec_options_keys
           Options.Sample.no_computers Options.Sample.no_queues
           Sample.without_storing (initialize [] Options.Sample.claix18_world).2).
  reflexivity.
Defined.

(** X13: a call of [get_options], however it ends, leaves the store as
    it was or adds one [Dict] node to it, which may join groups; the
    nodes that were there, and the labels, descriptions and stored flags
    of the groups, stay. A node that it returns and that was there
    before was loaded: then the call has changed nothing in the store. *)
Theorem get_options_loads_or_adds
    spec_options_keys get_computers get_queues (a : Arguments) (w : World) :
  (store (get_options spec_options_keys get_computers get_queues a w).2 = store w ∨
   adds_node (store w)
     (store (get_options spec_options_keys get_computers get_queues a w).2)) ∧
  ∀ l n,
    (get_options spec_options_keys get_computers get_queues a w).1 = Ok l →
    OptionNode n ∈ l →
    n ≤ length (all_nodes (store w)) ∧
    (n < length (all_nodes (store w)) →
     store (get_options spec_options_keys get_computers get_queues a w).2
     = store w).
Proof.
  destruct (get_options _ _ _ a w) as [r w'] eqn:E. cbn [fst snd].
  apply get_options_effect in E as [[Hs Hn]|(Ha & Hn & _)].
  - split; [by left|]. intros l n Hr Hin. split; [|done].
    specialize (Hn l n Hr Hin). lia.
  - split; [by right|]. intros l n Hr Hin. specialize (Hn l n Hr Hin).
    split; lia.
Qed.

(** X14: every item that [get_options] returns has the field
    [resources], with a value that is not empty: option nodes without
    it, loaded or created, are never returned. *)
Theorem get_options_returns_resources
    spec_options_keys get_computers get_queues (a : Arguments) (w : World) l w' :
  get_options spec_options_keys get_computers get_queues a w = (Ok l, w') →
  ∀ x, x ∈ l →
    match x with
    | OptionNode n =>
        as_Dict a = true ∧
        get_truthy (node_attributes (store w') n) "resources" = true
    | OptionAttributes d =>
        as_Dict a = false ∧ get_truthy d "resources" = true
    end.
Proof.
  intros H x Hx.
  destruct (get_options_result _ _ _ _ _ _ _ H x Hx) as (n & Hr & ->).
  by destruct (as_Dict a).
Qed.

Lemma get_options_returns_resources_witness :
  ∃ w',
    get_options Options.Sample.spec_options_keys Options.Sample.no_computers
      Options.Sample.no_queues default_arguments
      (initialize [] Options.Sample.claix18_world).2 = (Ok [OptionNode 0], w') ∧
    get_truthy (node_attributes (store w') 0) "resources" = true.
Proof.
  eexists. split; [vm_compute; reflexivity|].
  match goal with
  | |- get_truthy (node_attributes (store ?w') 0) _ = true =>
      apply (get_options_returns_resources Options.Sample.spec_options_keys
               Options.Sample.no_computers Options.Sample.no_queues
               default_arguments (initialize [] Options.Sample.claix18_world).2
               [OptionNode 0] w' eq_refl (OptionNode 0))
  end.
  by left.
Defined.

(** ** [as_Dict] *)

Lemma get_options_with_as_Dict spec_options_keys get_computers get_queues b a w :
  get_options spec_options_keys get_computers get_queues (with_as_Dict b a) w =
  (do initialized <- _check_if_initalized;
   if negb initialized then ret []
   else
     do valid_kwargs <- validate_kwargs spec_options_keys get_computers a;
     do c <- get_config;
     do queue_name <-
       mandatory_loop get_computers get_queues a (mandatory (_query_config c))
         (queue_name a);
     do res <- load_or_create get_computers a queue_name valid_kwargs;
     return_valid (with_as_Dict b a) res) w.
Proof. reflexivity. Qed.

Lemma return_valid_as_Dict a res w :
  presented_as_attributes (return_valid (with_as_Dict true a) res w)
                          (return_valid (with_as_Dict false a) res w).
Proof.
  unfold presented_as_attributes, return_valid, bindM.
  pose proof (keeps_check_resources res [] [] w) as Hk.
  destruct (check_resources res [] [] w) as [[[i u]|e|] w1]; simpl in *; try done.
  unfold get_store. destruct (_ || _); simpl; [done|].
  split; [done|]. rewrite map_map. done.
Qed.

Lemma bindM_presented {A} (m : M World A) k_nodes k_dicts w :
  (∀ x w1, presented_as_attributes (k_nodes x w1) (k_dicts x w1)) →
  presented_as_attributes (bindM m k_nodes w) (bindM m k_dicts w).
Proof.
  intros Hk. unfold bindM. destruct (m w) as [[x|e|] w1]; [apply Hk|done..].
Qed.

(** X15: [as_Dict] changes how the options are presented and nothing
    else. A call with [as_Dict=False] ends as the call with [as_Dict=True]
    does and leaves the same config, store and output; where that call
    returns nodes, it returns the attributes of these nodes. *)
Theorem get_options_as_Dict
    spec_options_keys get_computers get_queues (a : Arguments) (w : World) :
  presented_as_attributes
    (get_options spec_options_keys get_computers get_queues (with_as_Dict true a) w)
    (get_options spec_options_keys get_computers get_queues (with_as_Dict false a) w).
Proof.
  rewrite !get_options_with_as_Dict.
  apply bindM_presented. intros initialized w0.
  destruct (negb initialized); [done|].
  apply bindM_presented. intros valid_kwargs w1.
  apply bindM_presented. intros c w2.
  apply bindM_presented. intros queue_name w3.
  apply bindM_presented. intros res w4.
  apply return_valid_as_Dict.
Qed.

(** ** A config without resources keys *)

(** X16: on an initialized config whose job resource class names no
    resource keys, and none of whose computers does, [get_options] raises
    [TypeError] at once, whatever the arguments: the fallback of
    [get_help] adds Python sets with [+]. Nothing is changed. *)
Theorem get_options_no_resources_keys
    spec_options_keys get_computers get_queues (a : Arguments) (w : World) :
  _is_initialized (config w) = true →
  jobresource_keys (config w) = [] →
  Forall (λ computer, job_resource_keys computer = [])
         (computers get_computers (config w)) →
  get_options spec_options_keys get_computers get_queues a w = (Raise TypeError, w).
Proof.
  intros Hinit Hkeys Hall. unfold get_options.
  rewrite (OptionsFacts.bindM_Ok _ _ _ _ _
             (OptionsFacts._check_if_initalized_true w Hinit)). cbn [negb].
  apply OptionsFacts.bindM_Raise.
  unfold validate_kwargs. unfold bindM at 1, get_config at 1.
  apply OptionsFacts.bindM_Raise.
  unfold lift, get_help_keywords. rewrite Hkeys. cbn [nonempty length Nat.eqb negb].
  destruct (list_find _ _) as [[i x]|] eqn:E; [|done].
  apply list_find_Some in E as (Hi & Hne & _).
  rewrite Forall_lookup in Hall. by specialize (Hall _ _ Hi).
Qed.

Lemma get_options_no_resources_keys_witness :
  get_options Options.Sample.spec_options_keys Options.Sample.no_computers
    Options.Sample.no_queues default_arguments
    (initialize [] Options.Sample.localhost_world).2
  = (Raise TypeError, (initialize [] Options.Sample.localhost_world).2).
Proof.
  apply get_options_no_resources_keys; [reflexivity|reflexivity|].
  vm_compute. constructor.
Defined.

(** ** [initialize], once more *)

Lemma bindM_inv_Ok {S A B} (m : M S A) (k : A → M S B) w b w' :
  bindM m k w = (Ok b, w') → ∃ x w1, m w = (Ok x, w1) ∧ k x w1 = (Ok b, w').
Proof.
  unfold bindM. destruct (m w) as [[x|e|] w1]; [|done..]. intros H. by exists x, w1.
Qed.

Lemma initialize_initialized alt w w' :
  initialize alt w = (Ok (), w') → _is_initialized (config w') = true.
Proof.
  unfold initialize. unfold bindM at 1, get_config at 1.
  destruct (_is_initialized (config w)) eqn:Hinit.
  { by intros [= <-]. }
  destruct (_groups (config w)) as [|pg rest]; [done|].
  intros H.
  apply bindM_inv_Ok in H as (? & w1 & _ & H).
  apply bindM_inv_Ok in H as (? & w2 & _ & H).
  apply bindM_inv_Ok in H as (? & w3 & _ & H).
  apply bindM_inv_Ok in H as (? & w4 & _ & H).
  unfold modify_config in H. by injection H as <-.
Qed.

(** X17: [initialize] is idempotent: after a call that has completed,
    another call, with whatever group names, changes nothing and prints
    no warning. *)
Theorem initialize_twice alt alt' w w' :
  initialize alt w = (Ok (), w') →
  initialize alt' w' = (Ok (), w').
Proof.
  intros H. apply initialize_initialized in H.
  unfold initialize. unfold bindM, get_config. by rewrite H.
Qed.

Lemma initialize_twice_witness :
  initialize ["computer_options/other"] (initialize [] Options.Sample.iffslurm_world).2
  = (Ok (), (initialize [] Options.Sample.iffslurm_world).2).
Proof.
  apply (initialize_twice [] ["computer_options/other"] Options.Sample.iffslurm_world).
  vm_compute. reflexivity.
Defined.

(** ** The options of a config after [initialize] *)

Lemma resolve_groups_all_stored st n gs :
  existsb (grp_is_stored st) (resolve_groups st n gs) = true →
  ∀ g, g ∈ resolve_groups st n gs → grp_is_stored st g = true.
Proof.
  unfold resolve_groups. cbv zeta.
  match goal with |- context [existsb _ (drop n ?l)] => set (gs1 := l) end.
  set (gs2 := if negb (existsb (grp_is_stored st) (take n gs1))
                 && existsb (grp_is_stored st) (drop n gs1)
              then drop n gs1 else gs1).
  destruct (existsb (grp_is_stored st) gs2) eqn:E.
  - intros _ g Hg. by apply list_elem_of_filter in Hg as [? _].
  - intros H. congruence.
Qed.

Lemma initialize_groups_stored n w w' :
  valid_groups w →
  initialize_groups n w = (Ok (), w') →
  ∀ g, g ∈ _groups (config w') → grp_is_stored (store w') g = true.
Proof.
  intros Hv. unfold initialize_groups.
  unfold bindM at 1, get_store at 1. unfold bindM at 1, modify_config at 1.
  unfold bindM at 1, get_config at 1. simpl.
  destruct (existsb _ _) eqn:E.
  { intros [= <-]. simpl. by apply resolve_groups_all_stored. }
  destruct (resolve_groups _ _ _) as [|g0 gs] eqn:Er; [done|].
  unfold bindM, put_config, modify_store. simpl. intros [= <-]. simpl.
  intros g ->%list_elem_of_singleton.
  assert (is_Some (group (store w) g0)) as [x Hx].
  { apply (OptionsFacts.resolve_groups_valid (store w) n (_groups (config w))).
    - apply Hv.
    - rewrite Er. by left. }
  unfold grp_is_stored, group, store_group, alter_group in *. simpl.
  by rewrite list_lookup_alter_eq, Hx.
Qed.

Lemma created_store_groups gs o st g :
  grp_is_stored (created_store gs o st) g = grp_is_stored st g ∧
  grp_label (created_store gs o st) g = grp_label st g.
Proof.
  unfold created_store. destruct (node_is_stored st o); [done|].
  destruct (foldl_add_nodes_effect o gs (store_node o st)) as (_ & _ & H).
  destruct (H g) as (H1 & _ & H3 & _). by rewrite H1, H3.
Qed.

Lemma created_all_groups gs opts : ∀ st g,
  grp_is_stored (foldl (λ st o, created_store gs o st) st opts) g
  = grp_is_stored st g ∧
  grp_label (foldl (λ st o, created_store gs o st) st opts) g = grp_label st g.
Proof.
  induction opts as [|o opts IH]; intros st g; simpl; [done|].
  destruct (IH (created_store gs o st) g) as [-> ->]. apply created_store_groups.
Qed.

Lemma created_store_type gs o st n :
  node_type_of (created_store gs o st) n = node_type_of st n.
Proof.
  unfold created_store. destruct (node_is_stored st o); [done|].
  destruct (foldl_add_nodes_effect o gs (store_node o st)) as (H & _).
  unfold node_type_of, node. rewrite H.
  unfold store_node, alter_node. simpl. rewrite list_lookup_alter.
  destruct (decide (o = n)) as [->|]; [|done]. by destruct (all_nodes st !! n).
Qed.

Lemma created_all_type gs opts : ∀ st n,
  node_type_of (foldl (λ st o, created_store gs o st) st opts) n = node_type_of st n.
Proof.
  induction opts as [|o opts IH]; intros st n; simpl; [done|].
  by rewrite IH, created_store_type.
Qed.

(** The query behind the property [options] finds every stored [Dict]
    member of a stored group of the config. *)
Lemma query_Dicts_member st names g n :
  grp_is_stored st g = true → grp_label st g ∈ names →
  n ∈ grp_nodes st g → is_stored_Dict st n = true →
  n ∈ query_Dicts_distinct st names [].
Proof.
  intros Hs Hl Hn Hd. unfold query_Dicts_distinct, query_Dicts.
  apply elem_of_remove_dups, list_elem_of_In, in_flat_map.
  unfold grp_is_stored, grp_label, grp_nodes, group in *.
  destruct (all_groups st !! g) as [x|] eqn:Hx; [|done].
  exists x. split; [by eapply list_elem_of_In, list_elem_of_lookup_2|].
  rewrite Hs. rewrite bool_decide_eq_true_2 by done. simpl.
  apply list_elem_of_In, list_elem_of_filter. split; [|done].
  by rewrite Hd.
Qed.

Lemma options_initialized w :
  _is_initialized (config w) = true →
  ∃ w'', options w =
         (Ok (query_Dicts_distinct (store w) (group_names (store w) (config w)) []),
          w'').
Proof.
  intros H. unfold options.
  rewrite (OptionsFacts.bindM_Ok _ _ _ _ _
             (OptionsFacts._check_if_initalized_true w H)).
  unfold when, _update_options, bindM, get_config, get_store, put_config, ret.
  simpl. rewrite H. simpl. by eexists.
Qed.

(** X18: after [initialize] on a new config (its default option records
    unstored [Dict] nodes), the property [options], which asks the
    database for the [Dict] members of the config's groups, lists every
    option of the config as [initialize] has settled it, loaded or
    created. *)
Theorem initialize_then_options alt w :
  _is_initialized (config w) = false →
  valid_groups w → _groups (config w) ≠ [] →
  Forall (λ o, isinstance_Dict (node_type_of (store w) o) = true ∧
               is_Some (node (store w) o) ∧
               node_is_stored (store w) o = false)
         (_options (config w)) →
  ∃ w' l w'',
    initialize alt w = (Ok (), w') ∧
    options w' = (Ok l, w'') ∧
    ∀ n, n ∈ _options (config w') → n ∈ l.
Proof.
  intros Hinit Hv Hne Hopts.
  destruct (OptionsFacts.initialize_returns alt w Hv Hne) as [w' E].
  exists w'.
  destruct (options_initialized w') as [w'' Eo].
  { by eapply initialize_initialized. }
  eexists _, w''. split; [done|]. split; [exact Eo|]. clear Eo.
  revert E. unfold initialize.
  unfold bindM at 1, get_config at 1. rewrite Hinit.
  destruct (_groups (config w)) as [|pg rest] eqn:Hgs; [done|].
  destruct (OptionsFacts.add_alternative_groups_spec pg alt w Hv)
    as (w1 & E1 & Hs1 & Hv1).
  rewrite (OptionsFacts.bindM_Ok _ _ _ _ _ E1).
  destruct (initialize_groups (length (pg :: rest)) w1) as [r2 w2] eqn:E2.
  destruct (OptionsFacts.initialize_groups_spec _ _ _ _ Hv1 E2) as [Hs2 Hv2].
  destruct r2 as [[]| |]; [|by rewrite (OptionsFacts.bindM_Raise _ _ _ _ _ E2)|].
  2:{ unfold bindM at 1. by rewrite E2. }
  rewrite (OptionsFacts.bindM_Ok _ _ _ _ _ E2). specialize (Hv2 eq_refl).
  pose proof (initialize_groups_stored _ _ _ Hv1 E2) as Hstored2.
  pose proof (OptionsFacts.same_nodes_trans _ _ _ Hs1 Hs2) as Hs.
  unfold bindM at 1. unfold load_default_options at 1.
  unfold bindM at 1, get_config at 1.
  destruct (OptionsFacts.forM_load_option (store w2) (_groups (config w2))
              (_options (config w2)) (length (_options (config w2))) 0 w2)
    as (w3 & E3 & Hg3 & Hobs3 & Ho3);
    [done|done|apply OptionsFacts.same_but_labels_refl|done|].
  rewrite E3.
  unfold bindM at 1. unfold store_default_options at 1.
  unfold bindM at 1, get_config at 1. rewrite OptionsFacts.forM_create_option.
  unfold modify_config. intros [= <-].
  unfold group_names, set_initialized, with_store. cbn [config store _options _groups].
  rewrite Hg3, Ho3.
  destruct Hs as (Hn & Hopts2 & Hgn).
  destruct Hobs3 as [Hag3 Hn3].
  set (gs := _groups (config w2)) in *.
  remember (map (loaded (store w2) gs) (_options (config w2))) as opts eqn:Eopts.
  remember (foldl (λ st o, created_store gs o st) (store w3) opts) as st' eqn:Est'.
  assert (gs ≠ []) as Hgsne.
  { subst gs. destruct (OptionsFacts.add_alternative_groups_groups _ _ _ _ _ E1)
      as [new Hg1].
    destruct (OptionsFacts.initialize_groups_returns (length (pg :: rest)) w1)
      as (w2' & E2').
    { rewrite Hg1, Hgs. done. }
    rewrite E2 in E2'. injection E2' as <-.
    revert E2. unfold initialize_groups.
    unfold bindM at 1, get_store at 1. unfold bindM at 1, modify_config at 1.
    unfold bindM at 1, get_config at 1. simpl.
    pose proof (OptionsFacts.resolve_groups_nonempty (store w1)
                  (S (length rest)) (_groups (config w1))) as Hr.
    destruct (existsb _ _).
    - intros [= <-]. simpl. apply Hr. rewrite Hg1, Hgs. done.
    - destruct (resolve_groups _ _ _); [done|].
      unfold bindM, put_config, modify_store. simpl. by intros [= <-]. }
  assert (∀ g, g ∈ gs → grp_is_stored st' g = true ∧
                        grp_label st' g ∈ map (grp_label st') gs) as Hgroups.
  { intros g Hg. destruct (created_all_groups gs opts (store w3) g) as [H1 H2].
    split.
    - subst st'. rewrite H1. unfold grp_is_stored, group. rewrite Hag3.
      by apply Hstored2.
    - apply list_elem_of_fmap. by exists g. }
  intros n Hin. rewrite Eopts in Hin.
  apply (list_elem_of_fmap (loaded (store w2) gs)) in Hin as (o & -> & Ho).
  rewrite Hopts2 in Ho.
  rewrite Forall_forall in Hopts. destruct (Hopts o Ho) as (Hty & Hex & Hun).
  unfold loaded at 1.
  destruct (search_groups (store w2) (node_attributes (store w2) o) gs)
    as [n|] eqn:Hsearch; cbn [default from_option id].
  - apply OptionsFacts.search_groups_Some in Hsearch as (g & Hg & Hmem & _).
    apply list_elem_of_filter in Hmem as [Hd Hmem].
    destruct (Hgroups g Hg) as [Hgs' Hgl].
    apply (query_Dicts_member st' _ g); [done|done| |].
    + rewrite Est'. apply OptionsFacts.created_all_mono.
      unfold grp_nodes, group. rewrite Hag3. done.
    + destruct (Hn3 n) as (Ht3 & _ & Hst3 & _).
      apply andb_prop in Hd as [Hd1 Hd2].
      unfold is_stored_Dict. rewrite Est'.
      rewrite created_all_type, Ht3, Hd1.
      rewrite OptionsFacts.created_all_stored_mono; [done|]. by rewrite Hst3.
  - assert (∃ g, g ∈ gs) as [g Hg].
    { assert (∀ l : list nat, l ≠ [] → ∃ g, g ∈ l) as Hl.
      { intros [|x l] Hl; [done|]. exists x. by left. }
      by apply Hl. }
    destruct (Hgroups g Hg) as [Hgs' Hgl].
    destruct (Hn3 o) as (Ht3 & _ & Hst3 & Hv3).
    destruct (OptionsFacts.created_all gs opts (store w3) o)
      as [Hstored Hmember].
    { rewrite Eopts. apply (list_elem_of_fmap (loaded (store w2) gs)). exists o.
      split; [|by rewrite Hopts2].
      unfold loaded. by rewrite Hsearch. }
    { apply Hv3. unfold node in *. by rewrite Hn. }
    { rewrite Hst3. unfold node_is_stored, node in *. by rewrite Hn. }
    apply (query_Dicts_member st' _ g); [done|done| |].
    + rewrite Est'. apply Hmember; [done|]. unfold group. rewrite Hag3.
      by apply Hv2.
    + unfold is_stored_Dict. rewrite Est', created_all_type, Ht3.
      rewrite Hstored.
      unfold node_type_of, node in *. rewrite Hn. by rewrite Hty.
Qed.

Lemma initialize_then_options_witness :
  ∃ l w'',
    options (initialize [] Options.Sample.claix18_world).2 = (Ok l, w'') ∧
    ∀ n, n ∈ _options (config (initialize [] Options.Sample.claix18_world).2) →
         n ∈ l.
Proof.
  destruct (initialize_then_options [] Options.Sample.claix18_world)
    as (w' & l & w'' & E & Eo & Hl).
  - reflexivity.
  - intros g ->%list_elem_of_singleton. by eexists.
  - done.
  - vm_compute. repeat constructor; by eexists.
  - exists l, w''. rewrite E. by split.
Defined.

End OptionsMoreFacts.

(** * Properties of [load_or_convert] *)

Module CifMoreFacts.
Import Py Orm Cif CifMore.

Local Arguments Group_get : simpl never.
Local Arguments hits : simpl never.
Local Arguments nonempty : simpl never.
Local Arguments _determine_structure_group_path : simpl never.

Ltac run_all :=
  unfold load_or_convert, select_conversion_settings, _get_cif_nodes,
    _load_or_create_structure_group, _load_or_create_conversion_settings,
    _check_conversion_settings, _load_or_convert,
    get_or_create_group, _try_load_conversion_settings, when,
    bindM, ret, lift, raise, get_store, get_importer, put_importer,
    put_store, modify_store, new_Dict, new_Group;
  cbn [store importer struc_group cif_group conversion_settings fst snd _clear].

Ltac step :=
  match goal with
  | |- context [match ?x with _ => _ end] =>
      lazymatch x with
      | context [match _ with _ => _ end] => fail
      | _ => destruct x eqn:?
      end
  end;
  cbn [store importer struc_group cif_group conversion_settings fst snd
       head andb negb nonempty_opt] in *.

(** X19: a dry run of [load_or_convert] stores nothing and converts
    nothing: however it ends, the groups and the node objects are as
    before, but for one new, unstored node of the default conversion
    settings, and the outcome does not depend on the converter
    [get_structure]. *)
Theorem load_or_convert_dry_run gs gs' a w :
  dry_run a = true →
  stores_nothing (store w) (store (load_or_convert gs a w).2) ∧
  load_or_convert gs' a w = load_or_convert gs a w.
Proof.
  intros Hdry. unfold stores_nothing, default_settings_node. run_all.
  rewrite Hdry.
  cbn [store importer struc_group cif_group conversion_settings fst snd negb].
  repeat step; auto.
Qed.

Lemma load_or_convert_dry_run_witness :
  stores_nothing Sample.one_setting
    (store (load_or_convert Sample.convert Sample.arguments
              (Sample.world Sample.one_setting)).2).
Proof.
  exact (proj1 (load_or_convert_dry_run Sample.convert Sample.convert
                  Sample.arguments (Sample.world Sample.one_setting) eq_refl)).
Defined.

(** X20: when the CIF group holds no [CifData] node, [load_or_convert]
    returns [None] and leaves the object store as it is, also when it is
    no dry run; when the CIF group does not exist, it raises what
    [Group.get] raises. *)
Theorem load_or_convert_nothing_to_convert gs a w :
  cif_nodes_of (store w) a = [] →
  store (load_or_convert gs a w).2 = store w ∧
  (load_or_convert gs a w).1 =
    match Group_get (store w) (cifgroup_label a) with
    | Ok _ => Ok None
    | Raise e => Raise e
    | Diverges => Diverges
    end.
Proof.
  unfold cif_nodes_of. intros Hnone. run_all.
  destruct (Group_get (store w) (cifgroup_label a)) as [cg| |]; [|done..].
  cbn [store importer]. rewrite Hnone. done.
Qed.

Lemma load_or_convert_nothing_to_convert_witness :
  (load_or_convert Sample.convert Sample.arguments
     (Sample.world Sample.two_settings)).1 = Ok None.
Proof.
  exact (proj2 (load_or_convert_nothing_to_convert Sample.convert
                  Sample.arguments (Sample.world Sample.two_settings) eq_refl)).
Defined.

Lemma structure_nodes_of_new_Dict st g x :
  type x ≠ TStructureData →
  structure_nodes_of {| all_nodes := all_nodes st ++ [x];
                        all_groups := all_groups st |} g
  = structure_nodes_of st g.
Proof.
  intros Hx. unfold structure_nodes_of, grp_nodes, group. simpl.
  apply list_filter_iff. intros n. unfold node_type_of, node. simpl.
  destruct (decide (n < length (all_nodes st))) as [Hlt|Hge].
  - by rewrite lookup_app_l.
  - rewrite lookup_app_r by lia. rewrite (lookup_ge_None_2 (all_nodes st)) by lia.
    destruct (n - length (all_nodes st)) as [|k]; simpl; [|done].
    split; [done|]. intros H. by destruct Hx.
Qed.

Lemma structure_nodes_of_set_attribute st g n k v :
  structure_nodes_of (set_attribute n k v st) g = structure_nodes_of st g.
Proof.
  unfold structure_nodes_of, grp_nodes, group, set_attribute, alter_node. simpl.
  apply list_filter_iff. intros m. unfold node_type_of, node. simpl.
  destruct (decide (n = m)) as [->|Hne].
  - rewrite list_lookup_alter_eq. by destruct (all_nodes st !! m).
  - by rewrite list_lookup_alter_ne.
Qed.

Ltac step_but_structures :=
  match goal with
  | |- context [match ?x with _ => _ end] =>
      lazymatch x with
      | context [match _ with _ => _ end] => fail
      | context [TStructureData] => fail
      | _ => destruct x eqn:?
      end
  end;
  cbn [store importer struc_group cif_group conversion_settings fst snd
       head andb negb] in *.

Ltac fold_structures :=
  repeat match goal with
  | |- context [filter (λ n, node_type_of ?st n = TStructureData)
                       (grp_nodes ?st ?g)] =>
      change (filter (λ n, node_type_of st n = TStructureData) (grp_nodes st g))
        with (structure_nodes_of st g)
  end;
  rewrite ?structure_nodes_of_set_attribute, ?structure_nodes_of_new_Dict by done.

(** X21: with [load_over_create], when the structure group exists and
    holds a [StructureData] node (and at most one conversion settings
    node), [load_or_convert] on a CIF group with CIF files returns the
    structure group and converts nothing: no group changes, and the
    outcome does not depend on the converter [get_structure]. *)
Theorem load_or_convert_loads_existing gs a w g :
  load_over_create a = true →
  cif_nodes_of (store w) a ≠ [] →
  Group_get (store w) (_determine_structure_group_path a) = Ok g →
  structure_nodes_of (store w) g ≠ [] →
  length (hits (store w) g) ≤ 1 →
  ∃ w', load_or_convert gs a w = (Ok (Some g), w') ∧
        all_groups (store w') = all_groups (store w) ∧
        ∀ gs', load_or_convert gs' a w = load_or_convert gs a w.
Proof.
  unfold cif_nodes_of. intros Hload Hcif Hg Hstruc Hhits.
  destruct (Group_get (store w) (cifgroup_label a)) as [cg| |] eqn:Hcg; [|done..].
  destruct (nonempty (filter (λ n, node_type_of (store w) n = TCifData)
                        (grp_nodes (store w) cg))) eqn:Hnon.
  2:{ by destruct (filter _ _). }
  run_all. rewrite Hcg. cbn [store importer]. rewrite Hnon, Hload.
  destruct (dry_run a);
    cbn [store importer struc_group cif_group conversion_settings fst snd andb negb];
    rewrite !Hg;
    cbn [store importer struc_group cif_group conversion_settings fst snd andb negb];
    (destruct (hits (store w) g) as [|hit [|hit2 rest]] eqn:Hh;
      [| |simpl in Hhits; lia]); cbn [head];
    repeat step_but_structures; fold_structures;
    (destruct (structure_nodes_of (store w) g) eqn:Hs; [done|]);
    cbn [nonempty_opt store importer struc_group];
    (eexists; split; [reflexivity|]; split; [reflexivity|]; intros gs'; reflexivity).
Qed.

Lemma load_or_convert_loads_existing_witness :
  ∃ w', load_or_convert Sample.convert CifMore.Sample.arguments_run
          (Sample.world CifMore.Sample.converted) = (Ok (Some 1), w') ∧
        all_groups (store w') = all_groups CifMore.Sample.converted.
Proof.
  destruct (load_or_convert_loads_existing Sample.convert
              CifMore.Sample.arguments_run
              (Sample.world CifMore.Sample.converted) 1)
    as (w' & E & Hgroups & _).
  - reflexivity.
  - vm_compute. discriminate.
  - reflexivity.
  - vm_compute. discriminate.
  - vm_compute. lia.
  - by exists w'.
Defined.

End CifMoreFacts.

(** * Properties of the manager's selection of configs *)

Module ManagerFacts.
Import Options Manager.

Lemma valid_names m (supplied : list string) n :
  n ∈ map name (filter (λ config, name config ∈ supplied) (configs m)) ↔
  n ∈ config_names m ∧ n ∈ supplied.
Proof.
  unfold config_names. rewrite !list_elem_of_fmap. split.
  - intros (c & -> & [Hc1 Hc2]%list_elem_of_filter). split; [by exists c|done].
  - intros [(c & -> & Hc) Hs]. exists c. split; [done|].
    by apply list_elem_of_filter.
Qed.

Lemma filter_all {A} (P : A → Prop) `{∀ x, Decision (P x)} (l : list A) :
  Forall P l → filter P l = l.
Proof.
  induction 1 as [|x l Hx _ IH]; [done|].
  by rewrite filter_cons_True, IH.
Qed.

Lemma list_of_difference_spec a b n :
  n ∈ list_of_difference a b ↔ n ∈ a ∧ n ∉ b.
Proof.
  unfold list_of_difference.
  by rewrite elem_of_elements, elem_of_difference, !elem_of_list_to_set.
Qed.

Lemma list_of_difference_nil (a b : list string) :
  (∀ n, n ∈ a → n ∈ b) → list_of_difference a b = [].
Proof.
  intros H. unfold list_of_difference. apply elements_empty_iff.
  apply set_equiv. intros n.
  rewrite elem_of_difference, !elem_of_list_to_set. split.
  - intros [Ha Hb]. by destruct Hb; apply H.
  - by intros ?%not_elem_of_empty.
Qed.

(** X22: [_get_valid_config_names_from] returns; the valid names are the
    names of the manager's configs that were supplied, in the manager's
    order; each config name is either valid or unselected and not both;
    the invalid names are the supplied names that no config has. With
    no name supplied every config is selected: all names are valid, none
    is unselected or invalid, and nothing is printed. *)
Theorem get_valid_config_names_from_spec m supplied silent console :
  ∃ valid unselected invalid console',
    _get_valid_config_names_from m supplied silent console
      = (Ok (valid, unselected, invalid), console') ∧
    (∀ n, n ∈ valid ↔ n ∈ config_names m ∧ (supplied = [] ∨ n ∈ supplied)) ∧
    (∀ n, n ∈ unselected ↔ n ∈ config_names m ∧ n ∉ valid) ∧
    (∀ n, n ∈ invalid ↔ n ∈ supplied ∧ n ∉ config_names m) ∧
    (supplied = [] →
       valid = config_names m ∧ unselected = [] ∧ invalid = [] ∧
       console' = console).
Proof.
  unfold _get_valid_config_names_from.
  set (s := if nonempty supplied then supplied else config_names m).
  set (valid := map name (filter (λ config, name config ∈ s) (configs m))).
  assert (∀ n, n ∈ config_names m ∧ n ∈ s ↔
               n ∈ config_names m ∧ (supplied = [] ∨ n ∈ supplied)) as Hs.
  { intros n. subst s. destruct supplied as [|x l]; simpl.
    - split; intros [Hn _]; auto.
    - split; [intros [Hn Hx]; auto|]. intros [Hn [Hx|Hx]]; [done|auto]. }
  exists valid, (list_of_difference (config_names m) valid),
    (list_of_difference s valid).
  exists (if negb silent && nonempty (list_of_difference s valid)
          then console ++ [list_of_difference s valid] else console).
  split.
  { unfold bindM, when, ret, print_ignoring.
    destruct (negb silent && nonempty (list_of_difference s valid)); reflexivity. }
  split; [|split; [|split]].
  - intros n. subst valid. rewrite valid_names. apply Hs.
  - intros n. apply list_of_difference_spec.
  - intros n. rewrite list_of_difference_spec. subst valid.
    rewrite valid_names. subst s.
    destruct supplied as [|x l]; simpl.
    + split; [intros [Hn Hx]; by destruct Hx|]. intros [H _]. inversion H.
    + split.
      * intros [Hn Hx]. split; [done|]. intros Hc. by apply Hx.
      * intros [Hn Hx]. split; [done|]. intros [Hc _]. by apply Hx.
  - intros ->. subst s valid. simpl.
    assert (filter (λ config, name config ∈ config_names m) (configs m)
            = configs m) as ->.
    { apply filter_all. apply Forall_forall. intros c Hc.
      unfold config_names. apply list_elem_of_fmap. by exists c. }
    fold (config_names m).
    rewrite list_of_difference_nil by done.
    by rewrite andb_false_r.
Qed.

End ManagerFacts.
